(** * crunch_v6: the 8-digit combination generator

    A shallow embedding of [linux/guides-tips/network/boredom/crunch_v6.py]:
    the chunk generator that runs inside each pool worker, the work
    partitioning, the coordinator loop that copies chunk results into the
    memory mapping, and the preflight / cleanup paths around them.

    Python integers are [Z]; [str] values are [string]; [bytes] and
    [bytearray] values are [list byte].  The three module constants
    [TOTAL_ENTRIES], [ENTRY_LENGTH] and [CHUNK_SIZE] are the fields of a
    [config] record, so that statements can range over configurations; the
    digit width 8 that [generate_chunk] spells out literally stays a
    literal.

    What a run depends on besides the configuration is given explicitly:
    the disk ([filesystem]), the moments at which the user interrupts, the
    behaviour of the shared flag and the faults each worker meets, and
    the order in which the workers finish ([run_env], [worker_env]).  A
    run leaves a [trace] of the events that matter for the files and the
    pool.  Logging at levels below the final report and failures of the
    operating system other than a lack of disk space are left out; of
    the progress line, the condition that guards it is modelled on its
    own. *)

From Stdlib Require Import ZArith List Bool Lia Arith.
From Stdlib.Strings Require Import String Ascii Byte.
From Stdlib Require Import Permutation.
Import ListNotations.

Local Open Scope string_scope.
Local Open Scope list_scope.
Local Open Scope Z_scope.

(* ================================================================== *)
(** * Part I: the program *)
(* ================================================================== *)

(* ================================================================== *)
(** ** Python and NumPy primitives used by the script *)
(* ================================================================== *)

Module Py.

(** [range(start, stop, step)].  CPython computes the length once and the
    k-th item as [start + k * step]; a zero step raises [ValueError]. *)
Definition range_len (start stop step : Z) : Z :=
  if 0 <? step then
    (if start <? stop then (stop - start - 1) / step + 1 else 0)
  else
    (if stop <? start then (start - stop - 1) / (- step) + 1 else 0).

Definition range (start stop step : Z) : option (list Z) :=
  if step =? 0 then None
  else Some (map (fun k => start + Z.of_nat k * step)
                 (seq 0 (Z.to_nat (range_len start stop step)))).

(** [len(x)] as a Python integer. *)
Definition len {A : Type} (l : list A) : Z := Z.of_nat (List.length l).

(** [l[a:b]] for [0 <= a]; the slice is clipped to the sequence. *)
Definition slice {A : Type} (l : list A) (a b : Z) : list A :=
  firstn (Z.to_nat (b - a)) (skipn (Z.to_nat a) l).

(** [enumerate(l)], with the index as a Python integer. *)
Definition enumerate {A : Type} (l : list A) : list (Z * A) :=
  combine (map Z.of_nat (seq 0 (List.length l))) l.

(** [''.join(parts)]. *)
Definition join (parts : list string) : string := String.concat "" parts.

(** [s.encode('ascii')]; every character the script produces is a digit
    or a newline, so the encoding never raises. *)
Definition encode_ascii (s : string) : list byte := list_byte_of_string s.

(** [bytes.decode('ascii')], used only to read records back. *)
Definition decode_ascii (b : list byte) : string := string_of_list_byte b.

End Py.

Module Np.

Definition uint32_modulus : Z := 2 ^ 32.

(** [np.arange(start, stop, dtype=np.uint32)] for [0 <= start < 2 ^ 32]:
    the items are [start, start + 1, ...] in 32-bit unsigned arithmetic. *)
Definition arange_uint32 (start stop : Z) : list Z :=
  map (fun k => (start + Z.of_nat k) mod uint32_modulus)
      (seq 0 (Z.to_nat (stop - start))).

Definition digit_char (d : Z) : ascii :=
  ascii_of_nat (48 + Z.to_nat d).

(** The decimal digits of [n], most significant first, pushed in front
    of [acc].  A [uint32] has at most ten digits, which bounds the
    recursion. *)
Fixpoint digits (fuel : nat) (n : Z) (acc : string) : string :=
  match fuel with
  | O => acc
  | S fuel' =>
      let acc' := String (digit_char (n mod 10)) acc in
      if n / 10 =? 0 then acc' else digits fuel' (n / 10) acc'
  end.

(** [str(v)] for a [uint32] value. *)
Definition str_uint32 (v : Z) : string := digits 10 v "".

(** [a.astype('U8')] on one item: the decimal text, cut to the eight
    characters the target dtype can hold. *)
Definition astype_U8 (v : Z) : string := substring 0 8 (str_uint32 v).

Fixpoint zeros (n : nat) : string :=
  match n with
  | O => ""
  | S n' => String "0" (zeros n')
  end.

(** [np.char.zfill(a, width)] on one item.  The sign handling of
    [str.zfill] is left out: the items are digit strings. *)
Definition zfill (s : string) (width : nat) : string :=
  zeros (width - String.length s) ++ s.

End Np.

(* ================================================================== *)
(** ** Configuration *)
(* ================================================================== *)

Record config : Type := Config {
  TOTAL_ENTRIES : Z;
  ENTRY_LENGTH  : Z;   (* 8 digits + newline *)
  CHUNK_SIZE    : Z
}.

(** The constants as the script sets them. *)
Definition crunch_v6 : config :=
  {| TOTAL_ENTRIES := 100000000; ENTRY_LENGTH := 9; CHUNK_SIZE := 10000000 |}.

(* ================================================================== *)
(** ** The chunk generator (worker side) *)
(* ================================================================== *)

(** What a worker sees of its surroundings while it runs one chunk.  The
    worker's steps are counted: step 0 is the read of the flag before the
    [try], and every loop iteration that formats a batch takes two steps,
    the read of the flag and the formatting.  [flag t] is the value of
    [shutdown_flag.value] at step [t]; [raises k] says that formatting
    batch number [k] raises (for instance [MemoryError]). *)
Record worker_env : Type := WorkerEnv {
  flag   : nat -> bool;
  raises : nat -> bool
}.

Inductive worker_event : Type :=
| ReadFlag (value : bool)
| Batch (records : nat)
| Raised.

(** One record: [np.char.zfill(batch.astype('U8'), 8) + '\n']. *)
Definition format_record (v : Z) : string :=
  Np.zfill (Np.astype_U8 v) 8 ++ String "010" "".

(** The [for i in range(0, len(numbers), batch_size)] loop.  [k] is the
    number of the batch, [t] the step at which its flag read happens. *)
Fixpoint batch_loop (env : worker_env) (numbers : list Z) (batch_size : Z)
    (starts : list Z) (k t : nat) (result : list byte)
    : list worker_event * option (list byte) :=
  match starts with
  | [] => ([], Some result)
  | i :: starts' =>
      if flag env t then ([ReadFlag true], None)
      else
        let batch := Py.slice numbers i (i + batch_size) in
        if raises env k then ([ReadFlag false; Raised], None)
        else
          let formatted := map format_record batch in
          let '(tr, r) :=
            batch_loop env numbers batch_size starts' (S k) (S (S t))
              (result ++ Py.encode_ascii (Py.join formatted)) in
          (ReadFlag false :: Batch (List.length batch) :: tr, r)
  end.

(** [generate_chunk((start, end, shutdown_flag))] together with the steps
    it took.  [None] is the script's [return None]. *)
Definition generate_chunk_steps (env : worker_env) (start stop : Z)
    : list worker_event * option (list byte) :=
  if flag env 0 then ([ReadFlag true], None)
  else
    let numbers := Np.arange_uint32 start stop in
    let batch_size := Z.min 100000 (stop - start) in
    match Py.range 0 (Py.len numbers) batch_size with
    | None => ([ReadFlag false; Raised], None)
    | Some starts =>
        let '(tr, r) := batch_loop env numbers batch_size starts 0 1 [] in
        (ReadFlag false :: tr, r)
    end.

Definition generate_chunk (env : worker_env) (start stop : Z)
    : option (list byte) :=
  snd (generate_chunk_steps env start stop).

(** A worker that is never told to stop and never faults. *)
Definition quiet : worker_env :=
  {| flag := fun _ => false; raises := fun _ => false |}.

(* ================================================================== *)
(** ** Work partitioning *)
(* ================================================================== *)

(** The list comprehension
    [[(i, min(i + CHUNK_SIZE, TOTAL_ENTRIES), shutdown_flag)
      for i in range(0, TOTAL_ENTRIES, CHUNK_SIZE)]].
    The third component is the one shared flag object; it is the [flag]
    of the worker's surroundings and is not repeated in the pair. *)
Definition make_chunks (cfg : config) : option (list (Z * Z)) :=
  match Py.range 0 (TOTAL_ENTRIES cfg) (CHUNK_SIZE cfg) with
  | None => None
  | Some starts =>
      Some (map (fun i => (i, Z.min (i + CHUNK_SIZE cfg) (TOTAL_ENTRIES cfg)))
                starts)
  end.

(* ================================================================== *)
(** ** The worker pool: [Pool.imap] *)
(* ================================================================== *)

(** [multiprocessing.pool.IMapIterator]: results arrive tagged with the
    index of their task, in whatever order the workers finish.  A result
    whose index is the next one to deliver goes to the queue of items,
    followed by every directly following index already waiting in
    [unsorted]; any other result waits in [unsorted]. *)
Record imap_iterator (B : Type) : Type := IMap {
  items    : list B;            (* delivered to the consumer, in order *)
  index    : nat;               (* next index to deliver *)
  unsorted : list (nat * B)     (* early results, by task index *)
}.

Arguments IMap {B}.
Arguments items {B}.
Arguments index {B}.
Arguments unsorted {B}.

Fixpoint dict_get {B : Type} (d : list (nat * B)) (i : nat) : option B :=
  match d with
  | [] => None
  | (j, b) :: d' => if Nat.eqb j i then Some b else dict_get d' i
  end.

Definition dict_pop {B : Type} (d : list (nat * B)) (i : nat)
    : list (nat * B) :=
  filter (fun e => negb (Nat.eqb (fst e) i)) d.

(** [while self._index in self._unsorted: ...]; every turn removes an
    entry, so the size of the dictionary bounds the number of turns. *)
Fixpoint imap_drain {B : Type} (turns : nat) (it : imap_iterator B)
    : imap_iterator B :=
  match turns with
  | O => it
  | S turns' =>
      match dict_get (unsorted it) (index it) with
      | None => it
      | Some b =>
          imap_drain turns'
            (IMap (items it ++ [b]) (S (index it))
                  (dict_pop (unsorted it) (index it)))
      end
  end.

(** [IMapIterator._set(i, obj)]. *)
Definition imap_set {B : Type} (it : imap_iterator B) (i : nat) (b : B)
    : imap_iterator B :=
  if Nat.eqb (index it) i then
    imap_drain (List.length (unsorted it))
      (IMap (items it ++ [b]) (S (index it)) (unsorted it))
  else
    IMap (items it) (index it) ((i, b) :: unsorted it).

(** [pool.imap(f, tasks)] when the workers finish the tasks in the order
    [finished] (a list of task indices): what the consumer is handed. *)
Definition pool_imap {A B : Type} (f : nat -> A -> B) (tasks : list A)
    (finished : list nat) : list B :=
  items
    (fold_left
       (fun it i =>
          match nth_error tasks i with
          | Some a => imap_set it i (f i a)
          | None => it
          end)
       finished (IMap [] 0%nat [])).

(* ================================================================== *)
(** ** The file system, the mapping and the outcome of a run *)
(* ================================================================== *)

(** The two paths the script touches in the output directory:
    [output_path] ("8digits-num.dict") and [temp_path]
    ("8digits-num.tmp"); [free_bytes] is [shutil.disk_usage(...).free]. *)
Record filesystem : Type := FS {
  directory   : bool;
  free_bytes  : Z;
  temp_file   : option (list byte);
  output_file : option (list byte)
}.

(** The exceptions that can reach the [except] and [finally] clauses of
    [generate_full_8digit_combinations].  The [IOError] of the space check
    is built from the required and the free byte counts (its message
    gives both in GB); the [RuntimeError] of a failed chunk has the fixed
    message "Chunk generation failed". *)
Inductive exn : Type :=
| IOError_insufficient_space (required free : Z)
| OSError_truncate                       (* f.truncate of a negative size *)
| ValueError_mmap_empty                  (* mmap of an empty file *)
| ValueError_range_step                  (* range() with step 0 *)
| KeyboardInterrupt
| RuntimeError_chunk_generation_failed
| IndexError_mmap_slice                  (* slice assignment of wrong size *)
| UnboundLocalError_temp_path.           (* [temp_path] read before bound *)

Definition is_KeyboardInterrupt (e : exn) : bool :=
  match e with KeyboardInterrupt => true | _ => false end.

Inductive event : Type :=
| Mkdir
| CreateTemp (size : Z)
| ManagerStart
| PoolStart
| SetShutdownFlag
| MmapWrite (i start_pos : Z) (data : list byte)
| Rename
| PoolTerminate
| ManagerShutdown
| Unlink
| LogInterrupted                 (* "Process interrupted by user" *)
| LogFatal (e : exn)             (* "Fatal error: ..." *)
| ListenerStop.

Inductive outcome : Type :=
| Returned (success : bool)
| Propagated (e : exn).

(** What the coordinator sees of its surroundings: whether
    [controller.shutdown_event] is set when result [i] is taken from the
    pool, the surroundings of the worker call for chunk [i], and the order
    in which the workers finish the chunks. *)
Record run_env : Type := RunEnv {
  interrupted : nat -> bool;
  worker      : nat -> worker_env;
  finished    : list nat
}.

(** Local state of [generate_full_8digit_combinations]. *)
Record state : Type := State {
  fs        : filesystem;
  trace     : list event;           (* most recent event last *)
  pool      : bool;                 (* controller.pool is set *)
  manager   : bool;                 (* controller.manager is set *)
  temp_path : bool                  (* the local [temp_path] is bound *)
}.

Definition emit (st : state) (e : event) : state :=
  State (fs st) (trace st ++ [e]) (pool st) (manager st) (temp_path st).

Definition set_fs (st : state) (f : filesystem) : state :=
  State f (trace st) (pool st) (manager st) (temp_path st).

Definition set_temp (f : filesystem) (c : option (list byte)) : filesystem :=
  FS (directory f) (free_bytes f) c (output_file f).

(** [PySlice_AdjustIndices] for step 1. *)
Definition adjust_index (i size : Z) : Z :=
  if i <? 0 then (if i + size <? 0 then 0 else i + size)
  else (if size <=? i then size else i).

(** [mm[a:b] = data]: the slice is clipped to the mapping, and a length
    mismatch raises [IndexError] ("mmap slice assignment is wrong size"). *)
Definition mmap_setslice (mm : list byte) (a b : Z) (data : list byte)
    : option (list byte) :=
  let size := Py.len mm in
  let a' := adjust_index a size in
  let b' := adjust_index b size in
  let slicelen := if b' <? a' then 0 else b' - a' in
  if Py.len data =? slicelen then
    Some (firstn (Z.to_nat a') mm ++ data ++ skipn (Z.to_nat (a' + slicelen)) mm)
  else None.

(** [ensure_directory_exists(path)]: the directory is made when it is not
    there. *)
Definition ensure_directory_exists (st : state) : state :=
  if directory (fs st) then st
  else emit (set_fs st (FS true (free_bytes (fs st)) (temp_file (fs st))
                           (output_file (fs st)))) Mkdir.

(** [check_disk_space(path, required_bytes)]: [None] when the check
    passes, the raised [IOError] otherwise. *)
Definition check_disk_space (st : state) (required_bytes : Z)
    : state * option exn :=
  let st1 := ensure_directory_exists st in
  if free_bytes (fs st1) <? required_bytes then
    (st1, Some (IOError_insufficient_space required_bytes (free_bytes (fs st1))))
  else (st1, None).

(** The body of [for i, result in enumerate(controller.pool.imap(...))].
    [mm] is the mapping; it is shared with the temporary file, so every
    slice assignment shows in the file. *)
Fixpoint coordinator_loop (cfg : config) (env : run_env)
    (results : list (Z * option (list byte))) (mm : list byte) (st : state)
    : state * option exn :=
  match results with
  | [] => (st, None)
  | (i, result) :: rest =>
      if interrupted env (Z.to_nat i) then
        (emit st SetShutdownFlag, Some KeyboardInterrupt)
      else
        match result with
        | None => (st, Some RuntimeError_chunk_generation_failed)
        | Some data =>
            let start_pos := i * CHUNK_SIZE cfg * ENTRY_LENGTH cfg in
            match mmap_setslice mm start_pos (start_pos + Py.len data) data with
            | None => (st, Some IndexError_mmap_slice)
            | Some mm' =>
                coordinator_loop cfg env rest mm'
                  (emit (set_fs st (set_temp (fs st) (Some mm')))
                        (MmapWrite i start_pos data))
            end
        end
  end.

(** The results the pool hands to the coordinator. *)
Definition chunk_results (env : run_env) (chunks : list (Z * Z))
    : list (option (list byte)) :=
  pool_imap (fun i c => generate_chunk (worker env i) (fst c) (snd c))
            chunks (finished env).

(** The [try] block of [generate_full_8digit_combinations]; [None] means
    that it reached [return True]. *)
Definition try_block (cfg : config) (env : run_env) (st : state)
    : state * option exn :=
  let file_size := TOTAL_ENTRIES cfg * ENTRY_LENGTH cfg in
  match check_disk_space st file_size with
  | (st1, Some e) => (st1, Some e)
  | (st1, None) =>
      (* temp_path = output_path.with_suffix(TEMP_SUFFIX) *)
      let st2 := State (fs st1) (trace st1) (pool st1) (manager st1) true in
      (* with open(temp_path, 'wb') as f: f.truncate(file_size) *)
      let st3 := emit (set_fs st2 (set_temp (fs st2) (Some []))) (CreateTemp file_size) in
      if file_size <? 0 then (st3, Some OSError_truncate)
      else
        let mm := repeat x00 (Z.to_nat file_size) in
        let st4 := set_fs st3 (set_temp (fs st3) (Some mm)) in
        let st5 := emit (State (fs st4) (trace st4) (pool st4) true (temp_path st4))
                        ManagerStart in
        let st6 := emit (State (fs st5) (trace st5) true (manager st5) (temp_path st5))
                        PoolStart in
        (* mmap.mmap(f.fileno(), 0, access=mmap.ACCESS_WRITE) *)
        if file_size =? 0 then (st6, Some ValueError_mmap_empty)
        else
          match make_chunks cfg with
          | None => (st6, Some ValueError_range_step)
          | Some chunks =>
              match coordinator_loop cfg env
                      (Py.enumerate (chunk_results env chunks)) mm st6 with
              | (st7, Some e) => (st7, Some e)
              | (st7, None) =>
                  (* temp_path.replace(output_path) *)
                  (emit (set_fs st7 (FS (directory (fs st7)) (free_bytes (fs st7))
                                        None (temp_file (fs st7))))
                        Rename,
                   None)
              end
          end
  end.

(** [cleanup_resources(controller, temp_path)]. *)
Definition cleanup_resources (st : state) : state :=
  let st1 := if pool st then emit st PoolTerminate else st in
  let st2 := if manager st1 then emit st1 ManagerShutdown else st1 in
  match temp_file (fs st2) with
  | Some _ => emit (set_fs st2 (set_temp (fs st2) None)) Unlink
  | None => st2
  end.

(** [generate_full_8digit_combinations(output_dir)]: the [try] block, the
    two [except] clauses and the [finally] clause.  The [finally] clause
    reads the local [temp_path]; when the [try] block left before binding
    it, that read raises and replaces the pending [return False]. *)
Definition generate_full_8digit_combinations (cfg : config) (env : run_env)
    (disk : filesystem) : state * outcome :=
  let st0 := State disk [] false false false in
  let '(st1, r) := try_block cfg env st0 in
  let '(st2, out) :=
    match r with
    | None => (st1, Returned true)
    | Some KeyboardInterrupt => (emit st1 LogInterrupted, Returned false)
    | Some e => (emit st1 (LogFatal e), Returned false)
    end in
  if temp_path st2 then (emit (cleanup_resources st2) ListenerStop, out)
  else (st2, Propagated UnboundLocalError_temp_path).

(** The [__main__] block: the exit status of the process. *)
Definition main (cfg : config) (env : run_env) (disk : filesystem) : Z :=
  match snd (generate_full_8digit_combinations cfg env disk) with
  | Returned true => 0
  | Returned false => 1
  | Propagated _ => 1
  end.

(* ================================================================== *)
(** ** Records read back, and the file the output format asks for *)
(* ================================================================== *)

(** Reading a file of fixed-width records back. *)
Fixpoint parse_decimal (acc : Z) (s : string) : Z :=
  match s with
  | EmptyString => acc
  | String c s' => parse_decimal (acc * 10 + (Z.of_nat (nat_of_ascii c) - 48)) s'
  end.

Definition record_at (width : nat) (content : list byte) (j : nat) : list byte :=
  firstn width (skipn (j * width) content).

Definition decode_record (r : list byte) : Z :=
  parse_decimal 0 (Py.decode_ascii (firstn (List.length r - 1) r)).

Definition decode_records (width : nat) (content : list byte) : list Z :=
  map (fun j => decode_record (record_at width content j))
      (seq 0 (List.length content / width)).

(** The record the output format asks for: the decimal text of [v], padded
    with leading zeros to [width] characters, then a newline. *)
Definition padded_record (width : nat) (v : Z) : string :=
  Np.zfill (Np.str_uint32 v) width ++ String "010" "".

(** The file the output format asks for: for [v = 0, 1, ..., N-1] in
    ascending order, the record of [v] with [W - 1] digits. *)
Definition expected_output (cfg : config) : list byte :=
  List.concat
    (map (fun k => Py.encode_ascii
                     (padded_record (Z.to_nat (ENTRY_LENGTH cfg - 1)) (Z.of_nat k)))
         (seq 0 (Z.to_nat (TOTAL_ENTRIES cfg)))).

(* ================================================================== *)
(** ** Sample surroundings and configurations *)
(* ================================================================== *)

(** Surroundings in which nothing goes wrong: no interrupt, quiet workers,
    chunks finished in the order given. *)
Definition calm (order : list nat) : run_env :=
  {| interrupted := fun _ => false; worker := fun _ => quiet; finished := order |}.

Definition roomy : filesystem :=
  {| directory := true; free_bytes := 1000000; temp_file := None; output_file := None |}.

Definition small : config :=
  {| TOTAL_ENTRIES := 20; ENTRY_LENGTH := 9; CHUNK_SIZE := 5 |}.

(** A count that the chunk size does not divide. *)
Definition ragged : config :=
  {| TOTAL_ENTRIES := 22; ENTRY_LENGTH := 9; CHUNK_SIZE := 5 |}.

(** A disk short of space on which an earlier run left its temporary
    file. *)
Definition littered : filesystem :=
  {| directory := true; free_bytes := 100;
     temp_file := Some [x00; x00; x00]; output_file := None |}.

(* ================================================================== *)
(** ** Notions used in the statements *)
(* ================================================================== *)

(** All records of a list of numbers, as the worker formats them. *)
Definition encode_records (l : list Z) : list byte :=
  List.concat (map (fun v => Py.encode_ascii (format_record v)) l).

(** [ceil(n / c)], the number of items of [range(0, n, c)]. *)
Definition ceil_div (n c : Z) : Z := (n + c - 1) / c.

(** The batch that starts at item [i]: [numbers[i:i+batch_size]]. *)
Definition batch_of (numbers : list Z) (bs : Z) (i : Z) : list Z :=
  Py.slice numbers i (i + bs).

Definition is_batch (e : worker_event) : bool :=
  match e with Batch _ => true | _ => false end.

Definition count_batches (tr : list worker_event) : nat :=
  List.length (filter is_batch tr).

(** The shape of the steps of the batch loop when it is entered at step
    [t]: [completed] tells whether the loop ran to its end. *)
Inductive loop_steps (env : worker_env) (bound : nat)
    : nat -> list worker_event -> bool -> Prop :=
| steps_done t :
    loop_steps env bound t [] true
| steps_stop t :
    flag env t = true ->
    loop_steps env bound t [ReadFlag true] false
| steps_raise t :
    flag env t = false ->
    loop_steps env bound t [ReadFlag false; Raised] false
| steps_batch t n tr completed :
    flag env t = false -> (n <= bound)%nat ->
    loop_steps env bound (S (S t)) tr completed ->
    loop_steps env bound t (ReadFlag false :: Batch n :: tr) completed.

Definition is_some {A : Type} (o : option A) : bool :=
  match o with Some _ => true | None => false end.

(** The chunk with sequence index [i], as the partitioning rule states it. *)
Definition chunk_at (cfg : config) (i : nat) : Z * Z :=
  (Z.of_nat i * CHUNK_SIZE cfg,
   Z.min ((Z.of_nat i + 1) * CHUNK_SIZE cfg) (TOTAL_ENTRIES cfg)).

Definition chunk_count (cfg : config) : nat :=
  Z.to_nat (ceil_div (TOTAL_ENTRIES cfg) (CHUNK_SIZE cfg)).

(** [f] applied to every task together with its index. *)
Definition mapi {A B : Type} (f : nat -> A -> B) (tasks : list A) : list B :=
  map (fun p => f (fst p) (snd p)) (combine (seq 0 (List.length tasks)) tasks).

(** What holds of the iterator once the results with indices [seen] have
    arrived; [strict] tells whether the next index is known to be
    missing from [unsorted]. *)
Definition imap_inv {B : Type} (results : list B) (strict : bool)
    (it : imap_iterator B) (seen : list nat) : Prop :=
  items it = firstn (index it) results
  /\ (forall j, (j < index it)%nat -> In j seen)
  /\ (forall j b, dict_get (unsorted it) j = Some b ->
        nth_error results j = Some b /\ In j seen
        /\ (if strict then (index it < j)%nat else (index it <= j)%nat))
  /\ (forall j, In j seen ->
        (j < index it)%nat \/ exists b, dict_get (unsorted it) j = Some b).

(** [enumerate] continued from index [k]. *)
Definition enumerate_from {A : Type} (k : nat) (l : list A) : list (Z * A) :=
  combine (map Z.of_nat (seq k (List.length l))) l.

(** A slice assignment: chunk index, start position, bytes. *)
Definition write : Type := (Z * Z * list byte)%type.

Definition write_of (cfg : config) (j : nat) (data : list byte) : write :=
  (Z.of_nat j, Z.of_nat j * CHUNK_SIZE cfg * ENTRY_LENGTH cfg, data).

Definition writes_from (cfg : config) (k : nat) (datas : list (list byte))
    : list write :=
  map (fun p => write_of cfg (fst p) (snd p))
      (combine (seq k (List.length datas)) datas).

Definition write_event (w : write) : event :=
  match w with (i, pos, data) => MmapWrite i pos data end.

(** The slice assignments recorded in a trace, oldest first. *)
Fixpoint mmap_writes (tr : list event) : list write :=
  match tr with
  | [] => []
  | MmapWrite i pos data :: tr' => (i, pos, data) :: mmap_writes tr'
  | _ :: tr' => mmap_writes tr'
  end.

(** The mapping after a series of slice assignments. *)
Fixpoint apply_writes (mm : list byte) (ws : list write) : option (list byte) :=
  match ws with
  | [] => Some mm
  | (_, pos, data) :: ws' =>
      match mmap_setslice mm pos (pos + Py.len data) data with
      | Some mm' => apply_writes mm' ws'
      | None => None
      end
  end.

(** How the loop can end, given the results it was handed and the number
    [done] of results it wrote. *)
Definition loop_exit (cfg : config) (env : run_env) (k : nat)
    (rs : list (option (list byte))) (done : nat) (mm' : list byte)
    (r : option exn) : Prop :=
  match r with
  | None => done = List.length rs
  | Some KeyboardInterrupt =>
      (done < List.length rs)%nat /\ interrupted env (k + done) = true
  | Some RuntimeError_chunk_generation_failed =>
      nth_error rs done = Some None /\ interrupted env (k + done) = false
  | Some IndexError_mmap_slice =>
      exists data,
        nth_error rs done = Some (Some data)
        /\ interrupted env (k + done) = false
        /\ apply_writes mm' [write_of cfg (k + done) data] = None
  | Some _ => False
  end.

Definition tail_events (r : option exn) : list event :=
  match r with
  | Some KeyboardInterrupt => [SetShutdownFlag]
  | _ => []
  end.

(** The bytes the worker returns for chunk [j] when it returns any. *)
Definition chunk_data (cfg : config) (j : nat) : list byte :=
  encode_records (Np.arange_uint32 (fst (chunk_at cfg j)) (snd (chunk_at cfg j))).

(** The number of records in front of chunk [k]. *)
Definition fill (cfg : config) (k : nat) : Z :=
  Z.min (Z.of_nat k * CHUNK_SIZE cfg) (TOTAL_ENTRIES cfg).

(** The mapping once the chunks in front of chunk [k] are written: their
    records, then the zero bytes of the preallocation. *)
Definition filled (cfg : config) (k : nat) : list byte :=
  encode_records (Np.arange_uint32 0 (fill cfg k))
  ++ repeat x00 (Z.to_nat (9 * (TOTAL_ENTRIES cfg - fill cfg k))).

Definition file_size (cfg : config) : Z := TOTAL_ENTRIES cfg * ENTRY_LENGTH cfg.

(** The effect of [ensure_directory_exists]. *)
Definition with_directory (disk : filesystem) : filesystem :=
  FS true (free_bytes disk) (temp_file disk) (output_file disk).

Definition mkdir_events (disk : filesystem) : list event :=
  if directory disk then [] else [Mkdir].

(** What the [except] clauses log. *)
Definition log_of (e : exn) : event :=
  if is_KeyboardInterrupt e then LogInterrupted else LogFatal e.

Definition setup_events (cfg : config) : list event :=
  [CreateTemp (file_size cfg); ManagerStart; PoolStart].

Definition teardown_events : list event :=
  [PoolTerminate; ManagerShutdown; Unlink; ListenerStop].

(** Every run has one of these shapes; each gives the final state and the
    outcome in full. *)
Inductive run_shape (cfg : config) (env : run_env) (disk : filesystem)
    : state -> outcome -> Prop :=
| shape_no_space :
    free_bytes disk < file_size cfg ->
    run_shape cfg env disk
      (State (with_directory disk)
             (mkdir_events disk
              ++ [LogFatal (IOError_insufficient_space (file_size cfg)
                              (free_bytes disk))])
             false false false)
      (Propagated UnboundLocalError_temp_path)
| shape_truncate :
    file_size cfg <= free_bytes disk -> file_size cfg < 0 ->
    run_shape cfg env disk
      (State (set_temp (with_directory disk) None)
             (mkdir_events disk
              ++ [CreateTemp (file_size cfg); LogFatal OSError_truncate;
                  Unlink; ListenerStop])
             false false true)
      (Returned false)
| shape_setup_failed (e : exn) :
    file_size cfg <= free_bytes disk ->
    (file_size cfg = 0 /\ e = ValueError_mmap_empty
     \/ 0 < file_size cfg /\ make_chunks cfg = None /\ e = ValueError_range_step) ->
    run_shape cfg env disk
      (State (set_temp (with_directory disk) None)
             (mkdir_events disk ++ setup_events cfg
              ++ [LogFatal e] ++ teardown_events)
             true true true)
      (Returned false)
| shape_loop_failed (chunks : list (Z * Z)) (datas : list (list byte))
    (mm' : list byte) (e : exn) :
    0 < file_size cfg <= free_bytes disk ->
    make_chunks cfg = Some chunks ->
    map Some datas = firstn (List.length datas) (chunk_results env chunks) ->
    apply_writes (repeat x00 (Z.to_nat (file_size cfg))) (writes_from cfg 0 datas)
      = Some mm' ->
    loop_exit cfg env 0 (chunk_results env chunks) (List.length datas) mm' (Some e) ->
    run_shape cfg env disk
      (State (set_temp (with_directory disk) None)
             (mkdir_events disk ++ setup_events cfg
              ++ map write_event (writes_from cfg 0 datas)
              ++ tail_events (Some e) ++ [log_of e] ++ teardown_events)
             true true true)
      (Returned false)
| shape_success (chunks : list (Z * Z)) (datas : list (list byte))
    (mm' : list byte) :
    0 < file_size cfg <= free_bytes disk ->
    make_chunks cfg = Some chunks ->
    map Some datas = chunk_results env chunks ->
    apply_writes (repeat x00 (Z.to_nat (file_size cfg))) (writes_from cfg 0 datas)
      = Some mm' ->
    run_shape cfg env disk
      (State (FS true (free_bytes disk) None (Some mm'))
             (mkdir_events disk ++ setup_events cfg
              ++ map write_event (writes_from cfg 0 datas)
              ++ [Rename; PoolTerminate; ManagerShutdown; ListenerStop])
             true true true)
      (Returned true).

Definition is_create_temp (e : event) : bool :=
  match e with CreateTemp _ => true | _ => false end.

Definition is_rename (e : event) : bool :=
  match e with Rename => true | _ => false end.

Definition is_unlink (e : event) : bool :=
  match e with Unlink => true | _ => false end.

Definition count_events (p : event -> bool) (tr : list event) : nat :=
  List.length (filter p tr).

(** A run that is short of disk space: the preflight fails. *)
Definition cramped : filesystem :=
  {| directory := true; free_bytes := 100; temp_file := None; output_file := None |}.

(** The user interrupts before the first result is consumed. *)
Definition interrupted_at_once : run_env :=
  {| interrupted := fun _ => true; worker := fun _ => quiet;
     finished := [0;1;2;3]%nat |}.

(** The worker of chunk [j] faults in its first batch. *)
Definition faulty_chunk (j : nat) : run_env :=
  {| interrupted := fun _ => false;
     worker := fun i => {| flag := fun _ => false;
                           raises := fun _ => Nat.eqb i j |};
     finished := [0;1;2;3]%nat |}.

(** The events that say something about a failure. *)
Definition is_report (e : event) : bool :=
  match e with LogInterrupted | LogFatal _ => true | _ => false end.

(** What the worker of chunk [j] returns. *)
Definition chunk_result (cfg : config) (env : run_env) (j : nat)
    : option (list byte) :=
  generate_chunk (worker env j) (fst (chunk_at cfg j)) (snd (chunk_at cfg j)).

(** The chunk sequence of a configuration with [N, C > 0]. *)
Definition all_chunks (cfg : config) : list (Z * Z) :=
  map (chunk_at cfg) (seq 0 (chunk_count cfg)).

Definition is_index_error (e : event) : bool :=
  match e with LogFatal IndexError_mmap_slice => true | _ => false end.

(** Workers that finish their chunks in the reverse order. *)
Definition reversed : run_env := calm [3;2;1;0]%nat.

(** A record width below the nine bytes the generator formats. *)
Definition narrow : config :=
  {| TOTAL_ENTRIES := 20; ENTRY_LENGTH := 5; CHUNK_SIZE := 5 |}.

(** A record width above the nine bytes the generator formats. *)
Definition wide : config :=
  {| TOTAL_ENTRIES := 20; ENTRY_LENGTH := 10; CHUNK_SIZE := 5 |}.

(** One record more than eight digits can count. *)
Definition overfull : config :=
  {| TOTAL_ENTRIES := 100000001; ENTRY_LENGTH := 9; CHUNK_SIZE := 10000000 |}.

Definition vast : filesystem :=
  {| directory := true; free_bytes := 10000000000;
     temp_file := None; output_file := None |}.

(* ================================================================== *)
(** ** The progress line *)
(* ================================================================== *)

(** [max(1, len(chunks) // 10)]: the distance between two progress
    lines. *)
Definition progress_divisor (nchunks : Z) : Z := Z.max 1 (nchunks / 10).

(** The condition in front of the progress line of the coordinator loop,
    [i % (max(1, len(chunks) // 10)) == 0 or i == len(chunks) - 1], for
    the result with index [i] out of [nchunks] chunks. *)
Definition reports_progress (nchunks i : Z) : bool :=
  (i mod progress_divisor nchunks =? 0) || (i =? nchunks - 1).

(** The indices below [nchunks] for which the line is written. *)
Definition progress_lines (nchunks : Z) : list Z :=
  filter (reports_progress nchunks)
         (map Z.of_nat (seq 0 (Z.to_nat nchunks))).

(* ================================================================== *)
(** ** Further notions used in the statements *)
(* ================================================================== *)

(** The sizes of the batches a worker formatted, in order. *)
Definition batch_sizes (tr : list worker_event) : list nat :=
  flat_map (fun e => match e with Batch n => [n] | _ => [] end) tr.

(** The steps of a batch loop that ran to its end: for every start a
    read that sees the flag down, then the batch. *)
Definition full_steps (numbers : list Z) (bs : Z) (starts : list Z)
    : list worker_event :=
  flat_map (fun i => [ReadFlag false;
                      Batch (List.length (batch_of numbers bs i))]) starts.

Definition is_read (e : worker_event) : bool :=
  match e with ReadFlag _ => true | _ => false end.

Definition count_reads (tr : list worker_event) : nat :=
  List.length (filter is_read tr).

Definition is_set_flag (e : event) : bool :=
  match e with SetShutdownFlag => true | _ => false end.

Definition is_log_interrupted (e : event) : bool :=
  match e with LogInterrupted => true | _ => false end.

Definition is_mkdir (e : event) : bool :=
  match e with Mkdir => true | _ => false end.

(** What a run holds at some moment: its temporary file, the manager
    process, the worker pool and the log listener. *)
Record resources : Type := Resources {
  temp_there  : bool;
  manager_up  : bool;
  pool_up     : bool;
  listener_up : bool
}.

(** The discipline of the resources, event by event: the manager is
    started once the temporary file is there and the pool once the
    manager is up; the shared flag lives in the manager; a slice
    assignment needs the temporary file and the pool; the pool is
    terminated before the manager is shut down, the file is unlinked
    only when both are down, and the listener is stopped last.  [None]
    says that an event came out of turn. *)
Definition lifecycle_step (r : resources) (e : event) : option resources :=
  match e with
  | Mkdir | LogInterrupted | LogFatal _ => Some r
  | CreateTemp _ =>
      if temp_there r || manager_up r || pool_up r then None
      else Some (Resources true false false (listener_up r))
  | ManagerStart =>
      if temp_there r && negb (manager_up r) && negb (pool_up r)
      then Some (Resources true true false (listener_up r)) else None
  | PoolStart =>
      if temp_there r && manager_up r && negb (pool_up r)
      then Some (Resources true true true (listener_up r)) else None
  | SetShutdownFlag => if manager_up r then Some r else None
  | MmapWrite _ _ _ =>
      if temp_there r && pool_up r then Some r else None
  | Rename =>
      if temp_there r
      then Some (Resources false (manager_up r) (pool_up r) (listener_up r))
      else None
  | PoolTerminate =>
      if pool_up r
      then Some (Resources (temp_there r) (manager_up r) false (listener_up r))
      else None
  | ManagerShutdown =>
      if manager_up r && negb (pool_up r)
      then Some (Resources (temp_there r) false false (listener_up r))
      else None
  | Unlink =>
      if temp_there r && negb (manager_up r) && negb (pool_up r)
      then Some (Resources false false false (listener_up r)) else None
  | ListenerStop =>
      if listener_up r && negb (temp_there r) && negb (manager_up r)
         && negb (pool_up r)
      then Some (Resources false false false false) else None
  end.

Fixpoint lifecycle (r : resources) (tr : list event) : option resources :=
  match tr with
  | [] => Some r
  | e :: tr' =>
      match lifecycle_step r e with
      | Some r' => lifecycle r' tr'
      | None => None
      end
  end.

(** At the start of a run only the log listener is up. *)
Definition at_start : resources := Resources false false false true.

(** A negative chunk size. *)
Definition backwards : config :=
  {| TOTAL_ENTRIES := 20; ENTRY_LENGTH := 9; CHUNK_SIZE := -5 |}.

(** A chunk size of zero. *)
Definition stuck : config :=
  {| TOTAL_ENTRIES := 20; ENTRY_LENGTH := 9; CHUNK_SIZE := 0 |}.

(** The user interrupts while the result of chunk [j] is awaited. *)
Definition interrupted_at (j : nat) : run_env :=
  {| interrupted := fun i => Nat.eqb i j; worker := fun _ => quiet;
     finished := [0;1;2;3]%nat |}.

(** A disk without the output directory. *)
Definition bare : filesystem :=
  {| directory := false; free_bytes := 100; temp_file := None;
     output_file := None |}.

(* ================================================================== *)
(** * Part II: properties *)
(* ================================================================== *)

(* ================================================================== *)
(** ** The model at work *)
(* ================================================================== *)

Example generate_chunk_42 :
  generate_chunk quiet 42 43 = Some (Py.encode_ascii ("00000042" ++ String "010" "")).
Proof. reflexivity. Qed.

Example generate_chunk_3 :
  generate_chunk quiet 9 12 = Some (Py.encode_ascii ("00000009" ++ String "010" "00000010"
                          ++ String "010" "00000011" ++ String "010" "")).
Proof. reflexivity. Qed.

Example generate_chunk_empty : generate_chunk quiet 5 5 = None.
Proof. reflexivity. Qed.

Example generate_chunk_truncates :
  generate_chunk quiet 123456789 123456790
  = Some (Py.encode_ascii ("12345678" ++ String "010" "")).
Proof. reflexivity. Qed.

Example small_run_in_order :
  let '(st, out) := generate_full_8digit_combinations small (calm [0;1;2;3]%nat) roomy in
  out = Returned true
  /\ output_file (fs st) = Some (expected_output small)
  /\ temp_file (fs st) = None
  /\ decode_records 9 (expected_output small) = map Z.of_nat (seq 0 20).
Proof. vm_compute. repeat split; reflexivity. Qed.

Example small_run_out_of_order :
  let '(st, out) := generate_full_8digit_combinations small (calm [2;0;3;1]%nat) roomy in
  out = Returned true /\ output_file (fs st) = Some (expected_output small).
Proof. vm_compute. repeat split; reflexivity. Qed.

(* ================================================================== *)
(** ** Strings, bytes and lists *)
(* ================================================================== *)

Section StringFacts.

Lemma length_append (s1 s2 : string) :
  String.length (s1 ++ s2) = (String.length s1 + String.length s2)%nat.
Proof. induction s1 as [|c s1 IH]; simpl; [reflexivity | now rewrite IH]. Qed.

Lemma encode_length (s : string) :
  List.length (Py.encode_ascii s) = String.length s.
Proof.
  unfold Py.encode_ascii, list_byte_of_string.
  rewrite length_map. induction s as [|c s IH]; simpl; congruence.
Qed.

Lemma encode_app (s1 s2 : string) :
  Py.encode_ascii (s1 ++ s2) = Py.encode_ascii s1 ++ Py.encode_ascii s2.
Proof.
  unfold Py.encode_ascii, list_byte_of_string.
  induction s1 as [|c s1 IH]; simpl; [reflexivity | now rewrite IH].
Qed.

Lemma append_empty_r (s : string) : (s ++ "")%string = s.
Proof. induction s as [|c s IH]; simpl; [reflexivity | now rewrite IH]. Qed.

Lemma join_cons (s : string) (parts : list string) :
  Py.join (s :: parts) = (s ++ Py.join parts)%string.
Proof.
  unfold Py.join. destruct parts as [|p parts]; simpl.
  - now rewrite append_empty_r.
  - reflexivity.
Qed.

Lemma encode_join (parts : list string) :
  Py.encode_ascii (Py.join parts) = List.concat (map Py.encode_ascii parts).
Proof.
  induction parts as [|s parts IH].
  - reflexivity.
  - rewrite join_cons, encode_app, IH. reflexivity.
Qed.

Lemma decode_encode (s : string) : Py.decode_ascii (Py.encode_ascii s) = s.
Proof. apply string_of_list_byte_of_string. Qed.

Lemma length_zeros (n : nat) : String.length (Np.zeros n) = n.
Proof. induction n; simpl; congruence. Qed.

Lemma length_substring_le (n : nat) (s : string) :
  (String.length (substring 0 n s) <= n)%nat.
Proof.
  revert s. induction n as [|n IH]; intros [|c s]; simpl; try lia.
  specialize (IH s). lia.
Qed.

Lemma substring_all (n : nat) (s : string) :
  (String.length s <= n)%nat -> substring 0 n s = s.
Proof.
  revert s. induction n as [|n IH]; intros [|c s]; simpl; intros H;
    try reflexivity; try lia.
  rewrite IH by lia. reflexivity.
Qed.

Lemma length_zfill (s : string) (w : nat) :
  (String.length s <= w)%nat -> String.length (Np.zfill s w) = w.
Proof. intros H. unfold Np.zfill. rewrite length_append, length_zeros. lia. Qed.

Lemma length_format_record (v : Z) : String.length (format_record v) = 9%nat.
Proof.
  unfold format_record, Np.astype_U8.
  rewrite length_append, length_zfill by apply length_substring_le.
  reflexivity.
Qed.

End StringFacts.

Section ListFacts.

Context {A : Type}.

Lemma firstn_plus (a b : nat) (l : list A) :
  firstn (a + b) l = firstn a l ++ firstn b (skipn a l).
Proof.
  revert l. induction a as [|a IH]; intros l; simpl.
  - reflexivity.
  - destruct l as [|x l]; simpl.
    + now rewrite firstn_nil.
    + now rewrite IH.
Qed.

(** Cutting a list into consecutive slices of [bs] items and gluing the
    first [cnt] of them gives back the first [cnt * bs] items. *)
Lemma concat_slices (l : list A) (bs cnt : nat) :
  List.concat (map (fun k => firstn bs (skipn (k * bs) l)) (seq 0 cnt))
  = firstn (cnt * bs) l.
Proof.
  induction cnt as [|cnt IH].
  - reflexivity.
  - rewrite seq_S, map_app, concat_app, IH. simpl.
    rewrite app_nil_r.
    replace (bs + cnt * bs)%nat with (cnt * bs + bs)%nat by lia.
    now rewrite firstn_plus.
Qed.

(** The [j]-th block of a concatenation of blocks of one size. *)
Lemma record_at_concat {B : Type} (f : B -> list A) (w : nat) (l : list B)
    (j : nat) (d : B) :
  (forall x, List.length (f x) = w) ->
  (j < List.length l)%nat ->
  firstn w (skipn (j * w) (List.concat (map f l))) = f (nth j l d).
Proof.
  intros Hw. revert j. induction l as [|x l IH]; intros j Hj; simpl in Hj.
  - lia.
  - destruct j as [|j]; simpl.
    + rewrite firstn_app, Hw, Nat.sub_diag, firstn_O, app_nil_r.
      apply firstn_all2. rewrite Hw. lia.
    + rewrite skipn_app, Hw.
      replace (w + j * w - w)%nat with (j * w)%nat by lia.
      rewrite skipn_all2 by (rewrite Hw; lia).
      simpl. apply IH. lia.
Qed.

Lemma length_concat_blocks {B : Type} (f : B -> list A) (w : nat) (l : list B) :
  (forall x, List.length (f x) = w) ->
  List.length (List.concat (map f l)) = (List.length l * w)%nat.
Proof.
  intros Hw. induction l as [|x l IH]; simpl.
  - reflexivity.
  - rewrite length_app, Hw, IH. reflexivity.
Qed.

End ListFacts.

Section EncodeRecords.

Lemma encode_records_app (l1 l2 : list Z) :
  encode_records (l1 ++ l2) = encode_records l1 ++ encode_records l2.
Proof. unfold encode_records. now rewrite map_app, concat_app. Qed.

Lemma encode_records_concat (ls : list (list Z)) :
  encode_records (List.concat ls) = List.concat (map encode_records ls).
Proof.
  induction ls as [|l ls IH]; simpl.
  - reflexivity.
  - now rewrite encode_records_app, IH.
Qed.

Lemma encode_join_records (batch : list Z) :
  Py.encode_ascii (Py.join (map format_record batch)) = encode_records batch.
Proof. rewrite encode_join, map_map. reflexivity. Qed.

Lemma length_encode_records (l : list Z) :
  List.length (encode_records l) = (List.length l * 9)%nat.
Proof.
  unfold encode_records. apply length_concat_blocks.
  intros v. now rewrite encode_length, length_format_record.
Qed.

Lemma record_at_encode_records (l : list Z) (j : nat) :
  (j < List.length l)%nat ->
  record_at 9 (encode_records l) j = Py.encode_ascii (format_record (nth j l 0)).
Proof.
  intros Hj. unfold record_at, encode_records.
  apply (record_at_concat (fun v => Py.encode_ascii (format_record v))); auto.
  intros v. now rewrite encode_length, length_format_record.
Qed.

End EncodeRecords.

(* ================================================================== *)
(** ** Decimal text *)
(* ================================================================== *)

Section Decimal.

Lemma digit_value (d : Z) :
  0 <= d < 10 -> Z.of_nat (nat_of_ascii (Np.digit_char d)) - 48 = d.
Proof.
  intros Hd. unfold Np.digit_char.
  rewrite nat_ascii_embedding by lia. lia.
Qed.

(** With enough fuel the digits of [n] take at most [k] characters when
    [n < 10 ^ k]. *)
Lemma digits_length (fuel : nat) : forall (k : nat) (n : Z) (acc : string),
  (1 <= k)%nat -> 0 <= n < 10 ^ Z.of_nat k ->
  (String.length (Np.digits fuel n acc) <= k + String.length acc)%nat.
Proof.
  induction fuel as [|fuel IH]; intros k n acc Hk Hn; simpl.
  - lia.
  - destruct (n / 10 =? 0) eqn:Hq.
    + simpl. lia.
    + apply Z.eqb_neq in Hq.
      destruct k as [|[|k]]; try lia.
      * exfalso. apply Hq. apply Z.div_small. simpl in Hn. lia.
      * assert (Hn' : 0 <= n / 10 < 10 ^ Z.of_nat (S k)).
        { split; [apply Z.div_pos; lia|].
          apply Z.div_lt_upper_bound; [lia|].
          replace (Z.of_nat (S (S k))) with (Z.succ (Z.of_nat (S k))) in Hn by lia.
          rewrite Z.pow_succ_r in Hn by lia. lia. }
        specialize (IH (S k) (n / 10)
                       (String (Np.digit_char (n mod 10)) acc)
                       ltac:(lia) Hn').
        simpl in IH. lia.
Qed.

(** Reading the digits back gives the number. *)
Lemma parse_digits (fuel : nat) : forall (n : Z) (acc : string),
  0 <= n < 10 ^ Z.of_nat fuel ->
  parse_decimal 0 (Np.digits fuel n acc) = parse_decimal n acc.
Proof.
  induction fuel as [|fuel IH]; intros n acc Hn.
  - simpl in Hn. assert (n = 0) by lia. subst. reflexivity.
  - simpl. pose proof (Z.div_mod n 10 ltac:(lia)) as Hdm.
    pose proof (Z.mod_pos_bound n 10 ltac:(lia)) as Hm.
    destruct (n / 10 =? 0) eqn:Hq.
    + apply Z.eqb_eq in Hq. cbn [parse_decimal].
      rewrite digit_value by lia.
      f_equal. lia.
    + assert (Hn' : 0 <= n / 10 < 10 ^ Z.of_nat fuel).
      { split; [apply Z.div_pos; lia|].
        apply Z.div_lt_upper_bound; [lia|].
        replace (Z.of_nat (S fuel)) with (Z.succ (Z.of_nat fuel)) in Hn by lia.
        rewrite Z.pow_succ_r in Hn by lia. lia. }
      rewrite IH by exact Hn'. cbn [parse_decimal].
      rewrite digit_value by lia.
      f_equal. lia.
Qed.

Lemma parse_zeros (k : nat) (s : string) :
  parse_decimal 0 (Np.zeros k ++ s) = parse_decimal 0 s.
Proof. induction k as [|k IH]; simpl; [reflexivity | exact IH]. Qed.

Lemma length_str_uint32 (v : Z) :
  0 <= v < 100000000 -> (String.length (Np.str_uint32 v) <= 8)%nat.
Proof.
  intros Hv. unfold Np.str_uint32.
  pose proof (digits_length 10 8 v "" ltac:(lia)) as H.
  simpl in H. apply H. lia.
Qed.

(** Below [10 ^ 8] the cut of [astype('U8')] removes nothing, and the
    worker's record is the padded record of the output format. *)
Lemma format_record_exact (v : Z) :
  0 <= v < 100000000 -> format_record v = padded_record 8 v.
Proof.
  intros Hv. unfold format_record, padded_record, Np.astype_U8.
  rewrite substring_all by (apply length_str_uint32; exact Hv).
  reflexivity.
Qed.

Lemma parse_padded (v : Z) (w : nat) :
  0 <= v < 2 ^ 32 ->
  parse_decimal 0 (Np.zfill (Np.str_uint32 v) w) = v.
Proof.
  intros Hv. unfold Np.zfill, Np.str_uint32.
  rewrite parse_zeros, parse_digits.
  - reflexivity.
  - change (10 ^ Z.of_nat 10) with 10000000000.
    change (2 ^ 32) with 4294967296 in Hv. lia.
Qed.

Lemma decode_padded_record (v : Z) :
  0 <= v < 100000000 ->
  decode_record (Py.encode_ascii (padded_record 8 v)) = v.
Proof.
  intros Hv. unfold decode_record, padded_record.
  rewrite encode_app, length_app, !encode_length.
  rewrite length_zfill by (apply length_str_uint32; exact Hv).
  simpl String.length.
  replace (8 + 1 - 1)%nat with
    (List.length (Py.encode_ascii (Np.zfill (Np.str_uint32 v) 8)) + 0)%nat
    by (rewrite encode_length, length_zfill
          by (apply length_str_uint32; exact Hv); reflexivity).
  rewrite firstn_app_2, firstn_O, app_nil_r, decode_encode.
  apply parse_padded. change (2 ^ 32) with 4294967296. lia.
Qed.

End Decimal.

(* ================================================================== *)
(** ** [range] with a positive step *)
(* ================================================================== *)

Section Range.

Variables n c : Z.
Hypothesis Hn : 0 < n.
Hypothesis Hc : 0 < c.

Lemma range_len_ceil : Py.range_len 0 n c = ceil_div n c.
Proof.
  unfold Py.range_len, ceil_div.
  destruct (0 <? c) eqn:E1; [|apply Z.ltb_ge in E1; lia].
  destruct (0 <? n) eqn:E2; [|apply Z.ltb_ge in E2; lia].
  replace (n + c - 1) with ((n - 0 - 1) + 1 * c) by lia.
  rewrite Z.div_add by lia. reflexivity.
Qed.

Lemma ceil_div_bounds :
  0 < ceil_div n c /\ (ceil_div n c - 1) * c < n <= ceil_div n c * c.
Proof.
  unfold ceil_div.
  pose proof (Z.div_mod (n + c - 1) c ltac:(lia)) as Hdm.
  pose proof (Z.mod_pos_bound (n + c - 1) c Hc) as Hm.
  assert (0 < (n + c - 1) / c) by (apply Z.div_str_pos; lia).
  nia.
Qed.

Lemma range_items :
  Py.range 0 n c
  = Some (map (fun k => Z.of_nat k * c) (seq 0 (Z.to_nat (ceil_div n c)))).
Proof.
  unfold Py.range.
  destruct (c =? 0) eqn:E; [apply Z.eqb_eq in E; lia|].
  rewrite range_len_ceil. reflexivity.
Qed.

End Range.

(* ================================================================== *)
(** ** The chunk generator: results *)
(* ================================================================== *)

Section BatchLoop.

Variable env : worker_env.
Variable numbers : list Z.
Variable bs : Z.

(** A loop that runs to its end returns every batch, formatted, in
    order, whatever the surroundings were. *)
Lemma batch_loop_some : forall starts k t result tr r,
  batch_loop env numbers bs starts k t result = (tr, Some r) ->
  r = result ++ encode_records (List.concat (map (batch_of numbers bs) starts)).
Proof.
  induction starts as [|i starts IH]; intros k t result tr r H; simpl in H.
  - inversion H; subst. unfold encode_records. simpl. now rewrite app_nil_r.
  - destruct (flag env t); [discriminate|].
    destruct (raises env k); [discriminate|].
    destruct (batch_loop env numbers bs starts (S k) (S (S t)) _)
      as [tr' r'] eqn:E.
    inversion H; subst. apply IH in E. subst.
    rewrite encode_join_records. simpl.
    rewrite encode_records_app, app_assoc. reflexivity.
Qed.

(** Undisturbed, the loop does run to its end. *)
Lemma batch_loop_quiet : forall starts k t result,
  (forall s, flag env s = false) -> (forall j, raises env j = false) ->
  exists tr r, batch_loop env numbers bs starts k t result = (tr, Some r).
Proof.
  induction starts as [|i starts IH]; intros k t result Hf Hr; simpl.
  - eauto.
  - rewrite Hf, Hr.
    destruct (IH (S k) (S (S t))
                (result ++ Py.encode_ascii (Py.join (map format_record
                   (Py.slice numbers i (i + bs))))) Hf Hr)
      as (tr & r & E).
    rewrite E. eauto.
Qed.

End BatchLoop.

Lemma nth_map_lt {A B : Type} (f : A -> B) (l : list A) (j : nat) (d : B) (d' : A) :
  (j < List.length l)%nat -> nth j (map f l) d = f (nth j l d').
Proof.
  revert j. induction l as [|x l IH]; intros j Hj; simpl in *.
  - lia.
  - destruct j as [|j]; [reflexivity | apply IH; lia].
Qed.

Section GenerateChunk.

Variables start stop : Z.
Hypothesis Hrange : 0 <= start < stop.

Lemma length_arange : List.length (Np.arange_uint32 start stop) = Z.to_nat (stop - start).
Proof. unfold Np.arange_uint32. now rewrite length_map, length_seq. Qed.

Lemma nth_arange (j : nat) :
  (j < Z.to_nat (stop - start))%nat -> stop <= 2 ^ 32 ->
  nth j (Np.arange_uint32 start stop) 0 = start + Z.of_nat j.
Proof.
  intros Hj Hs. unfold Np.arange_uint32.
  rewrite (nth_map_lt _ _ _ _ 0%nat) by (rewrite length_seq; exact Hj).
  rewrite seq_nth by exact Hj.
  unfold Np.uint32_modulus. simpl Nat.add.
  apply Z.mod_small. lia.
Qed.

(** The batches of the loop glue back to the whole chunk. *)
Lemma batches_cover :
  exists starts,
    Py.range 0 (Py.len (Np.arange_uint32 start stop)) (Z.min 100000 (stop - start)) = Some starts
    /\ List.concat (map (batch_of (Np.arange_uint32 start stop) (Z.min 100000 (stop - start))) starts) = (Np.arange_uint32 start stop).
Proof.
  assert (Hbs : 0 < Z.min 100000 (stop - start)) by lia.
  assert (Hlen : 0 < Py.len (Np.arange_uint32 start stop))
    by (unfold Py.len; rewrite length_arange; lia).
  eexists. split; [apply range_items; assumption|].
  rewrite map_map.
  rewrite (map_ext _ (fun k => firstn (Z.to_nat (Z.min 100000 (stop - start)))
                                 (skipn (k * Z.to_nat (Z.min 100000 (stop - start))) (Np.arange_uint32 start stop)))).
  - rewrite concat_slices. apply firstn_all2.
    destruct (ceil_div_bounds (Py.len (Np.arange_uint32 start stop)) (Z.min 100000 (stop - start)) Hlen Hbs) as (Hpos & _ & Hup).
    unfold Py.len in *. nia.
  - intros k. unfold batch_of, Py.slice. f_equal; [f_equal; lia|].
    f_equal. nia.
Qed.

(** Whenever the call returns a buffer, the buffer holds the records of
    the whole chunk. *)
Lemma generate_chunk_some (env : worker_env) (buf : list byte) :
  generate_chunk env start stop = Some buf -> buf = encode_records (Np.arange_uint32 start stop).
Proof.
  unfold generate_chunk, generate_chunk_steps.
  destruct (flag env 0); [discriminate|].
  destruct batches_cover as (starts & Hr & Hcat).
  rewrite Hr.
  destruct (batch_loop env (Np.arange_uint32 start stop) (Z.min 100000 (stop - start)) starts 0 1 []) as [tr r] eqn:E.
  simpl. intros ->. apply batch_loop_some in E. rewrite Hcat in E. exact E.
Qed.

Lemma generate_chunk_quiet (env : worker_env) :
  (forall s, flag env s = false) -> (forall j, raises env j = false) ->
  generate_chunk env start stop = Some (encode_records (Np.arange_uint32 start stop)).
Proof.
  intros Hf Hr.
  unfold generate_chunk, generate_chunk_steps. rewrite Hf.
  destruct batches_cover as (starts & Hrg & Hcat).
  rewrite Hrg.
  destruct (batch_loop_quiet env (Np.arange_uint32 start stop) (Z.min 100000 (stop - start)) starts 0 1 [] Hf Hr) as (tr & r & E).
  rewrite E. simpl. f_equal.
  apply batch_loop_some in E. rewrite Hcat in E. exact E.
Qed.

Lemma length_chunk_records :
  Py.len (encode_records (Np.arange_uint32 start stop)) = (stop - start) * 9.
Proof.
  unfold Py.len. rewrite length_encode_records, length_arange. lia.
Qed.

End GenerateChunk.



(* ================================================================== *)
(** ** The chunk generator: steps and cancellation *)
(* ================================================================== *)

Section Steps.

Variable env : worker_env.
Variable bound : nat.

Lemma batch_loop_steps (numbers : list Z) (bs : Z) :
  Z.to_nat bs = bound ->
  forall starts k t result tr r,
    batch_loop env numbers bs starts k t result = (tr, r) ->
    loop_steps env bound t tr (is_some r).
Proof.
  intros Hbs. induction starts as [|i starts IH]; intros k t result tr r H;
    simpl in H.
  - inversion H; subst. constructor.
  - destruct (flag env t) eqn:Hf.
    { inversion H; subst. now constructor. }
    destruct (raises env k).
    { inversion H; subst. now constructor. }
    destruct (batch_loop env numbers bs starts (S k) (S (S t)) _)
      as [tr' r'] eqn:E.
    inversion H; subst. constructor; [assumption| |eapply IH; eassumption].
    unfold Py.slice. rewrite length_firstn.
    replace (i + bs - i) with bs by lia. lia.
Qed.

Lemma steps_read : forall t tr c,
  loop_steps env bound t tr c ->
  forall p b, nth_error tr p = Some (ReadFlag b) -> b = flag env (t + p).
Proof.
  induction 1 as [t|t Hf|t Hf|t n tr c Hf Hn Hs IH]; intros p b Hp.
  - destruct p; discriminate.
  - destruct p as [|[|p]]; simpl in Hp; try discriminate.
    inversion Hp; subst. now rewrite Nat.add_0_r.
  - destruct p as [|[|[|p]]]; simpl in Hp; try discriminate.
    inversion Hp; subst. now rewrite Nat.add_0_r.
  - destruct p as [|[|p]]; simpl in Hp.
    + inversion Hp; subst. now rewrite Nat.add_0_r.
    + discriminate.
    + apply IH in Hp. rewrite Hp. f_equal. lia.
Qed.

Lemma steps_batch_after_read : forall t tr c,
  loop_steps env bound t tr c ->
  forall p n, nth_error tr p = Some (Batch n) ->
    (n <= bound)%nat
    /\ exists q, p = S q /\ nth_error tr q = Some (ReadFlag false)
                 /\ flag env (t + q) = false.
Proof.
  induction 1 as [t|t Hf|t Hf|t n tr c Hf Hn Hs IH]; intros p m Hp.
  - destruct p; discriminate.
  - destruct p as [|[|p]]; discriminate.
  - destruct p as [|[|[|p]]]; discriminate.
  - destruct p as [|[|p]]; simpl in Hp.
    + discriminate.
    + inversion Hp; subst. split; [assumption|].
      exists 0%nat. rewrite Nat.add_0_r. auto.
    + destruct (IH _ _ Hp) as (Hm & q & -> & Hq & Hfq).
      split; [assumption|].
      exists (S (S q)). repeat split; [exact Hq|].
      replace (t + S (S q))%nat with (S (S t) + q)%nat by lia. exact Hfq.
Qed.

Lemma steps_seen_stops : forall t tr c,
  loop_steps env bound t tr c ->
  forall p, nth_error tr p = Some (ReadFlag true) -> c = false.
Proof.
  induction 1 as [t|t Hf|t Hf|t n tr c Hf Hn Hs IH]; intros p Hp;
    try reflexivity.
  - destruct p; discriminate.
  - destruct p as [|[|p]]; simpl in Hp; try discriminate. eauto.
Qed.

(** Entered with the flag already up, the loop formats nothing. *)
Lemma steps_flag_up : forall t tr c,
  loop_steps env bound t tr c -> flag env t = true ->
  count_batches tr = 0%nat /\ (c = false \/ tr = []).
Proof.
  intros t tr c H Hup. inversion H; subst; try congruence; auto.
Qed.

(** Once the flag is up from step [t + d] on, at most one batch is
    formatted from that step on, and the loop ends without a result
    unless it had no read left. *)
Lemma steps_latency : forall t tr c,
  loop_steps env bound t tr c ->
  forall d, (forall s, (t + d <= s)%nat -> flag env s = true) ->
    (count_batches (skipn d tr) <= 1)%nat
    /\ (c = false \/ (List.length tr <= S d)%nat).
Proof.
  induction 1 as [t|t Hf|t Hf|t n tr c Hf Hn Hs IH]; intros d Hup.
  - split; [destruct d; cbn; lia | right; simpl; lia].
  - split; [destruct d as [|[|d]]; cbn; lia | now left].
  - split; [destruct d as [|[|[|d]]]; cbn; lia | now left].
  - destruct d as [|[|d]].
    + rewrite Hup in Hf by lia. discriminate.
    + destruct (steps_flag_up _ _ _ Hs (Hup (S (S t)) ltac:(lia))) as (H0 & Hc).
      split.
      * cbn [skipn]. unfold count_batches in *. cbn. rewrite H0. lia.
      * destruct Hc as [->| ->]; [now left | right; simpl; lia].
    + destruct (IH d) as (Hcount & Hc).
      { intros s Hsd. apply Hup. lia. }
      split; [exact Hcount|].
      destruct Hc as [->|Hlen]; [now left | right; simpl; lia].
Qed.

End Steps.

(** The steps of a call: it reads the shared flag once before it starts
    and then once in front of every batch; a batch has at most 100,000
    records; every read sees the flag as it is at that step, and a read
    that sees the flag up ends the call with [None].  When the flag is up
    from some step [t0] on, at most one batch is still formatted from that
    step on. *)
Lemma chunk_steps_shape (env : worker_env) (start stop : Z) :
  let tr := fst (generate_chunk_steps env start stop) in
  let r := snd (generate_chunk_steps env start stop) in
  hd_error tr = Some (ReadFlag (flag env 0))
  /\ (forall p n, nth_error tr p = Some (Batch n) ->
        Z.of_nat n <= 100000
        /\ exists q, p = S q /\ nth_error tr q = Some (ReadFlag false)
                     /\ flag env q = false)
  /\ (forall p b, nth_error tr p = Some (ReadFlag b) -> b = flag env p)
  /\ (forall p, nth_error tr p = Some (ReadFlag true) -> r = None)
  /\ (forall t0, (forall s, (t0 <= s)%nat -> flag env s = true) ->
        (count_batches (skipn t0 tr) <= 1)%nat
        /\ (r = None \/ (List.length tr <= S t0)%nat)).
Proof.
  unfold generate_chunk_steps.
  destruct (flag env 0) eqn:Hf0.
  { cbn [fst snd].
    split; [reflexivity|].
    split; [intros p n Hp; destruct p as [|[|p]]; discriminate|].
    split.
    { intros p b Hp. destruct p as [|[|p]]; simpl in Hp; try discriminate.
      inversion Hp; subst. now rewrite Hf0. }
    split; [reflexivity|].
    intros t0 Hup. split; [|now left].
    destruct t0 as [|[|t0]]; cbn; lia. }
  destruct (Py.range 0 (Py.len (Np.arange_uint32 start stop))
              (Z.min 100000 (stop - start))) as [starts|] eqn:Hrg.
  2:{ cbn [fst snd].
      split; [reflexivity|].
      split; [intros p n Hp; destruct p as [|[|[|p]]]; discriminate|].
      split.
      { intros p b Hp. destruct p as [|[|[|p]]]; simpl in Hp; try discriminate.
        inversion Hp; subst. now rewrite Hf0. }
      split; [reflexivity|].
      intros t0 Hup. split; [|now left].
      destruct t0 as [|[|[|t0]]]; cbn; lia. }
  destruct (batch_loop env (Np.arange_uint32 start stop)
              (Z.min 100000 (stop - start)) starts 0 1 []) as [tr r] eqn:E.
  pose proof (batch_loop_steps env (Z.to_nat (Z.min 100000 (stop - start)))
                _ _ eq_refl _ _ _ _ _ _ E) as Hs.
  cbn [fst snd].
  split; [reflexivity|].
  split.
  { intros p n Hp. destruct p as [|p]; simpl in Hp; [discriminate|].
    destruct (steps_batch_after_read _ _ _ _ _ Hs _ _ Hp) as (Hn & q & -> & Hq & Hfq).
    split; [lia|]. exists (S q). repeat split; [exact Hq | exact Hfq]. }
  split.
  { intros p b Hp. destruct p as [|p]; simpl in Hp.
    - inversion Hp; subst. now rewrite Hf0.
    - apply (steps_read _ _ _ _ _ Hs) in Hp. exact Hp. }
  split.
  { intros p Hp. destruct p as [|p]; simpl in Hp; [discriminate|].
    apply (steps_seen_stops _ _ _ _ _ Hs) in Hp.
    destruct r; [discriminate | reflexivity]. }
  intros t0 Hup. destruct t0 as [|t0].
  { rewrite Hup in Hf0 by lia. discriminate. }
  destruct (steps_latency _ _ _ _ _ Hs t0) as (Hcount & Hc).
  { intros s Hsd. apply Hup. lia. }
  split; [exact Hcount|].
  destruct Hc as [Hc|Hlen].
  - left. destruct r; [discriminate | reflexivity].
  - right. simpl. lia.
Qed.

(* ================================================================== *)
(** ** Work partitioning: the chunk sequence *)
(* ================================================================== *)

Lemma nth_error_map_seq {B : Type} (f : nat -> B) (n i : nat) :
  nth_error (map f (seq 0 n)) i = if (i <? n)%nat then Some (f i) else None.
Proof.
  destruct (i <? n)%nat eqn:E.
  - apply Nat.ltb_lt in E.
    rewrite nth_error_map, nth_error_seq.
    apply Nat.ltb_lt in E. rewrite E. reflexivity.
  - apply Nat.ltb_ge in E. apply nth_error_None.
    rewrite length_map, length_seq. exact E.
Qed.

Section Partition.

Variable cfg : config.
Hypothesis HN : 0 < TOTAL_ENTRIES cfg.
Hypothesis HC : 0 < CHUNK_SIZE cfg.

Lemma make_chunks_eq :
  make_chunks cfg = Some (map (chunk_at cfg) (seq 0 (chunk_count cfg))).
Proof.
  unfold make_chunks. rewrite range_items by assumption.
  f_equal. rewrite map_map. apply map_ext. intros k.
  unfold chunk_at. f_equal. f_equal. lia.
Qed.

Lemma nth_chunk (i : nat) (s e : Z) :
  nth_error (map (chunk_at cfg) (seq 0 (chunk_count cfg))) i = Some (s, e) ->
  (i < chunk_count cfg)%nat
  /\ s = Z.of_nat i * CHUNK_SIZE cfg
  /\ e = Z.min ((Z.of_nat i + 1) * CHUNK_SIZE cfg) (TOTAL_ENTRIES cfg).
Proof.
  rewrite nth_error_map_seq.
  destruct (i <? chunk_count cfg)%nat eqn:E; [|discriminate].
  apply Nat.ltb_lt in E. unfold chunk_at. intros H. inversion H. auto.
Qed.

Lemma chunk_bounds (i : nat) :
  (i < chunk_count cfg)%nat ->
  0 <= Z.of_nat i * CHUNK_SIZE cfg < TOTAL_ENTRIES cfg.
Proof.
  unfold chunk_count. intros Hi.
  destruct (ceil_div_bounds _ _ HN HC) as (Hpos & Hlow & Hup).
  nia.
Qed.

End Partition.

(** C2.  For [N > 0] and [C > 0] the partitioner produces exactly the
    chunks [[i*C, min((i+1)*C, N))] for [i = 0 .. ceil(N/C) - 1], in
    ascending order of [i]; no chunk is empty, no chunk is longer than [C],
    a chunk ends before any later chunk starts, and a value lies in
    [[0, N)] exactly when it lies in one of the chunks. *)
Theorem chunks_partition (cfg : config) :
  let N := TOTAL_ENTRIES cfg in
  let C := CHUNK_SIZE cfg in
  0 < N -> 0 < C ->
  exists chunks,
    make_chunks cfg = Some chunks
    /\ chunks = map (fun i => (Z.of_nat i * C, Z.min ((Z.of_nat i + 1) * C) N))
                    (seq 0 (Z.to_nat (ceil_div N C)))
    /\ (forall i s e, nth_error chunks i = Some (s, e) ->
          s < e /\ e - s <= C)
    /\ (forall i j s1 e1 s2 e2, (i < j)%nat ->
          nth_error chunks i = Some (s1, e1) ->
          nth_error chunks j = Some (s2, e2) ->
          e1 <= s2)
    /\ (forall v, 0 <= v < N <->
          exists i s e, nth_error chunks i = Some (s, e) /\ s <= v < e).
Proof.
  intros N C HN HC.
  exists (map (chunk_at cfg) (seq 0 (chunk_count cfg))).
  split; [apply make_chunks_eq; assumption|].
  split; [reflexivity|].
  split.
  { intros i s e H. apply nth_chunk in H. destruct H as (Hi & -> & ->).
    pose proof (chunk_bounds cfg HN HC i Hi). fold N C in H |- *. lia. }
  split.
  { intros i j s1 e1 s2 e2 Hij H1 H2.
    apply nth_chunk in H1. apply nth_chunk in H2.
    destruct H1 as (_ & _ & ->). destruct H2 as (_ & -> & _).
    fold N C. nia. }
  intros v. split.
  - intros Hv.
    assert (Hq : 0 <= v / C) by (apply Z.div_pos; lia).
    pose proof (Z.div_mod v C ltac:(lia)) as Hdm.
    pose proof (Z.mod_pos_bound v C HC) as Hm.
    destruct (ceil_div_bounds N C HN HC) as (Hpos & Hlow & Hup).
    assert (Hi : (Z.to_nat (v / C) < chunk_count cfg)%nat).
    { unfold chunk_count. fold N C. nia. }
    exists (Z.to_nat (v / C)), (v / C * C), (Z.min ((v / C + 1) * C) N).
    split.
    + rewrite nth_error_map_seq.
      apply Nat.ltb_lt in Hi. rewrite Hi. unfold chunk_at. fold N C.
      rewrite Z2Nat.id by lia. reflexivity.
    + nia.
  - intros (i & s & e & H & Hv).
    apply nth_chunk in H. destruct H as (Hi & -> & ->).
    pose proof (chunk_bounds cfg HN HC i Hi). fold N C in H, Hv. lia.
Qed.

Lemma chunks_partition_witness :
  exists chunks,
    make_chunks ragged = Some chunks
    /\ chunks = [(0, 5); (5, 10); (10, 15); (15, 20); (20, 22)]
    /\ (forall i s e, nth_error chunks i = Some (s, e) -> s < e /\ e - s <= 5)
    /\ (forall i j s1 e1 s2 e2, (i < j)%nat ->
          nth_error chunks i = Some (s1, e1) ->
          nth_error chunks j = Some (s2, e2) ->
          e1 <= s2)
    /\ (forall v, 0 <= v < 22 <->
          exists i s e, nth_error chunks i = Some (s, e) /\ s <= v < e).
Proof.
  apply (chunks_partition ragged); reflexivity.
Defined.

(* ================================================================== *)
(** ** [Pool.imap] delivers in submission order *)
(* ================================================================== *)

Section Dict.

Context {B : Type}.

Lemma dict_get_pop (d : list (nat * B)) (i j : nat) :
  dict_get (dict_pop d i) j = if Nat.eqb i j then None else dict_get d j.
Proof.
  induction d as [|[k b] d IH]; simpl.
  - now destruct (Nat.eqb i j).
  - destruct (Nat.eqb k i) eqn:Eki; simpl.
    + apply Nat.eqb_eq in Eki; subst k. rewrite IH.
      destruct (Nat.eqb i j); reflexivity.
    + rewrite IH. destruct (Nat.eqb k j) eqn:Ekj; [|reflexivity].
      apply Nat.eqb_eq in Ekj; subst k. now rewrite Nat.eqb_sym, Eki.
Qed.

Lemma length_dict_pop (d : list (nat * B)) (i : nat) (b : B) :
  dict_get d i = Some b ->
  (List.length (dict_pop d i) < List.length d)%nat.
Proof.
  induction d as [|[k c] d IH]; simpl; [discriminate|].
  destruct (Nat.eqb k i) eqn:Eki; simpl.
  - intros _. unfold dict_pop.
    pose proof (filter_length_le (fun e => negb (Nat.eqb (fst e) i)) d). lia.
  - intros H. specialize (IH H). lia.
Qed.

End Dict.

Section IMap.

Context {B : Type}.
Variable results : list B.

Lemma firstn_snoc (k : nat) (b : B) :
  nth_error results k = Some b ->
  firstn k results ++ [b] = firstn (S k) results.
Proof.
  revert k. induction results as [|x l IH]; intros k H.
  - destruct k; discriminate.
  - destruct k as [|k]; simpl in *.
    + now inversion H.
    + f_equal. apply IH. exact H.
Qed.

Lemma imap_inv_strict (seen : list nat) (it : imap_iterator B) :
  dict_get (unsorted it) (index it) = None ->
  imap_inv results false it seen -> imap_inv results true it seen.
Proof.
  intros Hnone (H1 & H2 & H3 & H4).
  split; [exact H1|]. split; [exact H2|]. split; [|exact H4].
  intros j b Hj. destruct (H3 j b Hj) as (Hr & Hs & Hle).
  split; [exact Hr|]. split; [exact Hs|].
  destruct (Nat.eq_dec (index it) j) as [E|E]; [|lia].
  rewrite <- E in Hj. congruence.
Qed.

(** One turn of the draining loop keeps the invariant. *)
Lemma imap_turn_inv (seen : list nat) (it : imap_iterator B) (b : B) :
  dict_get (unsorted it) (index it) = Some b ->
  imap_inv results false it seen ->
  imap_inv results false
    (IMap (items it ++ [b]) (S (index it)) (dict_pop (unsorted it) (index it)))
    seen.
Proof.
  intros Eg (H1 & H2 & H3 & H4).
  destruct (H3 _ _ Eg) as (Hb & Hs & _).
  unfold imap_inv. cbn [items index unsorted].
  split; [rewrite H1; apply firstn_snoc; exact Hb|].
  split.
  { intros j Hj.
    destruct (Nat.eq_dec j (index it)) as [->|Hne]; [exact Hs|].
    apply H2. lia. }
  split.
  { intros j c Hj. rewrite dict_get_pop in Hj.
    destruct (Nat.eqb (index it) j) eqn:E; [discriminate|].
    apply Nat.eqb_neq in E.
    destruct (H3 _ _ Hj) as (Hr & Hsj & Hle).
    split; [exact Hr|]. split; [exact Hsj|]. lia. }
  intros j Hj. destruct (H4 j Hj) as [Hlt|(c & Hc)]; [left; lia|].
  destruct (Nat.eq_dec (index it) j) as [E|Hne]; [left; lia|].
  right. exists c. rewrite dict_get_pop.
  apply Nat.eqb_neq in Hne. now rewrite Hne.
Qed.

Lemma imap_drain_inv (seen : list nat) : forall turns it,
  (List.length (unsorted it) <= turns)%nat ->
  imap_inv results false it seen ->
  imap_inv results true (imap_drain turns it) seen.
Proof.
  induction turns as [|turns IH]; intros it Hlen Hinv.
  - simpl. apply imap_inv_strict; [|exact Hinv].
    destruct (unsorted it); [reflexivity | simpl in Hlen; lia].
  - simpl. destruct (dict_get (unsorted it) (index it)) as [b|] eqn:Eg.
    + apply IH.
      * cbn [unsorted]. pose proof (length_dict_pop _ _ _ Eg). lia.
      * apply imap_turn_inv; assumption.
    + apply imap_inv_strict; assumption.
Qed.

Lemma imap_set_inv (seen : list nat) (it : imap_iterator B) (i : nat) (b : B) :
  nth_error results i = Some b -> ~ In i seen ->
  imap_inv results true it seen ->
  imap_inv results true (imap_set it i b) (i :: seen).
Proof.
  intros Hb Hnew (H1 & H2 & H3 & H4). unfold imap_set.
  destruct (Nat.eqb (index it) i) eqn:E.
  - apply Nat.eqb_eq in E. subst i.
    apply imap_drain_inv; [cbn [unsorted]; lia|].
    unfold imap_inv. cbn [items index unsorted].
    split; [rewrite H1; apply firstn_snoc; exact Hb|].
    split.
    { intros j Hj. destruct (Nat.eq_dec j (index it)); [left; auto|].
      right. apply H2. lia. }
    split.
    { intros j c Hj. destruct (H3 _ _ Hj) as (Hr & Hs & Hlt).
      split; [exact Hr|]. split; [now right | lia]. }
    intros j [<-|Hj]; [left; lia|].
    destruct (H4 j Hj) as [?|?]; [left; lia | now right].
  - apply Nat.eqb_neq in E.
    assert (Hlt : (index it < i)%nat).
    { destruct (Nat.lt_ge_cases i (index it)) as [Hc|Hc]; [|lia].
      exfalso. apply Hnew. apply H2. exact Hc. }
    unfold imap_inv. cbn [items index unsorted].
    split; [exact H1|].
    split; [intros j Hj; right; apply H2; exact Hj|].
    split.
    { intros j c Hj. simpl in Hj. destruct (Nat.eqb i j) eqn:Eij.
      - apply Nat.eqb_eq in Eij. subst j. inversion Hj; subst.
        split; [exact Hb|]. split; [now left | exact Hlt].
      - destruct (H3 _ _ Hj) as (Hr & Hs & Hl).
        split; [exact Hr|]. split; [now right | exact Hl]. }
    intros j [<-|Hj].
    + right. exists b. simpl. now rewrite Nat.eqb_refl.
    + destruct (H4 j Hj) as [?|(c & Hc)]; [now left|].
      right. simpl. destruct (Nat.eqb i j) eqn:Eij; eauto.
Qed.

End IMap.

Section PoolImap.

Context {A B : Type}.
Variable f : nat -> A -> B.
Variable tasks : list A.

Lemma length_mapi : List.length (mapi f tasks) = List.length tasks.
Proof.
  unfold mapi. rewrite length_map, length_combine, length_seq. lia.
Qed.

Lemma nth_error_mapi (i : nat) (a : A) :
  nth_error tasks i = Some a -> nth_error (mapi f tasks) i = Some (f i a).
Proof.
  intros H. unfold mapi. rewrite nth_error_map.
  assert (Hc : forall (l : list A) j k,
             nth_error l j = Some a ->
             nth_error (combine (seq k (List.length l)) l) j
             = Some ((k + j)%nat, a)).
  { clear H. induction l as [|x l IH]; intros j k H.
    - destruct j; discriminate.
    - destruct j as [|j]; simpl in *.
      + inversion H; subst. f_equal. f_equal. lia.
      + rewrite (IH j (S k) H). f_equal. f_equal. lia. }
  rewrite (Hc tasks i 0%nat H). reflexivity.
Qed.

Lemma pool_imap_fold (order : list nat) :
  NoDup order ->
  (forall i, In i order -> (i < List.length tasks)%nat) ->
  imap_inv (mapi f tasks) true
    (fold_left
       (fun it i =>
          match nth_error tasks i with
          | Some a => imap_set it i (f i a)
          | None => it
          end)
       (rev order) (IMap [] 0%nat []))
    order.
Proof.
  induction order as [|i order IH]; intros Hnd Hlt.
  - simpl. repeat split; simpl; try discriminate; try lia; try tauto.
  - inversion Hnd as [|? ? Hni Hnd']; subst.
    simpl rev. rewrite fold_left_app. simpl.
    destruct (nth_error tasks i) as [a|] eqn:Ea.
    + apply imap_set_inv; auto.
      * apply nth_error_mapi. exact Ea.
      * apply IH; auto. intros j Hj. apply Hlt. now right.
    + exfalso. apply nth_error_None in Ea.
      specialize (Hlt i (or_introl eq_refl)). lia.
Qed.

(** Whatever the order in which the workers finish, as long as every
    task is finished once, the consumer receives the results in the
    order of the tasks. *)
Lemma pool_imap_in_order (order : list nat) :
  Permutation order (seq 0 (List.length tasks)) ->
  pool_imap f tasks order = mapi f tasks.
Proof.
  intros Hp. unfold pool_imap.
  assert (Hnd : NoDup (rev order)).
  { apply (Permutation_NoDup (l := seq 0 (List.length tasks))).
    - rewrite <- Permutation_rev. now apply Permutation_sym.
    - apply seq_NoDup. }
  assert (Hin : forall i, In i order <-> (i < List.length tasks)%nat).
  { intros i. split; intros H.
    - apply (Permutation_in _ Hp) in H. apply in_seq in H. lia.
    - apply (Permutation_in _ (Permutation_sym Hp)). apply in_seq. lia. }
  pose proof (pool_imap_fold (rev order) Hnd) as Hinv.
  rewrite rev_involutive in Hinv.
  destruct Hinv as (H1 & H2 & H3 & H4).
  { intros i Hi. apply Hin. now apply in_rev. }
  set (it := fold_left _ order _) in *.
  assert (Hidx : (List.length tasks <= index it)%nat).
  { destruct (Nat.lt_ge_cases (index it) (List.length tasks)) as [Hc|Hc]; [|lia].
    exfalso.
    destruct (H4 (index it)) as [Hlt|(b & Hb)].
    - apply -> in_rev. apply Hin. exact Hc.
    - lia.
    - destruct (H3 _ _ Hb). lia. }
  rewrite H1. apply firstn_all2. rewrite length_mapi. exact Hidx.
Qed.

End PoolImap.

(* ================================================================== *)
(** ** The coordinator loop *)
(* ================================================================== *)

Section Loop.

Variable cfg : config.
Variable env : run_env.

Lemma enumerate_from_cons {A : Type} (k : nat) (x : A) (l : list A) :
  enumerate_from k (x :: l) = (Z.of_nat k, x) :: enumerate_from (S k) l.
Proof. reflexivity. Qed.

Lemma writes_from_cons (k : nat) (d : list byte) (datas : list (list byte)) :
  writes_from cfg k (d :: datas) = write_of cfg k d :: writes_from cfg (S k) datas.
Proof. reflexivity. Qed.

(** The loop, in closed form: it writes the results of a prefix of the
    chunks, each at [index * CHUNK_SIZE * ENTRY_LENGTH], in the order of
    the indices, touches nothing but the mapped temporary file, and ends
    in one of four ways. *)
Lemma coordinator_loop_spec : forall rs k mm st st' r,
  coordinator_loop cfg env (enumerate_from k rs) mm st = (st', r) ->
  temp_file (fs st) = Some mm ->
  exists datas mm',
    map Some datas = firstn (List.length datas) rs
    /\ trace st' = trace st ++ map write_event (writes_from cfg k datas)
                             ++ tail_events r
    /\ apply_writes mm (writes_from cfg k datas) = Some mm'
    /\ fs st' = set_temp (fs st) (Some mm')
    /\ pool st' = pool st /\ manager st' = manager st
    /\ temp_path st' = temp_path st
    /\ loop_exit cfg env k rs (List.length datas) mm' r.
Proof.
  induction rs as [|x rs IH]; intros k mm st st' r H Hmm.
  - cbn in H. inversion H; subst.
    exists [], mm. cbn. rewrite app_nil_r.
    repeat split; auto.
    destruct st' as [f ? ? ? ?]; destruct f; cbn in *. now subst.
  - rewrite enumerate_from_cons in H. cbn [coordinator_loop] in H.
    rewrite Nat2Z.id in H.
    destruct (interrupted env k) eqn:Hint.
    { inversion H; subst. exists [], mm. cbn.
      rewrite Nat.add_0_r.
      repeat split; auto; try lia.
      destruct st as [f ? ? ? ?]; destruct f; cbn in *. now subst. }
    destruct x as [data|].
    2:{ inversion H; subst. exists [], mm. cbn.
        rewrite Nat.add_0_r, app_nil_r.
        repeat split; auto.
        destruct st' as [f ? ? ? ?]; destruct f; cbn in *. now subst. }
    destruct (mmap_setslice mm _ _ data) as [mm1|] eqn:Hset.
    2:{ inversion H; subst. exists [], mm. cbn.
        rewrite Nat.add_0_r, app_nil_r.
        repeat split; auto.
        - destruct st' as [f ? ? ? ?]; destruct f; cbn in *. now subst.
        - exists data. repeat split; auto.
          unfold write_of. cbn. now rewrite Hset. }
    apply IH in H; [|reflexivity].
    destruct H as (datas & mm' & Hd & Htr & Hap & Hfs & Hp & Hm & Htp & Hex).
    exists (data :: datas), mm'.
    split; [cbn; now rewrite Hd|].
    split.
    { rewrite Htr. cbn [emit trace set_fs].
      rewrite writes_from_cons. cbn [map write_event write_of].
      rewrite <- app_assoc. reflexivity. }
    split.
    { rewrite writes_from_cons. unfold write_of at 1. cbn [apply_writes].
      rewrite Hset. exact Hap. }
    split; [rewrite Hfs; reflexivity|].
    split; [exact Hp|]. split; [exact Hm|]. split; [exact Htp|].
    unfold loop_exit in *. cbn [List.length].
    replace (k + S (List.length datas))%nat
      with (S k + List.length datas)%nat by lia.
    destruct r as [e|]; [|now f_equal].
    destruct e; try exact Hex.
    + destruct Hex; split; [lia | assumption].
Qed.

End Loop.

(* ================================================================== *)
(** ** Filling the mapping *)
(* ================================================================== *)

Section SliceAssignment.

Lemma adjust_index_inside (i size : Z) :
  0 <= i <= size -> adjust_index i size = i.
Proof.
  intros H. unfold adjust_index.
  destruct (i <? 0) eqn:E1; [apply Z.ltb_lt in E1; lia|].
  destruct (size <=? i) eqn:E2; [apply Z.leb_le in E2; lia | reflexivity].
Qed.

Lemma adjust_index_beyond (i size : Z) :
  0 <= size <= i -> adjust_index i size = size.
Proof.
  intros H. unfold adjust_index.
  destruct (i <? 0) eqn:E1; [apply Z.ltb_lt in E1; lia|].
  destruct (size <=? i) eqn:E2; [reflexivity | apply Z.leb_gt in E2; lia].
Qed.

(** A slice assignment that fits the mapping replaces exactly the bytes
    of the slice. *)
Lemma setslice_inside (mm data : list byte) (a : Z) :
  0 <= a -> a + Py.len data <= Py.len mm ->
  mmap_setslice mm a (a + Py.len data) data
  = Some (firstn (Z.to_nat a) mm ++ data
          ++ skipn (Z.to_nat (a + Py.len data)) mm).
Proof.
  intros Ha Hb. unfold mmap_setslice.
  assert (Hl : 0 <= Py.len data) by (unfold Py.len; lia).
  rewrite !adjust_index_inside by lia.
  destruct (a + Py.len data <? a) eqn:E; [apply Z.ltb_lt in E; lia|].
  replace (a + Py.len data - a) with (Py.len data) by lia.
  rewrite Z.eqb_refl. reflexivity.
Qed.

(** One that starts inside the mapping and reaches past its end raises. *)
Lemma setslice_outside (mm data : list byte) (a : Z) :
  0 <= a <= Py.len mm -> Py.len mm < a + Py.len data ->
  mmap_setslice mm a (a + Py.len data) data = None.
Proof.
  intros Ha Hb. unfold mmap_setslice.
  rewrite (adjust_index_beyond (a + Py.len data)) by lia.
  rewrite adjust_index_inside by lia.
  destruct (Py.len mm <? a) eqn:E; [apply Z.ltb_lt in E; lia|].
  destruct (Py.len data =? Py.len mm - a) eqn:E2;
    [apply Z.eqb_eq in E2; lia | reflexivity].
Qed.

Lemma skipn_repeat {A : Type} (x : A) (n m : nat) :
  skipn n (repeat x m) = repeat x (m - n).
Proof.
  revert m. induction n as [|n IH]; intros m; simpl.
  - now rewrite Nat.sub_0_r.
  - destruct m as [|m]; simpl; [reflexivity | apply IH].
Qed.

Lemma map_seq_offset {B : Type} (f : nat -> B) (m : nat) : forall s,
  map f (seq s m) = map (fun j => f (s + j)%nat) (seq 0 m).
Proof.
  induction m as [|m IH]; intros s; simpl.
  - reflexivity.
  - f_equal; [f_equal; lia|].
    rewrite (IH (S s)), <- seq_shift, map_map.
    apply map_ext. intros j. f_equal. lia.
Qed.

Lemma arange_app (a b c : Z) :
  a <= b <= c ->
  Np.arange_uint32 a b ++ Np.arange_uint32 b c = Np.arange_uint32 a c.
Proof.
  intros H. unfold Np.arange_uint32.
  replace (Z.to_nat (c - a)) with (Z.to_nat (b - a) + Z.to_nat (c - b))%nat
    by lia.
  rewrite seq_app, map_app. f_equal.
  rewrite Nat.add_0_l, (map_seq_offset _ _ (Z.to_nat (b - a))).
  apply map_ext. intros j. f_equal. lia.
Qed.

End SliceAssignment.

Section Fill.

Variable cfg : config.
Hypothesis HN : 0 < TOTAL_ENTRIES cfg.
Hypothesis HC : 0 < CHUNK_SIZE cfg.
Hypothesis HW : ENTRY_LENGTH cfg = 9.

Lemma length_filled (k : nat) :
  Py.len (filled cfg k) = 9 * TOTAL_ENTRIES cfg.
Proof.
  unfold Py.len, filled.
  rewrite length_app, length_encode_records, length_arange, repeat_length.
  unfold fill. lia.
Qed.

Lemma length_chunk_data (j : nat) :
  Py.len (chunk_data cfg j)
  = 9 * (snd (chunk_at cfg j) - fst (chunk_at cfg j)) \/
  (snd (chunk_at cfg j) <= fst (chunk_at cfg j) /\ Py.len (chunk_data cfg j) = 0).
Proof.
  unfold chunk_data, Py.len.
  rewrite length_encode_records, length_arange. lia.
Qed.

Lemma setslice_fill (k : nat) :
  (k < chunk_count cfg)%nat ->
  let pos := Z.of_nat k * CHUNK_SIZE cfg * ENTRY_LENGTH cfg in
  mmap_setslice (filled cfg k) pos (pos + Py.len (chunk_data cfg k))
    (chunk_data cfg k)
  = Some (filled cfg (S k)).
Proof.
  intros Hk pos.
  pose proof (chunk_bounds cfg HN HC k Hk) as Hs.
  set (s := Z.of_nat k * CHUNK_SIZE cfg) in *.
  set (e := Z.min ((Z.of_nat k + 1) * CHUNK_SIZE cfg) (TOTAL_ENTRIES cfg)).
  assert (He : s < e <= TOTAL_ENTRIES cfg) by (unfold e, s; nia).
  assert (Hfk : fill cfg k = s) by (unfold fill; fold s; lia).
  assert (Hfk' : fill cfg (S k) = e).
  { unfold fill, e. f_equal. f_equal. lia. }
  assert (Hd : chunk_data cfg k = encode_records (Np.arange_uint32 s e))
    by reflexivity.
  assert (Hlen : Py.len (chunk_data cfg k) = 9 * (e - s)).
  { rewrite Hd. unfold Py.len.
    rewrite length_encode_records, length_arange. lia. }
  assert (Hpos : pos = 9 * s) by (unfold pos; rewrite HW; fold s; lia).
  rewrite setslice_inside by (rewrite ?length_filled; lia).
  f_equal. unfold filled. rewrite Hfk, Hfk', Hlen, Hpos.
  assert (Hl1 : List.length (encode_records (Np.arange_uint32 0 s))
                = Z.to_nat (9 * s)).
  { rewrite length_encode_records, length_arange. lia. }
  rewrite firstn_app, Hl1, Nat.sub_diag, firstn_O, app_nil_r.
  rewrite firstn_all2 by lia.
  rewrite skipn_app, Hl1.
  rewrite skipn_all2 by lia.
  rewrite skipn_repeat. cbn [app].
  rewrite Hd, app_assoc, <- encode_records_app, arange_app by lia.
  f_equal. f_equal. lia.
Qed.

(** Writing the chunks [k, k+1, ..., k+m-1] in order fills the mapping
    up to chunk [k+m]. *)
Lemma apply_writes_fill : forall m k,
  (k + m <= chunk_count cfg)%nat ->
  apply_writes (filled cfg k)
    (writes_from cfg k (map (chunk_data cfg) (seq k m)))
  = Some (filled cfg (k + m)).
Proof.
  induction m as [|m IH]; intros k Hk.
  - cbn. now rewrite Nat.add_0_r.
  - cbn [seq map]. rewrite writes_from_cons.
    unfold write_of at 1. cbn [apply_writes].
    rewrite setslice_fill by lia.
    rewrite IH by lia. f_equal. f_equal. lia.
Qed.

Lemma filled_start :
  filled cfg 0 = repeat x00 (Z.to_nat (TOTAL_ENTRIES cfg * ENTRY_LENGTH cfg)).
Proof.
  unfold filled, fill. rewrite HW.
  replace (Z.min (Z.of_nat 0 * CHUNK_SIZE cfg) (TOTAL_ENTRIES cfg)) with 0 by lia.
  change (encode_records (Np.arange_uint32 0 0)) with (@nil byte).
  cbn [app]. f_equal. lia.
Qed.

Lemma filled_end :
  filled cfg (chunk_count cfg) = encode_records (Np.arange_uint32 0 (TOTAL_ENTRIES cfg)).
Proof.
  unfold filled, fill, chunk_count.
  destruct (ceil_div_bounds _ _ HN HC) as (Hpos & Hlow & Hup).
  rewrite Z2Nat.id by lia.
  replace (Z.min _ _) with (TOTAL_ENTRIES cfg) by lia.
  replace (Z.to_nat _) with 0%nat by lia.
  cbn. now rewrite app_nil_r.
Qed.

End Fill.

(* ================================================================== *)
(** ** The shapes of a run *)
(* ================================================================== *)

Ltac run_steps :=
  cbv beta iota zeta delta
    [emit set_fs set_temp cleanup_resources is_KeyboardInterrupt log_of
     tail_events teardown_events setup_events
     fs trace pool manager temp_path
     directory free_bytes temp_file output_file with_directory fst snd];
  repeat rewrite <- app_assoc; cbn [app].

Lemma run_has_shape (cfg : config) (env : run_env) (disk : filesystem) :
  run_shape cfg env disk
    (fst (generate_full_8digit_combinations cfg env disk))
    (snd (generate_full_8digit_combinations cfg env disk)).
Proof.
  unfold generate_full_8digit_combinations, try_block, check_disk_space.
  fold (file_size cfg).
  set (st1 := ensure_directory_exists (State disk [] false false false)).
  assert (Hst1 : st1 = State (with_directory disk) (mkdir_events disk)
                         false false false).
  { unfold st1, ensure_directory_exists, with_directory, mkdir_events.
    destruct disk as [[|] fr t o]; reflexivity. }
  clearbody st1. subst st1. cbn [fs free_bytes with_directory].
  destruct (free_bytes disk <? file_size cfg) eqn:Hfree.
  { apply Z.ltb_lt in Hfree. run_steps.
    now apply (shape_no_space cfg env disk). }
  apply Z.ltb_ge in Hfree.
  destruct (file_size cfg <? 0) eqn:Hneg.
  { apply Z.ltb_lt in Hneg. run_steps.
    now apply (shape_truncate cfg env disk). }
  apply Z.ltb_ge in Hneg.
  destruct (file_size cfg =? 0) eqn:Hzero.
  { apply Z.eqb_eq in Hzero. run_steps.
    apply (shape_setup_failed cfg env disk ValueError_mmap_empty); auto. }
  apply Z.eqb_neq in Hzero.
  destruct (make_chunks cfg) as [chunks|] eqn:Hchunks.
  2:{ run_steps.
      apply (shape_setup_failed cfg env disk ValueError_range_step);
        [lia | right; repeat split; auto; lia]. }
  destruct (coordinator_loop cfg env _ _ _) as [st7 r] eqn:Hloop.
  change (Py.enumerate (chunk_results env chunks))
    with (enumerate_from 0 (chunk_results env chunks)) in Hloop.
  apply coordinator_loop_spec in Hloop; [|reflexivity].
  destruct Hloop as (datas & mm' & Hd & Htr & Hap & Hfs & Hp & Hm & Htp & Hex).
  destruct st7 as [f7 tr7 p7 m7 tp7]. cbn in Htr, Hfs, Hp, Hm, Htp. subst.
  destruct r as [e|].
  - pose proof (shape_loop_failed cfg env disk chunks datas mm' e
                  ltac:(lia) Hchunks Hd Hap Hex) as Hshape.
    destruct e; cbn in Hex; try contradiction; revert Hshape; run_steps;
      intros Hshape; exact Hshape.
  - cbn in Hex. rewrite Hex, firstn_all in Hd.
    run_steps.
    apply (shape_success cfg env disk chunks datas mm'); auto; lia.
Qed.

(* ================================================================== *)
(** ** Reading a trace *)
(* ================================================================== *)

Section Traces.

Lemma count_events_app (p : event -> bool) (t1 t2 : list event) :
  count_events p (t1 ++ t2) = (count_events p t1 + count_events p t2)%nat.
Proof. unfold count_events. now rewrite filter_app, length_app. Qed.

Lemma count_events_writes (p : event -> bool) (ws : list write) :
  (forall i pos data, p (MmapWrite i pos data) = false) ->
  count_events p (map write_event ws) = 0%nat.
Proof.
  intros Hp. induction ws as [|[[i pos] data] ws IH]; [reflexivity|].
  unfold count_events in *. simpl. now rewrite Hp.
Qed.

Lemma count_events_mkdir (p : event -> bool) (disk : filesystem) :
  p Mkdir = false -> count_events p (mkdir_events disk) = 0%nat.
Proof.
  intros Hp. unfold mkdir_events, count_events.
  destruct (directory disk); simpl; [reflexivity | now rewrite Hp].
Qed.

Lemma mmap_writes_app (t1 t2 : list event) :
  mmap_writes (t1 ++ t2) = mmap_writes t1 ++ mmap_writes t2.
Proof.
  induction t1 as [|e t1 IH]; [reflexivity|].
  destruct e; simpl; rewrite IH; reflexivity.
Qed.

Lemma mmap_writes_events (ws : list write) :
  mmap_writes (map write_event ws) = ws.
Proof.
  induction ws as [|[[i pos] data] ws IH]; [reflexivity|].
  simpl. now rewrite IH.
Qed.

Lemma mmap_writes_mkdir (disk : filesystem) :
  mmap_writes (mkdir_events disk) = [].
Proof. unfold mkdir_events. now destruct (directory disk). Qed.

Lemma in_mkdir_events (disk : filesystem) (e : event) :
  In e (mkdir_events disk) -> e = Mkdir.
Proof.
  unfold mkdir_events. destruct (directory disk); simpl; [tauto|].
  intros [H|[]]; now symmetry.
Qed.

Lemma in_write_events (ws : list write) (e : event) :
  In e (map write_event ws) -> exists i pos data, e = MmapWrite i pos data.
Proof.
  intros H. apply in_map_iff in H. destruct H as ([[i pos] data] & <- & _).
  now exists i, pos, data.
Qed.

End Traces.

(** The counters of a trace built from the pieces of a run. *)
Ltac count_trace :=
  repeat rewrite count_events_app;
  repeat rewrite count_events_writes by reflexivity;
  repeat rewrite count_events_mkdir by reflexivity;
  cbn.

(* ================================================================== *)
(** ** The preflight *)
(* ================================================================== *)

(** The preflight failure on a disk that still holds the temporary file of
    an earlier run: the [finally] clause reads the unbound [temp_path],
    so the call raises instead of returning [False], nothing is cleaned
    up, and the old file stays. *)
Example preflight_failure_on_littered_disk :
  let '(st, out) :=
    generate_full_8digit_combinations small (calm [0;1;2;3]%nat) littered in
  out = Propagated UnboundLocalError_temp_path
  /\ temp_file (fs st) = temp_file littered
  /\ trace st = [LogFatal (IOError_insufficient_space 180 100)]
  /\ main small (calm [0;1;2;3]%nat) littered = 1.
Proof. vm_compute. repeat split; reflexivity. Qed.

(* ================================================================== *)
(** ** The end of the temporary file *)
(* ================================================================== *)

(** The claimed "deleted or renamed exactly once" fails on a run that ends
    in the preflight failure: nothing is deleted and nothing is renamed. *)
Lemma preflight_failure_deletes_nothing :
  let st := fst (generate_full_8digit_combinations small (calm [0;1;2;3]%nat) cramped) in
  snd (generate_full_8digit_combinations small (calm [0;1;2;3]%nat) cramped)
    <> Returned true
  /\ (count_events is_unlink (trace st) + count_events is_rename (trace st))%nat
     <> 1%nat.
Proof. vm_compute. split; intros H; discriminate. Qed.

(** C7 (amended).  A run that created the temporary file and does not end
    in success deletes it exactly once and never renames it, and no
    temporary file is left; a run that ends in success renames it exactly
    once and never deletes it, and the published output stays in place; a
    run that never created the temporary file neither deletes nor renames
    it.  Whenever the run does not end in success, the output path is as
    it was before the run. *)
Theorem temp_deleted_or_renamed_once (cfg : config) (env : run_env)
    (disk : filesystem) :
  let st := fst (generate_full_8digit_combinations cfg env disk) in
  let out := snd (generate_full_8digit_combinations cfg env disk) in
  let created := count_events is_create_temp (trace st) in
  let deleted := count_events is_unlink (trace st) in
  let renamed := count_events is_rename (trace st) in
  (out <> Returned true -> output_file (fs st) = output_file disk)
  /\ (created = 1%nat -> out <> Returned true ->
        deleted = 1%nat /\ renamed = 0%nat /\ temp_file (fs st) = None)
  /\ (out = Returned true ->
        created = 1%nat /\ renamed = 1%nat /\ deleted = 0%nat
        /\ temp_file (fs st) = None /\ output_file (fs st) <> None)
  /\ (created = 0%nat -> deleted = 0%nat /\ renamed = 0%nat)
  /\ (created <= 1)%nat.
Proof.
  intros st out created deleted renamed.
  pose proof (run_has_shape cfg env disk) as Hshape.
  fold st out in Hshape.
  subst created deleted renamed.
  destruct Hshape as [Hfree|Hfree Hneg|e Hfree Hcase|chunks datas mm' e Hsz Hch Hd Hap Hex
                      |chunks datas mm' Hsz Hch Hd Hap];
    cbn [fs trace temp_file output_file set_temp with_directory].
  - count_trace. repeat split; auto; try congruence; lia.
  - count_trace. repeat split; auto; try congruence; lia.
  - unfold setup_events, teardown_events. count_trace.
    repeat split; auto; try congruence; lia.
  - unfold setup_events, teardown_events, log_of, tail_events.
    destruct e; cbn in Hex; try contradiction; count_trace;
      repeat split; auto; try congruence; lia.
  - unfold setup_events. count_trace.
    repeat split; auto; try congruence; try lia.
Qed.

(** A run that is interrupted after its first chunk. *)
Lemma temp_deleted_or_renamed_once_witness :
  let env := {| interrupted := fun i => Nat.leb 1 i; worker := fun _ => quiet;
                finished := [0;1;2;3]%nat |} in
  let st := fst (generate_full_8digit_combinations small env roomy) in
  count_events is_unlink (trace st) = 1%nat
  /\ count_events is_rename (trace st) = 0%nat
  /\ temp_file (fs st) = None.
Proof.
  intros env st.
  apply (temp_deleted_or_renamed_once small env roomy);
    vm_compute; [reflexivity | discriminate].
Defined.

(* ================================================================== *)
(** ** What the launcher learns *)
(* ================================================================== *)

(** The claimed distinction fails: an interruption and a chunk fault give
    the launcher the same value and the same exit status, and the report
    of a chunk fault is the same whichever chunk faulted. *)
Lemma failures_look_alike :
  snd (generate_full_8digit_combinations small interrupted_at_once roomy)
  = snd (generate_full_8digit_combinations small (faulty_chunk 1) roomy)
  /\ main small interrupted_at_once roomy = main small (faulty_chunk 1) roomy
  /\ snd (generate_full_8digit_combinations small (faulty_chunk 1) roomy)
     = snd (generate_full_8digit_combinations small (faulty_chunk 2) roomy)
  /\ filter is_report
       (trace (fst (generate_full_8digit_combinations small (faulty_chunk 1) roomy)))
     = filter is_report
         (trace (fst (generate_full_8digit_combinations small (faulty_chunk 2) roomy))).
Proof. vm_compute. repeat split; reflexivity. Qed.

(* ================================================================== *)
(** ** Runs over a proper partition *)
(* ================================================================== *)

Lemma combine_map_self {A B : Type} (g : A -> B) (l : list A) :
  combine l (map g l) = map (fun a => (a, g a)) l.
Proof. induction l as [|a l IH]; simpl; [reflexivity | now rewrite IH]. Qed.

Lemma mapi_map_seq {A B : Type} (f : nat -> A -> B) (g : nat -> A) (n : nat) :
  mapi f (map g (seq 0 n)) = map (fun j => f j (g j)) (seq 0 n).
Proof.
  unfold mapi. rewrite length_map, length_seq, combine_map_self, map_map.
  reflexivity.
Qed.

Section ProperRun.

Variable cfg : config.
Variable env : run_env.
Hypothesis HN : 0 < TOTAL_ENTRIES cfg.
Hypothesis HC : 0 < CHUNK_SIZE cfg.
Hypothesis Hfin : Permutation (finished env) (seq 0 (chunk_count cfg)).

(** The pool hands over the results in the order of the chunks. *)
Lemma chunk_results_in_order :
  chunk_results env (all_chunks cfg) = map (chunk_result cfg env) (seq 0 (chunk_count cfg)).
Proof.
  unfold chunk_results.
  rewrite pool_imap_in_order
    by (unfold all_chunks; rewrite length_map, length_seq; exact Hfin).
  unfold all_chunks. rewrite mapi_map_seq. reflexivity.
Qed.

Lemma chunk_result_some (j : nat) (data : list byte) :
  (j < chunk_count cfg)%nat ->
  chunk_result cfg env j = Some data -> data = chunk_data cfg j.
Proof.
  intros Hj H. unfold chunk_result in H. unfold chunk_data.
  apply generate_chunk_some in H; [exact H|].
  pose proof (chunk_bounds cfg HN HC j Hj). unfold chunk_at. cbn [fst snd]. nia.
Qed.

(** The results the loop wrote are the data of the first chunks. *)
Lemma written_prefix (datas : list (list byte)) :
  map Some datas = firstn (List.length datas) (chunk_results env (all_chunks cfg)) ->
  (List.length datas <= chunk_count cfg)%nat
  /\ datas = map (chunk_data cfg) (seq 0 (List.length datas))
  /\ (forall p, (p < List.length datas)%nat ->
        chunk_result cfg env p = Some (chunk_data cfg p)).
Proof.
  rewrite chunk_results_in_order. intros H.
  assert (Hlen : (List.length datas <= chunk_count cfg)%nat).
  { apply (f_equal (@List.length _)) in H.
    rewrite length_map, length_firstn, length_map, length_seq in H. lia. }
  assert (Hp : forall p d, nth_error datas p = Some d ->
            chunk_result cfg env p = Some d /\ d = chunk_data cfg p).
  { intros p d Hd.
    assert (Hlt : (p < List.length datas)%nat)
      by (apply nth_error_Some; congruence).
    assert (Hn : nth_error (map Some datas) p = Some (Some d))
      by (rewrite nth_error_map, Hd; reflexivity).
    rewrite H, nth_error_firstn in Hn.
    apply Nat.ltb_lt in Hlt. rewrite Hlt in Hn. apply Nat.ltb_lt in Hlt.
    rewrite nth_error_map_seq in Hn.
    destruct (p <? chunk_count cfg)%nat eqn:E; [|discriminate].
    apply Nat.ltb_lt in E. inversion Hn as [Hr].
    split; [reflexivity|].
    apply chunk_result_some; [exact E | exact Hr]. }
  split; [exact Hlen|]. split.
  - apply nth_error_ext. intros p.
    rewrite nth_error_map_seq.
    destruct (p <? List.length datas)%nat eqn:E.
    + apply Nat.ltb_lt in E.
      destruct (nth_error datas p) as [d|] eqn:Hd.
      * f_equal. apply Hp. exact Hd.
      * apply nth_error_None in Hd. lia.
    + apply Nat.ltb_ge in E. apply nth_error_None. exact E.
  - intros p Hlt.
    destruct (nth_error datas p) as [d|] eqn:Hd.
    + destruct (Hp p d Hd) as (Hr & ->). exact Hr.
    + apply nth_error_None in Hd. lia.
Qed.

(** The slice assignments of a run: the data of the chunks
    [0, 1, ..., m-1], in this order, for some [m]; all chunks when the
    run ends in success. *)
Lemma run_writes (disk : filesystem) :
  let st := fst (generate_full_8digit_combinations cfg env disk) in
  let out := snd (generate_full_8digit_combinations cfg env disk) in
  exists m,
    (m <= chunk_count cfg)%nat
    /\ mmap_writes (trace st)
       = writes_from cfg 0 (map (chunk_data cfg) (seq 0 m))
    /\ (forall p, (p < m)%nat ->
          chunk_result cfg env p = Some (chunk_data cfg p))
    /\ (out = Returned true -> m = chunk_count cfg).
Proof.
  intros st out.
  pose proof (run_has_shape cfg env disk) as Hshape. fold st out in Hshape.
  pose proof (make_chunks_eq cfg HN HC) as Hmk. fold (all_chunks cfg) in Hmk.
  destruct Hshape as [Hfree|Hfree Hneg|e Hfree Hcase|cs datas mm' e Hsz Hch Hd Hap Hex
                      |cs datas mm' Hsz Hch Hd Hap];
    cbn [trace];
    try (exists 0%nat;
         repeat rewrite mmap_writes_app; rewrite mmap_writes_mkdir;
         repeat split; [lia | intros; lia | intros; discriminate]).
  - rewrite Hmk in Hch. inversion Hch; subst cs.
    destruct (written_prefix datas Hd) as (Hlen & Hdat & Hres).
    exists (List.length datas).
    repeat rewrite mmap_writes_app.
    rewrite mmap_writes_mkdir, mmap_writes_events.
    replace (mmap_writes (tail_events (Some e))) with (@nil write)
      by (destruct e; reflexivity).
    replace (mmap_writes [log_of e]) with (@nil write)
      by (destruct e; reflexivity).
    cbn [setup_events teardown_events mmap_writes app].
    rewrite app_nil_r, <- Hdat.
    repeat split; auto. intros; discriminate.
  - rewrite Hmk in Hch. inversion Hch; subst cs.
    assert (Hd' : map Some datas
                  = firstn (List.length datas) (chunk_results env (all_chunks cfg))).
    { rewrite <- Hd. symmetry. apply firstn_all2. rewrite length_map. lia. }
    destruct (written_prefix datas Hd') as (Hlen & Hdat & Hres).
    exists (List.length datas).
    repeat rewrite mmap_writes_app.
    rewrite mmap_writes_mkdir, mmap_writes_events.
    cbn [setup_events mmap_writes app]. rewrite app_nil_r, <- Hdat.
    repeat split; auto.
    intros _. apply (f_equal (@List.length _)) in Hd.
    rewrite length_map, chunk_results_in_order, length_map, length_seq in Hd.
    exact Hd.
Qed.

End ProperRun.

Lemma writes_from_map_seq (cfg : config) (g : nat -> list byte) (m : nat) :
  writes_from cfg 0 (map g (seq 0 m))
  = map (fun j => write_of cfg j (g j)) (seq 0 m).
Proof.
  unfold writes_from.
  rewrite length_map, length_seq, combine_map_self, map_map. reflexivity.
Qed.

Section ProperRunWidth9.

Variable cfg : config.
Variable env : run_env.
Hypothesis HN : 0 < TOTAL_ENTRIES cfg.
Hypothesis HC : 0 < CHUNK_SIZE cfg.
Hypothesis HW : ENTRY_LENGTH cfg = 9.
Hypothesis Hfin : Permutation (finished env) (seq 0 (chunk_count cfg)).

Lemma file_size_pos : 0 < file_size cfg.
Proof. unfold file_size. rewrite HW. lia. Qed.

(** After the loop has written [m] results, the mapping holds the
    records in front of chunk [m] and is untouched behind them. *)
Lemma prefix_fills (datas : list (list byte)) (mm' : list byte) :
  map Some datas = firstn (List.length datas) (chunk_results env (all_chunks cfg)) ->
  apply_writes (repeat x00 (Z.to_nat (file_size cfg))) (writes_from cfg 0 datas)
    = Some mm' ->
  mm' = filled cfg (List.length datas).
Proof.
  intros Hd Hap.
  destruct (written_prefix cfg env HN HC Hfin datas Hd) as (Hlen & Hdat & _).
  rewrite Hdat in Hap. unfold file_size in Hap.
  rewrite <- (filled_start cfg HN HW) in Hap.
  rewrite (apply_writes_fill cfg HN HC HW) in Hap by lia.
  cbn [Nat.add] in Hap. inversion Hap. reflexivity.
Qed.

(** With the record width the generator formats, no slice assignment
    raises. *)
Lemma no_index_error (datas : list (list byte)) (mm' : list byte) :
  map Some datas = firstn (List.length datas) (chunk_results env (all_chunks cfg)) ->
  apply_writes (repeat x00 (Z.to_nat (file_size cfg))) (writes_from cfg 0 datas)
    = Some mm' ->
  ~ loop_exit cfg env 0 (chunk_results env (all_chunks cfg)) (List.length datas) mm'
      (Some IndexError_mmap_slice).
Proof.
  intros Hd Hap (data & Hnth & _ & Hw).
  pose proof (prefix_fills datas mm' Hd Hap) as ->.
  rewrite chunk_results_in_order in Hnth by assumption.
  rewrite nth_error_map_seq in Hnth.
  destruct (List.length datas <? chunk_count cfg)%nat eqn:E; [|discriminate].
  apply Nat.ltb_lt in E. inversion Hnth as [Hr].
  apply chunk_result_some in Hr; try assumption. subst data.
  cbn [Nat.add] in Hw. unfold write_of in Hw. cbn [apply_writes] in Hw.
  pose proof (setslice_fill cfg HN HC HW _ E) as Hset. cbv zeta in Hset.
  rewrite Hset in Hw. discriminate.
Qed.

Lemma run_no_index_error (disk : filesystem) :
  count_events is_index_error
    (trace (fst (generate_full_8digit_combinations cfg env disk))) = 0%nat.
Proof.
  pose proof (run_has_shape cfg env disk) as Hshape.
  pose proof (make_chunks_eq cfg HN HC) as Hmk. fold (all_chunks cfg) in Hmk.
  pose proof file_size_pos as Hpos.
  destruct Hshape as [Hfree|Hfree Hneg|e Hfree Hcase|cs datas mm' e Hsz Hch Hd Hap Hex
                      |cs datas mm' Hsz Hch Hd Hap];
    cbn [trace]; unfold setup_events, teardown_events.
  - count_trace. reflexivity.
  - count_trace. reflexivity.
  - destruct Hcase as [(Hz & ->)|(_ & Hnone & ->)]; [lia | congruence].
  - rewrite Hmk in Hch. inversion Hch; subst cs.
    destruct e; cbn in Hex; try contradiction; unfold log_of, tail_events;
      count_trace; try reflexivity.
    exfalso. apply (no_index_error datas mm' Hd Hap). exact Hex.
  - count_trace. reflexivity.
Qed.

(** A run that returns [True] has published the records of all the
    numbers the chunks hold. *)
Lemma run_output (disk : filesystem) :
  snd (generate_full_8digit_combinations cfg env disk) = Returned true ->
  output_file (fs (fst (generate_full_8digit_combinations cfg env disk)))
  = Some (encode_records (Np.arange_uint32 0 (TOTAL_ENTRIES cfg))).
Proof.
  pose proof (run_has_shape cfg env disk) as Hshape.
  pose proof (make_chunks_eq cfg HN HC) as Hmk. fold (all_chunks cfg) in Hmk.
  destruct Hshape as [Hfree|Hfree Hneg|e Hfree Hcase|cs datas mm' e Hsz Hch Hd Hap Hex
                      |cs datas mm' Hsz Hch Hd Hap];
    intros Hout; try discriminate.
  rewrite Hmk in Hch. inversion Hch; subst cs.
  assert (Hd' : map Some datas
                = firstn (List.length datas) (chunk_results env (all_chunks cfg))).
  { rewrite <- Hd. symmetry. apply firstn_all2.
    rewrite length_map. lia. }
  pose proof (prefix_fills datas mm' Hd' Hap) as ->.
  assert (Hlen : List.length datas = chunk_count cfg).
  { apply (f_equal (@List.length _)) in Hd.
    rewrite length_map, chunk_results_in_order, length_map, length_seq in Hd
      by assumption.
    exact Hd. }
  rewrite Hlen, (filled_end cfg HN HC). reflexivity.
Qed.

(** Undisturbed and with room on the disk, the run does return [True]. *)
Lemma calm_run_succeeds (disk : filesystem) :
  file_size cfg <= free_bytes disk ->
  (forall i, interrupted env i = false) ->
  (forall i s, flag (worker env i) s = false) ->
  (forall i k, raises (worker env i) k = false) ->
  snd (generate_full_8digit_combinations cfg env disk) = Returned true.
Proof.
  intros Hroom Hint Hflag Hraise.
  pose proof (run_has_shape cfg env disk) as Hshape.
  pose proof (make_chunks_eq cfg HN HC) as Hmk. fold (all_chunks cfg) in Hmk.
  pose proof file_size_pos as Hpos.
  destruct Hshape as [Hfree|Hfree Hneg|e Hfree Hcase|cs datas mm' e Hsz Hch Hd Hap Hex
                      |cs datas mm' Hsz Hch Hd Hap];
    try lia; try reflexivity.
  - destruct Hcase as [(Hz & _)|(_ & Hnone & _)]; [lia | congruence].
  - exfalso. rewrite Hmk in Hch. inversion Hch; subst cs.
    destruct e; cbn in Hex; try contradiction.
    + destruct Hex as (_ & Hi). rewrite Hint in Hi. discriminate.
    + destruct Hex as (Hnth & _).
      rewrite chunk_results_in_order in Hnth by assumption.
      rewrite nth_error_map_seq in Hnth.
      destruct (List.length datas <? chunk_count cfg)%nat eqn:E; [|discriminate].
      apply Nat.ltb_lt in E. inversion Hnth as [Hr].
      unfold chunk_result in Hr.
      rewrite generate_chunk_quiet in Hr; auto; [discriminate|].
      pose proof (chunk_bounds cfg HN HC _ E).
      unfold chunk_at. cbn [fst snd]. nia.
    + apply (no_index_error datas mm' Hd Hap). exact Hex.
Qed.

End ProperRunWidth9.

(* ================================================================== *)
(** ** Slice assignments and the size of the mapping *)
(* ================================================================== *)

(** The claimed bound fails for [N = 20], [W = 5], [C = 5]: the buffer of a
    chunk has 45 bytes, not [(end - start) * W = 25], the assignment for
    the last chunk would cover [[75, 120)] in a file of 100 bytes, and the
    run stops on the [IndexError] of that assignment. *)
Lemma narrow_write_out_of_bounds :
  0 < TOTAL_ENTRIES narrow /\ 0 < CHUNK_SIZE narrow /\ 0 < ENTRY_LENGTH narrow
  /\ (exists data,
        generate_chunk quiet 15 20 = Some data
        /\ Py.len data <> (20 - 15) * ENTRY_LENGTH narrow
        /\ TOTAL_ENTRIES narrow * ENTRY_LENGTH narrow
           < 3 * CHUNK_SIZE narrow * ENTRY_LENGTH narrow + Py.len data)
  /\ count_events is_index_error
       (trace (fst (generate_full_8digit_combinations narrow
                      (calm [0;1;2;3]%nat) roomy))) = 1%nat
  /\ snd (generate_full_8digit_combinations narrow (calm [0;1;2;3]%nat) roomy)
     = Returned false.
Proof.
  repeat split; try reflexivity.
  eexists. split; [reflexivity|]. vm_compute. split; [discriminate | reflexivity].
Qed.

(** C10 (amended).  With the record width [W = 9] that the generator
    formats, and [N, C > 0]: the slice assignment for chunk [p] starts at
    [p * C * W], its buffer has [(end - start) * W] bytes, and the bytes
    it covers lie inside the preallocated [N * W] bytes, also for the
    last, shorter chunk; no slice assignment of the run raises. *)
Theorem writes_within_mapping (cfg : config) (env : run_env) (disk : filesystem) :
  let N := TOTAL_ENTRIES cfg in
  let C := CHUNK_SIZE cfg in
  let W := ENTRY_LENGTH cfg in
  0 < N -> 0 < C -> W = 9 ->
  Permutation (finished env) (seq 0 (chunk_count cfg)) ->
  let st := fst (generate_full_8digit_combinations cfg env disk) in
  (forall p i pos data, nth_error (mmap_writes (trace st)) p = Some (i, pos, data) ->
     pos = Z.of_nat p * C * W
     /\ Py.len data = (snd (chunk_at cfg p) - fst (chunk_at cfg p)) * W
     /\ 0 <= pos
     /\ pos + Py.len data <= N * W)
  /\ count_events is_index_error (trace st) = 0%nat.
Proof.
  intros N C W HN HC HW Hfin st.
  split; [|apply run_no_index_error; assumption].
  destruct (run_writes cfg env HN HC Hfin disk) as (m & Hm & Hws & _ & _).
  fold st in Hws.
  intros p i pos data H.
  rewrite Hws, writes_from_map_seq, nth_error_map_seq in H.
  destruct (p <? m)%nat eqn:E; [|discriminate].
  apply Nat.ltb_lt in E. unfold write_of in H. inversion H; subst i pos data.
  assert (Hp : (p < chunk_count cfg)%nat) by lia.
  pose proof (chunk_bounds cfg HN HC p Hp) as Hb. fold N C in Hb.
  assert (Hlen : Py.len (chunk_data cfg p)
                 = (snd (chunk_at cfg p) - fst (chunk_at cfg p)) * 9).
  { unfold chunk_data. apply length_chunk_records.
    unfold chunk_at. cbn [fst snd]. fold N C. nia. }
  fold C W. rewrite Hlen, HW. unfold chunk_at. cbn [fst snd]. fold N C.
  repeat split; lia.
Qed.

Lemma writes_within_mapping_witness :
  let st := fst (generate_full_8digit_combinations small reversed roomy) in
  (forall p i pos data, nth_error (mmap_writes (trace st)) p = Some (i, pos, data) ->
     pos = Z.of_nat p * 5 * 9
     /\ Py.len data = (snd (chunk_at small p) - fst (chunk_at small p)) * 9
     /\ 0 <= pos
     /\ pos + Py.len data <= 20 * 9)
  /\ count_events is_index_error (trace st) = 0%nat.
Proof.
  apply (writes_within_mapping small reversed roomy);
    [reflexivity | reflexivity | reflexivity |].
  apply Permutation_sym. exact (Permutation_rev [0; 1; 2; 3]%nat).
Defined.

(* ================================================================== *)
(** ** The published file *)
(* ================================================================== *)

(** The claim fails for [N = 20], [W = 10], [C = 5], a configuration in
    which every value fits [W - 1 = 9] digits: the run returns [True], and
    the published file has [N * W] bytes, but it is not the concatenation
    of the records with nine digits: the generator wrote records with
    eight digits at the positions of records with nine. *)
Lemma wide_output_differs :
  let st := fst (generate_full_8digit_combinations wide (calm [0;1;2;3]%nat) roomy) in
  0 < TOTAL_ENTRIES wide /\ 0 < ENTRY_LENGTH wide /\ 0 < CHUNK_SIZE wide
  /\ TOTAL_ENTRIES wide <= 10 ^ (ENTRY_LENGTH wide - 1)
  /\ snd (generate_full_8digit_combinations wide (calm [0;1;2;3]%nat) roomy)
     = Returned true
  /\ exists content,
       output_file (fs st) = Some content
       /\ Py.len content = TOTAL_ENTRIES wide * ENTRY_LENGTH wide
       /\ content <> expected_output wide.
Proof.
  vm_compute. repeat split; try discriminate.
  eexists. repeat split. discriminate.
Qed.

Section PublishedFile.

Variable cfg : config.
Hypothesis HN : 0 < TOTAL_ENTRIES cfg <= 100000000.
Hypothesis HW : ENTRY_LENGTH cfg = 9.

(** With eight digits and values below [10 ^ 8] the records the workers
    format are the records the output format asks for. *)
Lemma records_as_expected :
  encode_records (Np.arange_uint32 0 (TOTAL_ENTRIES cfg)) = expected_output cfg.
Proof.
  unfold encode_records, expected_output, Np.arange_uint32.
  rewrite map_map, HW, Z.sub_0_r. f_equal.
  apply map_ext_in. intros k Hk. apply in_seq in Hk.
  rewrite Z.add_0_l, Z.mod_small
    by (unfold Np.uint32_modulus; change (2 ^ 32) with 4294967296; lia).
  rewrite format_record_exact by lia. reflexivity.
Qed.

Lemma length_expected_output :
  Py.len (expected_output cfg) = TOTAL_ENTRIES cfg * ENTRY_LENGTH cfg.
Proof.
  rewrite <- records_as_expected. unfold Py.len.
  rewrite length_encode_records, length_arange, HW. lia.
Qed.

Lemma decode_expected_output :
  decode_records 9 (expected_output cfg)
  = map Z.of_nat (seq 0 (Z.to_nat (TOTAL_ENTRIES cfg))).
Proof.
  rewrite <- records_as_expected. unfold decode_records.
  rewrite length_encode_records, length_arange, Z.sub_0_r.
  rewrite Nat.div_mul by discriminate.
  apply map_ext_in. intros j Hj. apply in_seq in Hj.
  rewrite record_at_encode_records by (rewrite length_arange; lia).
  rewrite nth_arange by (try lia; change (2 ^ 32) with 4294967296; lia).
  rewrite Z.add_0_l, format_record_exact by lia.
  apply decode_padded_record. lia.
Qed.

End PublishedFile.

(** C1 (amended).  For the record width [W = 9] that the generator
    formats, every [N] with [0 < N <= 10 ^ 8] (the values that fit eight
    digits) and every [C > 0]: a run that returns [True] leaves at the
    output path a file of exactly [N * W] bytes, the concatenation for
    [v = 0, 1, ..., N-1] in ascending order of the zero-padded eight-digit
    decimal text of [v] and one newline byte; reading the records back
    gives [0, 1, ..., N-1], each once. *)
Theorem run_output_complete (cfg : config) (env : run_env) (disk : filesystem) :
  let N := TOTAL_ENTRIES cfg in
  let W := ENTRY_LENGTH cfg in
  W = 9 -> 0 < N <= 100000000 -> 0 < CHUNK_SIZE cfg ->
  Permutation (finished env) (seq 0 (chunk_count cfg)) ->
  snd (generate_full_8digit_combinations cfg env disk) = Returned true ->
  exists content,
    output_file (fs (fst (generate_full_8digit_combinations cfg env disk)))
      = Some content
    /\ content = expected_output cfg
    /\ Py.len content = N * W
    /\ decode_records (Z.to_nat W) content = map Z.of_nat (seq 0 (Z.to_nat N))
    /\ NoDup (decode_records (Z.to_nat W) content).
Proof.
  intros N W HW HN HC Hfin Hret.
  exists (expected_output cfg).
  split.
  { rewrite (run_output cfg env ltac:(lia) HC HW Hfin disk Hret).
    f_equal. apply records_as_expected; assumption. }
  split; [reflexivity|].
  split; [apply length_expected_output; assumption|].
  subst N W. rewrite HW. change (Z.to_nat 9) with 9%nat.
  rewrite decode_expected_output by assumption.
  split; [reflexivity|].
  apply Finite.Injective_map_NoDup; [|apply seq_NoDup].
  intros a b Hab. lia.
Qed.

Lemma run_output_complete_witness :
  exists content,
    output_file (fs (fst (generate_full_8digit_combinations small reversed roomy)))
      = Some content
    /\ content = expected_output small
    /\ Py.len content = 20 * 9
    /\ decode_records 9 content = map Z.of_nat (seq 0 20)
    /\ NoDup (decode_records 9 content).
Proof.
  apply (run_output_complete small reversed roomy);
    [reflexivity | cbn; lia | reflexivity | | vm_compute; reflexivity].
  apply Permutation_sym. exact (Permutation_rev [0; 1; 2; 3]%nat).
Defined.

(* ================================================================== *)
(** ** No validation of the digit width *)
(* ================================================================== *)

(** Once the space check has passed, the next thing the run does is to
    create the temporary file. *)
Lemma space_check_then_create (cfg : config) (env : run_env) (disk : filesystem) :
  file_size cfg <= free_bytes disk ->
  exists rest,
    trace (fst (generate_full_8digit_combinations cfg env disk))
    = mkdir_events disk ++ CreateTemp (file_size cfg) :: rest.
Proof.
  intros Hroom.
  pose proof (run_has_shape cfg env disk) as Hshape.
  destruct Hshape as [Hfree|Hfree Hneg|e Hfree Hcase|cs datas mm' e Hsz Hch Hd Hap Hex
                      |cs datas mm' Hsz Hch Hd Hap];
    cbn [trace]; unfold setup_events; cbn [app]; try lia; eauto.
Qed.

(** The claimed fail-fast check is absent.  For [N = 10 ^ 8 + 1] and eight
    digits, the value [10 ^ 8] needs nine digits; the run creates the
    temporary file, returns [True], and has published for [10 ^ 8] the
    record of its first eight digits, the same bytes as the record of
    [10 ^ 7]. *)
Lemma width_not_validated :
  let env := calm (seq 0 11) in
  let st := fst (generate_full_8digit_combinations overfull env vast) in
  (0 <= 100000000 < TOTAL_ENTRIES overfull
   /\ 10 ^ (ENTRY_LENGTH overfull - 1) <= 100000000)
  /\ In (CreateTemp (file_size overfull)) (trace st)
  /\ snd (generate_full_8digit_combinations overfull env vast) = Returned true
  /\ exists content,
       output_file (fs st) = Some content
       /\ record_at 9 content (Z.to_nat 100000000)
          = Py.encode_ascii ("10000000" ++ String "010" "")
       /\ record_at 9 content (Z.to_nat 10000000)
          = Py.encode_ascii ("10000000" ++ String "010" "").
Proof.
  intros env st.
  assert (HN : 0 < TOTAL_ENTRIES overfull) by reflexivity.
  assert (HC : 0 < CHUNK_SIZE overfull) by reflexivity.
  assert (HW : ENTRY_LENGTH overfull = 9) by reflexivity.
  assert (Hfin : Permutation (finished env) (seq 0 (chunk_count overfull))).
  { change (chunk_count overfull) with 11%nat. apply Permutation_refl. }
  assert (Hret : snd (generate_full_8digit_combinations overfull env vast)
                 = Returned true).
  { apply calm_run_succeeds; auto. unfold file_size. cbn. lia. }
  split; [cbn; lia|].
  split.
  { destruct (space_check_then_create overfull env vast) as (rest & Htr).
    - unfold file_size. cbn. lia.
    - unfold st. rewrite Htr. apply in_or_app. right. now left. }
  split; [exact Hret|].
  exists (encode_records (Np.arange_uint32 0 (TOTAL_ENTRIES overfull))).
  split; [apply run_output; assumption|].
  assert (Hrec : forall v, 0 <= v < 100000001 ->
            record_at 9 (encode_records (Np.arange_uint32 0 (TOTAL_ENTRIES overfull)))
              (Z.to_nat v)
            = Py.encode_ascii (format_record v)).
  { intros v Hv.
    rewrite record_at_encode_records
      by (rewrite length_arange; unfold overfull; cbn [TOTAL_ENTRIES]; lia).
    rewrite nth_arange;
      [ | unfold overfull; cbn [TOTAL_ENTRIES]; lia
        | rewrite length_arange || idtac; unfold overfull; cbn [TOTAL_ENTRIES]; lia
        | unfold overfull; cbn [TOTAL_ENTRIES]; change (2 ^ 32) with 4294967296; lia ].
    rewrite Z2Nat.id by lia. reflexivity. }
  split; rewrite Hrec by lia; vm_compute; reflexivity.
Qed.

(** C6 (amended).  The core does not compare [N] with the digit width:
    for every configuration, every run that passes the space check goes on
    to create the temporary file as its next step, whatever [N] and [W]
    are. *)
Theorem no_width_validation (cfg : config) (env : run_env) (disk : filesystem) :
  TOTAL_ENTRIES cfg * ENTRY_LENGTH cfg <= free_bytes disk ->
  let st := fst (generate_full_8digit_combinations cfg env disk) in
  (exists rest,
     trace st = mkdir_events disk
                ++ CreateTemp (TOTAL_ENTRIES cfg * ENTRY_LENGTH cfg) :: rest)
  /\ count_events is_create_temp (trace st) = 1%nat.
Proof.
  intros Hroom st. split.
  - apply (space_check_then_create cfg env disk Hroom).
  - pose proof (run_has_shape cfg env disk) as Hshape. fold st in Hshape.
    destruct Hshape as [Hfree|Hfree Hneg|e Hfree Hcase|cs datas mm' e Hsz Hch Hd Hap Hex
                        |cs datas mm' Hsz Hch Hd Hap];
      cbn [trace]; unfold setup_events, teardown_events, file_size in *;
      try lia; count_trace; try reflexivity.
    unfold log_of, tail_events.
    destruct e; cbn in Hex; try contradiction; count_trace; reflexivity.
Qed.

Lemma no_width_validation_witness :
  let st := fst (generate_full_8digit_combinations narrow (calm [0;1;2;3]%nat) roomy) in
  (exists rest, trace st = mkdir_events roomy ++ CreateTemp (20 * 5) :: rest)
  /\ count_events is_create_temp (trace st) = 1%nat.
Proof.
  apply (no_width_validation narrow (calm [0;1;2;3]%nat) roomy).
  cbn. lia.
Defined.

(* ================================================================== *)
(** * Part III: further properties of the code *)
(* ================================================================== *)

(* ================================================================== *)
(** ** Records beyond eight digits *)
(* ================================================================== *)

Section Truncation.

Lemma append_assoc' (s1 s2 s3 : string) :
  ((s1 ++ s2) ++ s3 = s1 ++ (s2 ++ s3))%string.
Proof.
  induction s1 as [|c s1 IH]; simpl; [reflexivity | now rewrite IH].
Qed.

(** The accumulator is only ever appended to. *)
Lemma digits_acc (fuel : nat) : forall (n : Z) (acc : string),
  Np.digits fuel n acc = (Np.digits fuel n "" ++ acc)%string.
Proof.
  induction fuel as [|fuel IH]; intros n acc; cbn [Np.digits].
  - reflexivity.
  - cbv zeta. destruct (n / 10 =? 0).
    + reflexivity.
    + rewrite IH, (IH _ (String _ "")), append_assoc'. reflexivity.
Qed.

(** More fuel than digits changes nothing. *)
Lemma digits_fuel (fuel : nat) : forall (n : Z) (acc : string),
  (1 <= fuel)%nat -> 0 <= n < 10 ^ Z.of_nat fuel ->
  Np.digits (S fuel) n acc = Np.digits fuel n acc.
Proof.
  induction fuel as [|fuel IH]; intros n acc Hf Hn; [lia|].
  cbn [Np.digits]. cbv zeta.
  destruct (n / 10 =? 0) eqn:Hq; [reflexivity|].
  apply Z.eqb_neq in Hq.
  assert (Hn' : 0 <= n / 10 < 10 ^ Z.of_nat fuel).
  { split; [apply Z.div_pos; lia|].
    apply Z.div_lt_upper_bound; [lia|].
    replace (Z.of_nat (S fuel)) with (Z.succ (Z.of_nat fuel)) in Hn by lia.
    rewrite Z.pow_succ_r in Hn by lia. lia. }
  destruct fuel as [|fuel].
  - exfalso. apply Hq. simpl in Hn'. lia.
  - apply IH; [lia | exact Hn'].
Qed.

(** A number of at least [10 ^ (k - 1)] has at least [k] digits. *)
Lemma digits_length_ge (fuel : nat) : forall (k : nat) (n : Z) (acc : string),
  (1 <= k <= fuel)%nat -> 10 ^ Z.of_nat (k - 1) <= n ->
  (k + String.length acc <= String.length (Np.digits fuel n acc))%nat.
Proof.
  induction fuel as [|fuel IH]; intros k n acc Hk Hn; [lia|].
  cbn [Np.digits]. cbv zeta.
  assert (Hpos : 0 < 10 ^ Z.of_nat (k - 1)) by (apply Z.pow_pos_nonneg; lia).
  destruct (n / 10 =? 0) eqn:Hq.
  - apply Z.eqb_eq in Hq.
    assert (Hlt : n < 10).
    { pose proof (Z.div_mod n 10 ltac:(lia)).
      pose proof (Z.mod_pos_bound n 10 ltac:(lia)). lia. }
    destruct k as [|[|k]]; [lia | simpl; lia |].
    exfalso.
    replace (Z.of_nat (S (S k) - 1)) with (Z.succ (Z.of_nat k)) in Hn by lia.
    rewrite Z.pow_succ_r in Hn by lia.
    assert (0 < 10 ^ Z.of_nat k) by (apply Z.pow_pos_nonneg; lia). lia.
  - destruct k as [|[|k]]; [lia | |].
    + rewrite digits_acc, length_append. simpl. lia.
    + assert (Hn' : 10 ^ Z.of_nat (S k - 1) <= n / 10).
      { replace (Z.of_nat (S (S k) - 1)) with (Z.succ (Z.of_nat (S k - 1))) in Hn by lia.
        rewrite Z.pow_succ_r in Hn by lia.
        apply Z.div_le_lower_bound; lia. }
      specialize (IH (S k) (n / 10)
                     (String (Np.digit_char (n mod 10)) acc) ltac:(lia) Hn').
      simpl in IH. simpl. lia.
Qed.

Lemma substring_prefix (s1 s2 : string) :
  substring 0 (String.length s1) (s1 ++ s2) = s1.
Proof.
  induction s1 as [|c s1 IH]; simpl.
  - destruct s2; reflexivity.
  - now rewrite IH.
Qed.

(** One digit more than the text of [n / 10]. *)
Lemma digits_step (fuel : nat) (n : Z) :
  n / 10 <> 0 ->
  Np.digits (S fuel) n ""
  = (Np.digits fuel (n / 10) "" ++ String (Np.digit_char (n mod 10)) "")%string.
Proof.
  intros Hq. cbn [Np.digits]. cbv zeta.
  apply Z.eqb_neq in Hq. rewrite Hq. apply digits_acc.
Qed.

(** The text of a number in [[10 ^ 7, 10 ^ 8)] has eight characters. *)
Lemma eight_digits (fuel : nat) (n : Z) :
  (8 <= fuel)%nat -> 10000000 <= n < 100000000 ->
  String.length (Np.digits fuel n "") = 8%nat.
Proof.
  intros Hf Hn.
  pose proof (digits_length fuel 8 n "" ltac:(lia)) as Hle.
  pose proof (digits_length_ge fuel 8 n "" ltac:(lia)) as Hge.
  change (10 ^ Z.of_nat 8) with 100000000 in Hle.
  change (10 ^ Z.of_nat (8 - 1)) with 10000000 in Hge.
  simpl String.length in *. lia.
Qed.

Lemma astype_eight_digits (n : Z) :
  10000000 <= n < 100000000 -> Np.astype_U8 n = Np.digits 8 n "".
Proof.
  intros Hn. unfold Np.astype_U8, Np.str_uint32.
  rewrite (digits_fuel 9), (digits_fuel 8)
    by (try lia; cbn; lia).
  apply substring_all. rewrite eight_digits; lia.
Qed.

End Truncation.

(** X1.  The cut of [astype('U8')] is silent: a value of nine digits is
    written as the record of its first eight digits, that is the record
    of [v / 10], and a value of ten digits as the record of [v / 100]. *)
Theorem format_record_drops_digits (v : Z) :
  100000000 <= v < 2 ^ 32 ->
  format_record v
  = format_record (if v <? 1000000000 then v / 10 else v / 100).
Proof.
  change (2 ^ 32) with 4294967296. intros Hv.
  destruct (v <? 1000000000) eqn:Hnine;
    [apply Z.ltb_lt in Hnine | apply Z.ltb_ge in Hnine].
  - assert (Hq : 10000000 <= v / 10 < 100000000).
    { split; [apply Z.div_le_lower_bound; lia
             | apply Z.div_lt_upper_bound; lia]. }
    unfold format_record. f_equal. f_equal.
    rewrite (astype_eight_digits (v / 10)) by exact Hq.
    unfold Np.astype_U8, Np.str_uint32.
    rewrite (digits_fuel 9) by (try lia; cbn; lia).
    rewrite digits_step by lia.
    rewrite <- (eight_digits 8 (v / 10)) at 1 by (try lia; exact Hq).
    apply substring_prefix.
  - assert (Hq1 : 100000000 <= v / 10 < 1000000000).
    { split; [apply Z.div_le_lower_bound; lia
             | apply Z.div_lt_upper_bound; lia]. }
    assert (Hq2 : 10000000 <= v / 10 / 10 < 100000000).
    { split; [apply Z.div_le_lower_bound; lia
             | apply Z.div_lt_upper_bound; lia]. }
    replace (v / 100) with (v / 10 / 10)
      by (rewrite Z.div_div by lia; reflexivity).
    unfold format_record. f_equal. f_equal.
    rewrite (astype_eight_digits (v / 10 / 10)) by exact Hq2.
    unfold Np.astype_U8, Np.str_uint32.
    rewrite digits_step by lia.
    rewrite digits_step by lia.
    rewrite append_assoc'.
    rewrite <- (eight_digits 8 (v / 10 / 10)) at 1 by (try lia; exact Hq2).
    apply substring_prefix.
Qed.

Lemma format_record_drops_digits_witness :
  format_record 123456789
  = format_record (if 123456789 <? 1000000000 then 123456789 / 10
                   else 123456789 / 100).
Proof.
  apply (format_record_drops_digits 123456789). cbn. lia.
Defined.

(** X2.  Below [10 ^ 8] nothing is lost: the number is read back from
    its record, so two different numbers never get the same record. *)
Theorem format_record_injective (u v : Z) :
  0 <= u < 100000000 -> 0 <= v < 100000000 ->
  decode_record (Py.encode_ascii (format_record v)) = v
  /\ (format_record u = format_record v -> u = v).
Proof.
  intros Hu Hv.
  assert (Hback : forall w, 0 <= w < 100000000 ->
            decode_record (Py.encode_ascii (format_record w)) = w).
  { intros w Hw. rewrite format_record_exact by exact Hw.
    apply decode_padded_record. exact Hw. }
  split; [apply Hback; exact Hv|].
  intros Heq. rewrite <- (Hback u Hu), <- (Hback v Hv), Heq. reflexivity.
Qed.

Lemma format_record_injective_witness :
  decode_record (Py.encode_ascii (format_record 42)) = 42
  /\ (format_record 7 = format_record 42 -> 7 = 42).
Proof.
  apply (format_record_injective 7 42); lia.
Defined.

(* ================================================================== *)
(** ** The chunk generator: all or nothing, and the degenerate chunks *)
(* ================================================================== *)

(** X3.  A call of the chunk generator never returns a part of its
    chunk: whatever the flag does and whichever batch faults, the call
    returns either the marker [None] or the records of every number of
    the chunk, nine bytes each, so any two calls that return a buffer
    for the same chunk return the same one. *)
Theorem generate_chunk_all_or_nothing (env env' : worker_env)
    (start stop : Z) (buf buf' : list byte) :
  0 <= start < stop ->
  generate_chunk env start stop = Some buf ->
  buf = encode_records (Np.arange_uint32 start stop)
  /\ Py.len buf = (stop - start) * 9
  /\ (generate_chunk env' start stop = Some buf' -> buf' = buf).
Proof.
  intros Hrange H.
  apply (generate_chunk_some start stop Hrange) in H. subst buf.
  split; [reflexivity|].
  split; [apply length_chunk_records; exact Hrange|].
  intros H'. apply (generate_chunk_some start stop Hrange) in H'. exact H'.
Qed.

Lemma generate_chunk_all_or_nothing_witness :
  let buf := encode_records (Np.arange_uint32 7 9) in
  buf = encode_records (Np.arange_uint32 7 9)
  /\ Py.len buf = (9 - 7) * 9
  /\ (generate_chunk (WorkerEnv (fun _ => false) (fun k => Nat.eqb k 5)) 7 9
      = Some buf -> buf = buf).
Proof.
  apply (generate_chunk_all_or_nothing quiet
           (WorkerEnv (fun _ => false) (fun k => Nat.eqb k 5)) 7 9).
  - lia.
  - reflexivity.
Defined.

(** X4.  An empty chunk is reported as a failure: with [end = start] the
    batch size is [0], [range] raises, and the call returns [None] like a
    cancelled one.  With [end < start] the array is empty, the step
    negative, and the call returns an empty buffer. *)
Theorem generate_chunk_degenerate (env : worker_env) (start stop : Z) :
  flag env 0 = false -> stop <= start ->
  generate_chunk env start stop = if stop =? start then None else Some [].
Proof.
  intros Hf Hs. unfold generate_chunk, generate_chunk_steps. rewrite Hf.
  destruct (stop =? start) eqn:E;
    [apply Z.eqb_eq in E | apply Z.eqb_neq in E].
  - subst stop. rewrite Z.sub_diag. reflexivity.
  - unfold Np.arange_uint32.
    replace (Z.to_nat (stop - start)) with 0%nat by lia.
    cbn [seq map]. unfold Py.len. cbn [List.length Z.of_nat].
    unfold Py.range, Py.range_len.
    replace (Z.min 100000 (stop - start)) with (stop - start) by lia.
    destruct (stop - start =? 0) eqn:E0; [apply Z.eqb_eq in E0; lia|].
    destruct (0 <? stop - start) eqn:E1; [apply Z.ltb_lt in E1; lia|].
    reflexivity.
Qed.

Lemma generate_chunk_degenerate_witness :
  generate_chunk quiet 5 5 = if 5 =? 5 then None else Some [].
Proof.
  apply (generate_chunk_degenerate quiet 5 5); [reflexivity | lia].
Defined.

(* ================================================================== *)
(** ** The chunk generator: the batches of a completed call *)
(* ================================================================== *)

Section Batches.

Variable env : worker_env.
Variable numbers : list Z.
Variable bs : Z.

Lemma batch_loop_some_steps : forall starts k t result tr r,
  batch_loop env numbers bs starts k t result = (tr, Some r) ->
  tr = full_steps numbers bs starts.
Proof.
  induction starts as [|i starts IH]; intros k t result tr r H; simpl in H.
  - inversion H. reflexivity.
  - destruct (flag env t); [discriminate|].
    destruct (raises env k); [discriminate|].
    destruct (batch_loop env numbers bs starts (S k) (S (S t)) _)
      as [tr' r'] eqn:E.
    inversion H; subst. apply IH in E. subst tr'. reflexivity.
Qed.

Lemma batch_sizes_steps (starts : list Z) :
  batch_sizes (full_steps numbers bs starts)
  = map (fun i => List.length (batch_of numbers bs i)) starts.
Proof.
  unfold batch_sizes, full_steps.
  induction starts as [|i starts IH]; simpl; [reflexivity|].
  f_equal. exact IH.
Qed.

Lemma count_batches_steps (starts : list Z) :
  count_batches (full_steps numbers bs starts) = List.length starts.
Proof.
  unfold count_batches, full_steps.
  induction starts as [|i starts IH]; simpl; [reflexivity | now rewrite IH].
Qed.

Lemma count_reads_steps (starts : list Z) :
  count_reads (full_steps numbers bs starts) = List.length starts.
Proof.
  unfold count_reads, full_steps.
  induction starts as [|i starts IH]; simpl; [reflexivity | now rewrite IH].
Qed.

Lemma in_full_steps (starts : list Z) (e : worker_event) :
  In e (full_steps numbers bs starts) -> e = ReadFlag false \/ exists n, e = Batch n.
Proof.
  unfold full_steps. intros H. apply in_flat_map in H.
  destruct H as (i & _ & [H|[H|[]]]); [left | right; eexists];
    symmetry; exact H.
Qed.

End Batches.

Lemma list_sum_lengths {A : Type} (ls : list (list A)) :
  list_sum (map (@List.length A) ls) = List.length (List.concat ls).
Proof.
  induction ls as [|l ls IH]; simpl; [reflexivity|].
  now rewrite length_app, IH.
Qed.

Lemma ceil_div_min (n : Z) :
  0 < n -> ceil_div n (Z.min 100000 n) = ceil_div n 100000.
Proof.
  intros Hn. destruct (Z.le_gt_cases 100000 n) as [Hle|Hgt].
  - now rewrite Z.min_l by lia.
  - rewrite Z.min_r by lia. unfold ceil_div.
    replace (n + n - 1) with (n - 1 + 1 * n) by lia.
    rewrite Z.div_add, Z.div_small by lia.
    symmetry. replace (n + 100000 - 1) with (n - 1 + 1 * 100000) by lia.
    rewrite Z.div_add, Z.div_small by lia. reflexivity.
Qed.

(** X5.  A call that returns a buffer has worked through its chunk in
    [ceil((end - start) / 100000)] batches whose sizes add up to the size
    of the chunk; it has read the shared flag once more than it formatted
    batches, 101 times for a chunk of the script's [CHUNK_SIZE]; no read
    saw the flag up and no batch raised. *)
Theorem completed_chunk_batches (env : worker_env) (start stop : Z)
    (buf : list byte) :
  0 <= start < stop ->
  generate_chunk env start stop = Some buf ->
  let tr := fst (generate_chunk_steps env start stop) in
  Z.of_nat (count_batches tr) = ceil_div (stop - start) 100000
  /\ Z.of_nat (list_sum (batch_sizes tr)) = stop - start
  /\ count_reads tr = S (count_batches tr)
  /\ ~ In (ReadFlag true) tr /\ ~ In Raised tr
  /\ (stop - start = CHUNK_SIZE crunch_v6 -> count_reads tr = 101%nat).
Proof.
  intros Hrange Hsome tr.
  set (numbers := Np.arange_uint32 start stop) in *.
  set (bs := Z.min 100000 (stop - start)) in *.
  assert (Htr : exists starts,
            tr = ReadFlag false :: full_steps numbers bs starts
            /\ Z.of_nat (List.length starts) = ceil_div (stop - start) 100000
            /\ List.concat (map (batch_of numbers bs) starts) = numbers).
  { unfold generate_chunk in Hsome. unfold tr. revert Hsome.
    unfold generate_chunk_steps. fold numbers bs.
    destruct (flag env 0); [discriminate|].
    destruct (batches_cover start stop Hrange) as (starts & Hrg & Hcat).
    fold numbers bs in Hrg, Hcat. rewrite Hrg.
    destruct (batch_loop env numbers bs starts 0 1 []) as [tr' r'] eqn:E.
    cbn [fst snd]. intros ->.
    apply batch_loop_some_steps in E. subst tr'.
    exists starts. split; [reflexivity|]. split; [|exact Hcat].
    assert (Hlen : 0 < Py.len numbers)
      by (unfold Py.len, numbers; rewrite length_arange; lia).
    assert (Hbs : 0 < bs) by (unfold bs; lia).
    rewrite (range_items _ _ Hlen Hbs) in Hrg.
    inversion Hrg; subst starts.
    rewrite length_map, length_seq.
    unfold Py.len, numbers. rewrite length_arange by exact Hrange.
    rewrite (Z2Nat.id (stop - start)) by lia.
    unfold bs. rewrite ceil_div_min by lia.
    apply Z2Nat.id. unfold ceil_div. apply Z.div_pos; lia. }
  destruct Htr as (starts & Htr & Hcount & Hcat).
  assert (Hb : count_batches tr = List.length starts).
  { rewrite Htr. unfold count_batches. cbn [filter is_batch].
    apply count_batches_steps. }
  assert (Hrd : count_reads tr = S (List.length starts)).
  { rewrite Htr. unfold count_reads. cbn [filter is_read List.length].
    f_equal. apply count_reads_steps. }
  split; [rewrite Hb; exact Hcount|].
  split.
  { rewrite Htr. unfold batch_sizes. cbn [flat_map app].
    fold (batch_sizes (full_steps numbers bs starts)).
    rewrite batch_sizes_steps.
    rewrite <- (map_map (batch_of numbers bs) (@List.length Z)).
    rewrite list_sum_lengths, Hcat. unfold numbers.
    rewrite length_arange by exact Hrange. lia. }
  split; [rewrite Hrd, Hb; reflexivity|].
  split.
  { rewrite Htr. intros [H|H]; [discriminate|].
    apply in_full_steps in H. destruct H as [H|(n & H)]; discriminate. }
  split.
  { rewrite Htr. intros [H|H]; [discriminate|].
    apply in_full_steps in H. destruct H as [H|(n & H)]; discriminate. }
  intros Hsize. rewrite Hrd. f_equal.
  rewrite Hsize in Hcount.
  change (ceil_div (CHUNK_SIZE crunch_v6) 100000) with 100 in Hcount.
  lia.
Qed.

Lemma completed_chunk_batches_witness :
  let tr := fst (generate_chunk_steps quiet 40 45) in
  Z.of_nat (count_batches tr) = ceil_div (45 - 40) 100000
  /\ Z.of_nat (list_sum (batch_sizes tr)) = 45 - 40
  /\ count_reads tr = S (count_batches tr)
  /\ ~ In (ReadFlag true) tr /\ ~ In Raised tr
  /\ (45 - 40 = CHUNK_SIZE crunch_v6 -> count_reads tr = 101%nat).
Proof.
  apply (completed_chunk_batches quiet 40 45
           (encode_records (Np.arange_uint32 40 45))); [lia | reflexivity].
Defined.

(* ================================================================== *)
(** ** Runs that succeed *)
(* ================================================================== *)

(** X6.  With the record width 9 the generator formats, room on the
    disk, no interrupt and workers that are neither stopped nor faulty,
    the run returns [True], the process exits with status 0, and the
    output file holds the records of [0, ..., N-1], whatever the order in
    which the workers finish their chunks. *)
Theorem undisturbed_run_succeeds (cfg : config) (env : run_env)
    (disk : filesystem) :
  0 < TOTAL_ENTRIES cfg -> 0 < CHUNK_SIZE cfg -> ENTRY_LENGTH cfg = 9 ->
  Permutation (finished env) (seq 0 (chunk_count cfg)) ->
  file_size cfg <= free_bytes disk ->
  (forall i, interrupted env i = false) ->
  (forall i s, flag (worker env i) s = false) ->
  (forall i k, raises (worker env i) k = false) ->
  snd (generate_full_8digit_combinations cfg env disk) = Returned true
  /\ main cfg env disk = 0
  /\ output_file (fs (fst (generate_full_8digit_combinations cfg env disk)))
     = Some (encode_records (Np.arange_uint32 0 (TOTAL_ENTRIES cfg))).
Proof.
  intros HN HC HW Hfin Hroom Hint Hflag Hraise.
  pose proof (calm_run_succeeds cfg env HN HC HW Hfin disk Hroom Hint Hflag Hraise)
    as Hout.
  split; [exact Hout|].
  split; [unfold main; rewrite Hout; reflexivity|].
  apply (run_output cfg env HN HC HW Hfin disk Hout).
Qed.

Lemma undisturbed_run_succeeds_witness :
  snd (generate_full_8digit_combinations ragged (calm [2;0;4;1;3]%nat) roomy)
  = Returned true
  /\ main ragged (calm [2;0;4;1;3]%nat) roomy = 0
  /\ output_file
       (fs (fst (generate_full_8digit_combinations ragged
                   (calm [2;0;4;1;3]%nat) roomy)))
     = Some (encode_records (Np.arange_uint32 0 (TOTAL_ENTRIES ragged))).
Proof.
  apply (undisturbed_run_succeeds ragged (calm [2;0;4;1;3]%nat) roomy);
    try reflexivity; try (cbn; lia).
  change (seq 0 (chunk_count ragged)) with [0;1;2;3;4]%nat.
  apply (perm_trans (l' := [0;2;4;1;3]%nat)); [apply perm_swap|].
  apply perm_skip.
  apply (perm_trans (l' := [2;1;4;3]%nat));
    [apply perm_skip; apply perm_swap|].
  apply (perm_trans (l' := [1;2;4;3]%nat)); [apply perm_swap|].
  do 2 apply perm_skip. apply perm_swap.
Defined.

(** X7.  What a successful run publishes depends on the configuration
    alone: two runs of the same configuration that return [True] leave
    the same bytes at the output path, whatever was on the two disks
    before, in whatever order the workers finished, and whatever else
    the surroundings did. *)
Theorem output_independent_of_surroundings (cfg : config)
    (env1 env2 : run_env) (disk1 disk2 : filesystem) :
  0 < TOTAL_ENTRIES cfg -> 0 < CHUNK_SIZE cfg -> ENTRY_LENGTH cfg = 9 ->
  Permutation (finished env1) (seq 0 (chunk_count cfg)) ->
  Permutation (finished env2) (seq 0 (chunk_count cfg)) ->
  snd (generate_full_8digit_combinations cfg env1 disk1) = Returned true ->
  snd (generate_full_8digit_combinations cfg env2 disk2) = Returned true ->
  output_file (fs (fst (generate_full_8digit_combinations cfg env1 disk1)))
  = output_file (fs (fst (generate_full_8digit_combinations cfg env2 disk2))).
Proof.
  intros HN HC HW Hfin1 Hfin2 Hout1 Hout2.
  rewrite (run_output cfg env1 HN HC HW Hfin1 disk1 Hout1).
  rewrite (run_output cfg env2 HN HC HW Hfin2 disk2 Hout2).
  reflexivity.
Qed.

Lemma output_independent_of_surroundings_witness :
  output_file (fs (fst (generate_full_8digit_combinations small reversed roomy)))
  = output_file (fs (fst (generate_full_8digit_combinations small
                            (calm [0;1;2;3]%nat) vast))).
Proof.
  apply (output_independent_of_surroundings small reversed (calm [0;1;2;3]%nat)
           roomy vast);
    try reflexivity; try (cbn; lia).
  apply Permutation_sym. exact (Permutation_rev [0; 1; 2; 3]%nat).
Defined.

(* ================================================================== *)
(** ** Degenerate configurations *)
(* ================================================================== *)

Section Reports.

Lemma report_writes (ws : list write) :
  filter is_report (map write_event ws) = [].
Proof. induction ws as [|[[i pos] data] ws IH]; [reflexivity | exact IH]. Qed.

Lemma report_mkdir (disk : filesystem) :
  filter is_report (mkdir_events disk) = [].
Proof. unfold mkdir_events. now destruct (directory disk). Qed.

Lemma pool_imap_nil {A B : Type} (f : nat -> A -> B) (order : list nat) :
  pool_imap f [] order = [].
Proof.
  unfold pool_imap.
  assert (H : forall it : imap_iterator B,
            fold_left (fun it i =>
                         match nth_error (@nil A) i with
                         | Some a => imap_set it i (f i a)
                         | None => it
                         end) order it = it).
  { induction order as [|i order IH]; intros it; [reflexivity|].
    cbn [fold_left]. destruct i; cbn [nth_error]; apply IH. }
  rewrite H. reflexivity.
Qed.

Lemma make_chunks_negative (cfg : config) :
  CHUNK_SIZE cfg < 0 -> 0 <= TOTAL_ENTRIES cfg -> make_chunks cfg = Some [].
Proof.
  intros HC HN. unfold make_chunks, Py.range, Py.range_len.
  destruct (CHUNK_SIZE cfg =? 0) eqn:E0; [apply Z.eqb_eq in E0; lia|].
  destruct (0 <? CHUNK_SIZE cfg) eqn:E1; [apply Z.ltb_lt in E1; lia|].
  destruct (TOTAL_ENTRIES cfg <? 0) eqn:E2; [apply Z.ltb_lt in E2; lia|].
  reflexivity.
Qed.

Lemma make_chunks_zero (cfg : config) :
  CHUNK_SIZE cfg = 0 -> make_chunks cfg = None.
Proof. intros HC. unfold make_chunks, Py.range. rewrite HC. reflexivity. Qed.

End Reports.

(** X8.  A negative [CHUNK_SIZE] is not refused: [range] yields no
    chunk, the loop has nothing to do, and the run returns [True] and
    publishes the preallocated file, [N * W] zero bytes, without a single
    slice assignment. *)
Theorem negative_chunk_size_publishes_zeros (cfg : config) (env : run_env)
    (disk : filesystem) :
  CHUNK_SIZE cfg < 0 -> 0 < TOTAL_ENTRIES cfg -> 0 < ENTRY_LENGTH cfg ->
  file_size cfg <= free_bytes disk ->
  let st := fst (generate_full_8digit_combinations cfg env disk) in
  snd (generate_full_8digit_combinations cfg env disk) = Returned true
  /\ output_file (fs st) = Some (repeat x00 (Z.to_nat (file_size cfg)))
  /\ mmap_writes (trace st) = [].
Proof.
  intros HC HN HW Hroom st.
  pose proof (run_has_shape cfg env disk) as Hshape. fold st in Hshape.
  pose proof (make_chunks_negative cfg HC ltac:(lia)) as Hmk.
  assert (Hpos : 0 < file_size cfg) by (unfold file_size; nia).
  destruct Hshape as [Hfree|Hfree Hneg|e Hfree Hcase|cs datas mm' e Hsz Hch Hd Hap Hex
                      |cs datas mm' Hsz Hch Hd Hap];
    try lia.
  - destruct Hcase as [(Hz & _)|(_ & Hnone & _)]; [lia | congruence].
  - exfalso. rewrite Hmk in Hch. inversion Hch; subst cs.
    unfold chunk_results in Hex. rewrite pool_imap_nil in Hex.
    destruct e; cbn in Hex; try contradiction.
    + destruct Hex as (Hlt & _). lia.
    + destruct Hex as (Hnth & _). destruct (List.length datas); discriminate.
    + destruct Hex as (data & Hnth & _). destruct (List.length datas); discriminate.
  - rewrite Hmk in Hch. inversion Hch; subst cs.
    unfold chunk_results in Hd. rewrite pool_imap_nil in Hd.
    destruct datas as [|d datas]; [|discriminate].
    cbn in Hap. inversion Hap; subst mm'.
    cbn [fs trace output_file]. repeat split.
    rewrite !mmap_writes_app, mmap_writes_mkdir. reflexivity.
Qed.

Lemma negative_chunk_size_publishes_zeros_witness :
  let st := fst (generate_full_8digit_combinations backwards reversed roomy) in
  snd (generate_full_8digit_combinations backwards reversed roomy)
  = Returned true
  /\ output_file (fs st) = Some (repeat x00 (Z.to_nat (file_size backwards)))
  /\ mmap_writes (trace st) = [].
Proof.
  apply (negative_chunk_size_publishes_zeros backwards reversed roomy);
    cbn; lia.
Defined.

(** X9.  An empty output and a [CHUNK_SIZE] of zero are failures that
    clean up after themselves: when [N * W = 0] the mapping of the empty
    temporary file raises, and when [CHUNK_SIZE = 0] the [range] of the
    partitioning raises; either way the run returns [False] with one
    fatal-error message, writes nothing, removes the temporary file it
    had created, and leaves the output path as it was. *)
Theorem empty_or_unsplittable_run_fails (cfg : config) (env : run_env)
    (disk : filesystem) :
  0 <= file_size cfg <= free_bytes disk ->
  file_size cfg = 0 \/ CHUNK_SIZE cfg = 0 ->
  let st := fst (generate_full_8digit_combinations cfg env disk) in
  snd (generate_full_8digit_combinations cfg env disk) = Returned false
  /\ filter is_report (trace st)
     = [LogFatal (if file_size cfg =? 0 then ValueError_mmap_empty
                  else ValueError_range_step)]
  /\ mmap_writes (trace st) = []
  /\ count_events is_create_temp (trace st) = 1%nat
  /\ temp_file (fs st) = None
  /\ output_file (fs st) = output_file disk.
Proof.
  intros Hsize Hcase st.
  pose proof (run_has_shape cfg env disk) as Hshape. fold st in Hshape.
  assert (Hno : 0 < file_size cfg -> make_chunks cfg = None).
  { intros Hpos. apply make_chunks_zero. lia. }
  destruct Hshape as [Hfree|Hfree Hneg|e Hfree Hsetup|cs datas mm' e Hsz Hch Hd Hap Hex
                      |cs datas mm' Hsz Hch Hd Hap];
    try lia;
    try (rewrite Hno in Hch by lia; discriminate).
  cbn [fs trace temp_file output_file set_temp with_directory].
  split; [reflexivity|].
  split.
  { rewrite !filter_app, report_mkdir.
    destruct Hsetup as [(Hz & ->)|(Hpos & _ & ->)].
    - rewrite Hz. reflexivity.
    - destruct (file_size cfg =? 0) eqn:E; [apply Z.eqb_eq in E; lia|].
      reflexivity. }
  split.
  { rewrite !mmap_writes_app, mmap_writes_mkdir.
    destruct e; reflexivity. }
  split.
  { unfold setup_events, teardown_events. count_trace.
    destruct e; reflexivity. }
  split; reflexivity.
Qed.

Lemma empty_or_unsplittable_run_fails_witness :
  let st := fst (generate_full_8digit_combinations stuck reversed roomy) in
  snd (generate_full_8digit_combinations stuck reversed roomy) = Returned false
  /\ filter is_report (trace st)
     = [LogFatal (if file_size stuck =? 0 then ValueError_mmap_empty
                  else ValueError_range_step)]
  /\ mmap_writes (trace st) = []
  /\ count_events is_create_temp (trace st) = 1%nat
  /\ temp_file (fs st) = None
  /\ output_file (fs st) = output_file roomy.
Proof.
  apply (empty_or_unsplittable_run_fails stuck reversed roomy).
  - cbn. lia.
  - right. reflexivity.
Defined.

(* ================================================================== *)
(** ** A record width below nine *)
(* ================================================================== *)

Section MappingSize.

Lemma adjust_index_range (i size : Z) :
  0 <= size -> 0 <= adjust_index i size <= size.
Proof.
  intros Hs. unfold adjust_index.
  destruct (i <? 0) eqn:E1.
  - apply Z.ltb_lt in E1.
    destruct (i + size <? 0) eqn:E2; [lia | apply Z.ltb_ge in E2; lia].
  - apply Z.ltb_ge in E1.
    destruct (size <=? i) eqn:E2; [lia | apply Z.leb_gt in E2; lia].
Qed.

(** A slice assignment never changes the size of the mapping. *)
Lemma setslice_length (mm data mm' : list byte) (a b : Z) :
  mmap_setslice mm a b data = Some mm' -> Py.len mm' = Py.len mm.
Proof.
  unfold mmap_setslice.
  assert (Hs : 0 <= Py.len mm) by (unfold Py.len; lia).
  pose proof (adjust_index_range a (Py.len mm) Hs) as Ha.
  pose proof (adjust_index_range b (Py.len mm) Hs) as Hb.
  set (a' := adjust_index a (Py.len mm)) in *.
  set (b' := adjust_index b (Py.len mm)) in *.
  destruct (b' <? a') eqn:E;
    [apply Z.ltb_lt in E | apply Z.ltb_ge in E];
    (destruct (Py.len data =? _) eqn:El; [|discriminate]);
    apply Z.eqb_eq in El; intros H; inversion H; subst mm';
    unfold Py.len in *;
    rewrite !length_app, length_firstn, length_skipn; lia.
Qed.

Lemma apply_writes_length : forall (ws : list write) (mm mm' : list byte),
  apply_writes mm ws = Some mm' -> Py.len mm' = Py.len mm.
Proof.
  induction ws as [|[[i pos] data] ws IH]; intros mm mm' H; cbn in H.
  - now inversion H.
  - destruct (mmap_setslice mm pos _ data) as [mm1|] eqn:E; [|discriminate].
    apply IH in H. apply setslice_length in E. lia.
Qed.

Lemma apply_writes_app : forall (ws1 ws2 : list write) (mm : list byte),
  apply_writes mm (ws1 ++ ws2)
  = match apply_writes mm ws1 with
    | Some mm1 => apply_writes mm1 ws2
    | None => None
    end.
Proof.
  induction ws1 as [|[[i pos] data] ws1 IH]; intros ws2 mm; cbn.
  - reflexivity.
  - destruct (mmap_setslice mm pos _ data); [apply IH | reflexivity].
Qed.

End MappingSize.

Section NarrowWidth.

Variable cfg : config.
Hypothesis HN : 0 < TOTAL_ENTRIES cfg.
Hypothesis HC : 0 < CHUNK_SIZE cfg.
Hypothesis HW : 0 < ENTRY_LENGTH cfg < 9.

(** The slice assignment of the last chunk reaches past the end of a
    mapping of [N * W] bytes. *)
Lemma last_write_outside (mm : list byte) :
  Py.len mm = file_size cfg ->
  apply_writes mm
    [write_of cfg (chunk_count cfg - 1)
       (chunk_data cfg (chunk_count cfg - 1))] = None.
Proof.
  intros Hlen.
  destruct (ceil_div_bounds _ _ HN HC) as (Hpos & Hlow & Hup).
  assert (Hk : Z.of_nat (chunk_count cfg - 1)
               = ceil_div (TOTAL_ENTRIES cfg) (CHUNK_SIZE cfg) - 1)
    by (unfold chunk_count; lia).
  set (s := Z.of_nat (chunk_count cfg - 1) * CHUNK_SIZE cfg).
  assert (Hs : 0 <= s < TOTAL_ENTRIES cfg) by (unfold s; nia).
  assert (Hd : Py.len (chunk_data cfg (chunk_count cfg - 1))
               = 9 * (TOTAL_ENTRIES cfg - s)).
  { unfold chunk_data, chunk_at, Py.len. cbn [fst snd]. fold s.
    replace (Z.min _ _) with (TOTAL_ENTRIES cfg) by nia.
    rewrite length_encode_records, length_arange. lia. }
  unfold write_of. cbn [apply_writes]. fold s.
  rewrite setslice_outside; [reflexivity | |].
  - rewrite Hlen. unfold file_size. nia.
  - rewrite Hlen, Hd. unfold file_size. nia.
Qed.

End NarrowWidth.

(** X10.  With a record width [W] below the nine bytes the generator
    formats, no run returns [True]: the last chunk never fits what is
    left of the mapping, so the output path is never touched, whatever
    the surroundings do. *)
Theorem narrow_width_never_succeeds (cfg : config) (env : run_env)
    (disk : filesystem) :
  0 < TOTAL_ENTRIES cfg -> 0 < CHUNK_SIZE cfg -> 0 < ENTRY_LENGTH cfg < 9 ->
  Permutation (finished env) (seq 0 (chunk_count cfg)) ->
  snd (generate_full_8digit_combinations cfg env disk) <> Returned true
  /\ main cfg env disk = 1
  /\ output_file (fs (fst (generate_full_8digit_combinations cfg env disk)))
     = output_file disk.
Proof.
  intros HN HC HW Hfin.
  pose proof (run_has_shape cfg env disk) as Hshape.
  pose proof (make_chunks_eq cfg HN HC) as Hmk. fold (all_chunks cfg) in Hmk.
  unfold main.
  destruct Hshape as [Hfree|Hfree Hneg|e Hfree Hcase|cs datas mm' e Hsz Hch Hd Hap Hex
                      |cs datas mm' Hsz Hch Hd Hap];
    try (repeat split; solve [discriminate | reflexivity]).
  exfalso.
  rewrite Hmk in Hch. inversion Hch; subst cs.
  assert (Hd' : map Some datas
                = firstn (List.length datas) (chunk_results env (all_chunks cfg))).
  { rewrite <- Hd. symmetry. apply firstn_all2. rewrite length_map. lia. }
  destruct (written_prefix cfg env HN HC Hfin datas Hd') as (_ & Hdat & _).
  assert (Hlen : List.length datas = chunk_count cfg).
  { apply (f_equal (@List.length _)) in Hd.
    rewrite length_map, chunk_results_in_order, length_map, length_seq in Hd
      by assumption.
    exact Hd. }
  rewrite Hlen in Hdat. rewrite Hdat, writes_from_map_seq in Hap.
  destruct (ceil_div_bounds _ _ HN HC) as (Hpos & _ & _).
  assert (Hk : chunk_count cfg = S (chunk_count cfg - 1))
    by (unfold chunk_count; lia).
  rewrite Hk, seq_S, map_app, apply_writes_app in Hap.
  destruct (apply_writes _ (map _ (seq 0 (chunk_count cfg - 1))))
    as [mm1|] eqn:E1; [|discriminate].
  apply apply_writes_length in E1.
  cbn [map Nat.add] in Hap.
  rewrite (last_write_outside cfg HN HC HW) in Hap; [discriminate|].
  rewrite E1. unfold Py.len. rewrite repeat_length. lia.
Qed.

Lemma narrow_width_never_succeeds_witness :
  snd (generate_full_8digit_combinations narrow reversed roomy) <> Returned true
  /\ main narrow reversed roomy = 1
  /\ output_file (fs (fst (generate_full_8digit_combinations narrow reversed roomy)))
     = output_file roomy.
Proof.
  apply (narrow_width_never_succeeds narrow reversed roomy);
    try (cbn; lia).
  apply Permutation_sym. exact (Permutation_rev [0; 1; 2; 3]%nat).
Defined.

(* ================================================================== *)
(** ** Interruption *)
(* ================================================================== *)

Section Interrupts.

Variable cfg : config.
Variable env : run_env.

(** The loop writes a result only after it has seen the shutdown event
    unset for it. *)
Lemma loop_writes_uninterrupted : forall rs k mm st st' r,
  coordinator_loop cfg env (enumerate_from k rs) mm st = (st', r) ->
  forall j, (List.length (mmap_writes (trace st)) + j
             < List.length (mmap_writes (trace st')))%nat ->
    interrupted env (k + j) = false.
Proof.
  induction rs as [|x rs IH]; intros k mm st st' r H j Hj.
  - cbn in H. inversion H; subst. lia.
  - rewrite enumerate_from_cons in H. cbn [coordinator_loop] in H.
    rewrite Nat2Z.id in H.
    destruct (interrupted env k) eqn:Hint.
    { inversion H; subst. cbn [emit trace] in Hj.
      rewrite mmap_writes_app in Hj. cbn in Hj. rewrite app_nil_r in Hj. lia. }
    destruct x as [data|]; [|inversion H; subst; lia].
    destruct (mmap_setslice mm _ _ data) as [mm1|] eqn:Hset;
      [|inversion H; subst; lia].
    destruct j as [|j]; [now rewrite Nat.add_0_r|].
    replace (k + S j)%nat with (S k + j)%nat by lia.
    apply (IH _ _ _ _ _ H).
    cbn [emit set_fs trace]. rewrite mmap_writes_app, length_app.
    cbn. lia.
Qed.

Lemma run_writes_uninterrupted (disk : filesystem) (j : nat) :
  (j < List.length
         (mmap_writes
            (trace (fst (generate_full_8digit_combinations cfg env disk)))))%nat ->
  interrupted env j = false.
Proof.
  unfold generate_full_8digit_combinations, try_block, check_disk_space.
  fold (file_size cfg).
  set (st1 := ensure_directory_exists (State disk [] false false false)).
  assert (Hst1 : st1 = State (with_directory disk) (mkdir_events disk)
                         false false false).
  { unfold st1, ensure_directory_exists, with_directory, mkdir_events.
    destruct disk as [[|] fr t o]; reflexivity. }
  clearbody st1. subst st1. cbn [fs free_bytes with_directory].
  destruct (free_bytes disk <? file_size cfg).
  { run_steps. rewrite mmap_writes_app, mmap_writes_mkdir. cbn. lia. }
  destruct (file_size cfg <? 0).
  { run_steps. rewrite mmap_writes_app, mmap_writes_mkdir. cbn. lia. }
  destruct (file_size cfg =? 0).
  { run_steps. rewrite mmap_writes_app, mmap_writes_mkdir. cbn. lia. }
  destruct (make_chunks cfg) as [chunks|].
  2:{ run_steps. rewrite mmap_writes_app, mmap_writes_mkdir. cbn. lia. }
  destruct (coordinator_loop cfg env _ _ _) as [st7 r] eqn:Hloop.
  change (Py.enumerate (chunk_results env chunks))
    with (enumerate_from 0 (chunk_results env chunks)) in Hloop.
  pose proof (loop_writes_uninterrupted _ _ _ _ _ _ Hloop j) as Hu.
  apply coordinator_loop_spec in Hloop; [|reflexivity].
  destruct Hloop as (datas & mm' & Hd & Htr & Hap & Hfs & Hp & Hm & Htp & Hex).
  destruct st7 as [f7 tr7 p7 m7 tp7]. cbn in Htr, Hfs, Hp, Hm, Htp. subst.
  destruct r as [e|]; [destruct e|]; revert Hu; run_steps;
    repeat first [ rewrite mmap_writes_app | rewrite mmap_writes_mkdir
                 | rewrite mmap_writes_events | rewrite app_nil_r
                 | progress cbn [mmap_writes app List.length Nat.add] ];
    intros Hu; exact Hu.
Qed.

End Interrupts.

(** X11.  When the shutdown event is found set as the result of chunk [j]
    is taken, and not before, the coordinator has written exactly the
    chunks [0, ..., j-1], in order; it raises the shared flag once, logs
    the interruption, returns [False], removes the temporary file and
    leaves the output path as it was.  The result of chunk [j] itself,
    although it has arrived, is not written. *)
Theorem interrupt_stops_after_prefix (cfg : config) (env : run_env)
    (disk : filesystem) (j : nat) :
  0 < TOTAL_ENTRIES cfg -> 0 < CHUNK_SIZE cfg -> ENTRY_LENGTH cfg = 9 ->
  Permutation (finished env) (seq 0 (chunk_count cfg)) ->
  file_size cfg <= free_bytes disk ->
  (forall i s, flag (worker env i) s = false) ->
  (forall i k, raises (worker env i) k = false) ->
  (j < chunk_count cfg)%nat ->
  (forall i, (i < j)%nat -> interrupted env i = false) ->
  interrupted env j = true ->
  let st := fst (generate_full_8digit_combinations cfg env disk) in
  snd (generate_full_8digit_combinations cfg env disk) = Returned false
  /\ mmap_writes (trace st)
     = writes_from cfg 0 (map (chunk_data cfg) (seq 0 j))
  /\ filter is_report (trace st) = [LogInterrupted]
  /\ count_events is_set_flag (trace st) = 1%nat
  /\ temp_file (fs st) = None
  /\ output_file (fs st) = output_file disk.
Proof.
  intros HN HC HW Hfin Hroom Hflag Hraise Hj Hbefore Hat st.
  pose proof (run_has_shape cfg env disk) as Hshape.
  pose proof (run_writes_uninterrupted cfg env disk) as Hu.
  fold st in Hshape, Hu.
  pose proof (make_chunks_eq cfg HN HC) as Hmk. fold (all_chunks cfg) in Hmk.
  pose proof (file_size_pos cfg HN HW) as Hpos.
  assert (Hlw : forall datas, List.length (writes_from cfg 0 datas)
                              = List.length datas).
  { intros datas. unfold writes_from.
    rewrite length_map, length_combine, length_seq. lia. }
  destruct Hshape as [Hfree|Hfree Hneg|e Hfree Hcase|cs datas mm' e Hsz Hch Hd Hap Hex
                      |cs datas mm' Hsz Hch Hd Hap];
    try lia.
  - destruct Hcase as [(Hz & _)|(_ & Hnone & _)]; [lia | congruence].
  - rewrite Hmk in Hch. inversion Hch; subst cs.
    cbn [trace] in Hu.
    rewrite !mmap_writes_app, mmap_writes_mkdir, mmap_writes_events in Hu.
    cbn [setup_events mmap_writes app] in Hu.
    rewrite length_app, Hlw in Hu.
    destruct e; cbn in Hex; try contradiction.
    + destruct Hex as (Hlt & Hi).
      assert (Hdone : List.length datas = j).
      { destruct (Nat.lt_trichotomy (List.length datas) j) as [Hl|[He|Hg]].
        - rewrite Hbefore in Hi by exact Hl. discriminate.
        - exact He.
        - rewrite Hu in Hat by lia. discriminate. }
      destruct (written_prefix cfg env HN HC Hfin datas Hd) as (_ & Hdat & _).
      rewrite Hdone in Hdat.
      cbn [fs trace temp_file output_file set_temp with_directory].
      split; [reflexivity|].
      split.
      { rewrite !mmap_writes_app, mmap_writes_mkdir, mmap_writes_events.
        cbn. rewrite app_nil_r, Hdat at 1. reflexivity. }
      split.
      { rewrite !filter_app, report_mkdir, report_writes. reflexivity. }
      split; [|split; reflexivity].
      unfold setup_events, teardown_events. count_trace. reflexivity.
    + exfalso. destruct Hex as (Hnth & _).
      rewrite chunk_results_in_order in Hnth by assumption.
      rewrite nth_error_map_seq in Hnth.
      destruct (List.length datas <? chunk_count cfg)%nat eqn:E; [|discriminate].
      apply Nat.ltb_lt in E. inversion Hnth as [Hr].
      unfold chunk_result in Hr.
      rewrite generate_chunk_quiet in Hr; auto; [discriminate|].
      pose proof (chunk_bounds cfg HN HC _ E).
      unfold chunk_at. cbn [fst snd]. nia.
    + exfalso.
      apply (no_index_error cfg env HN HC HW Hfin datas mm' Hd Hap). exact Hex.
  - exfalso. rewrite Hmk in Hch. inversion Hch; subst cs.
    cbn [trace] in Hu.
    rewrite !mmap_writes_app, mmap_writes_mkdir, mmap_writes_events in Hu.
    cbn [setup_events mmap_writes app] in Hu.
    rewrite length_app, Hlw in Hu.
    assert (Hlen : List.length datas = chunk_count cfg).
    { apply (f_equal (@List.length _)) in Hd.
      rewrite length_map, chunk_results_in_order, length_map, length_seq in Hd
        by assumption.
      exact Hd. }
    rewrite Hu in Hat by lia. discriminate.
Qed.

Lemma interrupt_stops_after_prefix_witness :
  let st := fst (generate_full_8digit_combinations small (interrupted_at 2) roomy) in
  snd (generate_full_8digit_combinations small (interrupted_at 2) roomy)
  = Returned false
  /\ mmap_writes (trace st)
     = writes_from small 0 (map (chunk_data small) (seq 0 2))
  /\ filter is_report (trace st) = [LogInterrupted]
  /\ count_events is_set_flag (trace st) = 1%nat
  /\ temp_file (fs st) = None
  /\ output_file (fs st) = output_file roomy.
Proof.
  apply (interrupt_stops_after_prefix small (interrupted_at 2) roomy 2);
    try reflexivity; try (cbn; lia).
  intros i Hi. destruct i as [|[|i]]; [reflexivity | reflexivity | lia].
Defined.

(** X12.  The shared flag is raised exactly in the runs that log the
    interruption, at most once, and a run logs at most one failure: a
    run that logs a fatal error, a chunk fault among them, never raises
    the flag, so its workers are stopped by the termination of the pool
    alone. *)
Theorem flag_raised_only_on_interrupt (cfg : config) (env : run_env)
    (disk : filesystem) :
  let tr := trace (fst (generate_full_8digit_combinations cfg env disk)) in
  count_events is_set_flag tr = count_events is_log_interrupted tr
  /\ (count_events is_report tr <= 1)%nat
  /\ (forall e, In (LogFatal e) tr -> count_events is_set_flag tr = 0%nat).
Proof.
  intros tr.
  pose proof (run_has_shape cfg env disk) as Hshape. fold tr in Hshape.
  assert (Hin : forall pre x rest,
            In x (mkdir_events disk ++ pre ++ rest) ->
            (forall y, In y pre -> y <> x) -> x <> Mkdir -> In x rest).
  { intros pre x rest H Hpre Hx.
    apply in_app_or in H. destruct H as [H|H].
    - apply in_mkdir_events in H. congruence.
    - apply in_app_or in H. destruct H as [H|H]; [|exact H].
      exfalso. exact (Hpre x H eq_refl). }
  unfold tr.
  destruct Hshape as [Hfree|Hfree Hneg|e Hfree Hcase|cs datas mm' e Hsz Hch Hd Hap Hex
                      |cs datas mm' Hsz Hch Hd Hap];
    cbn [trace fst]; unfold setup_events, teardown_events.
  - count_trace. repeat split; auto.
  - count_trace. repeat split; auto.
  - count_trace. destruct e; repeat split; auto.
  - destruct e; cbn in Hex; try contradiction;
      unfold log_of, tail_events; cbn [is_KeyboardInterrupt];
      count_trace; repeat split; auto.
    intros e He. exfalso.
    apply (Hin ([CreateTemp (file_size cfg); ManagerStart; PoolStart]
                ++ map write_event (writes_from cfg 0 datas))) in He.
    + cbn in He. intuition discriminate.
    + intros y Hy. apply in_app_or in Hy. destruct Hy as [Hy|Hy].
      * cbn in Hy. intuition (subst; discriminate).
      * apply in_write_events in Hy. destruct Hy as (i & pos & data & ->).
        discriminate.
    + discriminate.
  - count_trace. repeat split; auto.
Qed.

(* ================================================================== *)
(** ** The life of the resources *)
(* ================================================================== *)

Section Lifecycle.

Lemma lifecycle_app (t1 t2 : list event) : forall r,
  lifecycle r (t1 ++ t2)
  = match lifecycle r t1 with
    | Some r' => lifecycle r' t2
    | None => None
    end.
Proof.
  induction t1 as [|e t1 IH]; intros r; cbn [app lifecycle].
  - reflexivity.
  - destruct (lifecycle_step r e); [apply IH | reflexivity].
Qed.

Lemma lifecycle_mkdir (disk : filesystem) (r : resources) :
  lifecycle r (mkdir_events disk) = Some r.
Proof. unfold mkdir_events. destruct (directory disk); reflexivity. Qed.

Lemma lifecycle_writes (ws : list write) (r : resources) :
  temp_there r = true -> pool_up r = true ->
  lifecycle r (map write_event ws) = Some r.
Proof.
  intros Ht Hp. induction ws as [|[[i pos] data] ws IH]; [reflexivity|].
  cbn [map write_event lifecycle lifecycle_step]. rewrite Ht, Hp. exact IH.
Qed.

End Lifecycle.

(** X13.  In every run the events come in turn: the temporary file is
    created before the manager and the pool are started, every slice
    assignment happens while the file is there and the pool is up, the
    pool is terminated before the manager is shut down, and the file is
    unlinked only after both.  At the end nothing is left: no temporary
    file, no pool, no manager.  The log listener is stopped last, except
    when the space check fails: then it is never stopped. *)
Theorem resources_released (cfg : config) (env : run_env) (disk : filesystem) :
  lifecycle at_start
    (trace (fst (generate_full_8digit_combinations cfg env disk)))
  = Some (if free_bytes disk <? file_size cfg then at_start
          else Resources false false false false).
Proof.
  pose proof (run_has_shape cfg env disk) as Hshape.
  destruct Hshape as [Hfree|Hfree Hneg|e Hfree Hcase|cs datas mm' e Hsz Hch Hd Hap Hex
                      |cs datas mm' Hsz Hch Hd Hap];
    cbn [trace fst];
    [ apply Z.ltb_lt in Hfree
    | apply Z.ltb_ge in Hfree | apply Z.ltb_ge in Hfree
    | destruct Hsz as (_ & Hsz); apply Z.ltb_ge in Hsz; rename Hsz into Hfree
    | destruct Hsz as (_ & Hsz); apply Z.ltb_ge in Hsz; rename Hsz into Hfree ];
    rewrite Hfree, lifecycle_app, lifecycle_mkdir;
    unfold setup_events, teardown_events.
  - reflexivity.
  - reflexivity.
  - reflexivity.
  - cbn [app lifecycle lifecycle_step at_start temp_there manager_up pool_up
         listener_up orb andb negb].
    rewrite lifecycle_app, lifecycle_writes by reflexivity.
    destruct e; cbn in Hex; try contradiction; reflexivity.
  - cbn [app lifecycle lifecycle_step at_start temp_there manager_up pool_up
         listener_up orb andb negb].
    rewrite lifecycle_app, lifecycle_writes by reflexivity.
    reflexivity.
Qed.

(* ================================================================== *)
(** ** The output directory *)
(* ================================================================== *)

(** X14.  Whatever the run then does, it first makes sure of the output
    directory: the directory is there when the run ends, also when the
    space check fails; it is made at most once, as the first event, and
    only when it was missing. *)
Theorem directory_made_first (cfg : config) (env : run_env) (disk : filesystem) :
  let st := fst (generate_full_8digit_combinations cfg env disk) in
  directory (fs st) = true
  /\ (exists rest,
        trace st = (if directory disk then [] else [Mkdir]) ++ rest
        /\ count_events is_mkdir rest = 0%nat).
Proof.
  intros st.
  pose proof (run_has_shape cfg env disk) as Hshape. fold st in Hshape.
  change (if directory disk then [] else [Mkdir]) with (mkdir_events disk).
  destruct Hshape as [Hfree|Hfree Hneg|e Hfree Hcase|cs datas mm' e Hsz Hch Hd Hap Hex
                      |cs datas mm' Hsz Hch Hd Hap];
    cbn [trace fs directory set_temp with_directory];
    (split; [reflexivity|]);
    eexists; (split; [reflexivity|]);
    unfold setup_events, teardown_events; count_trace; try reflexivity.
  destruct e; cbn in Hex; try contradiction; reflexivity.
Qed.

(* ================================================================== *)
(** ** The progress line *)
(* ================================================================== *)

Section Progress.

Lemma progress_divisor_pos (nchunks : Z) : 0 < progress_divisor nchunks.
Proof. unfold progress_divisor. lia. Qed.

Lemma progress_divisor_le (nchunks : Z) :
  0 < nchunks -> nchunks <= 18 * progress_divisor nchunks + 1.
Proof.
  intros Hn. unfold progress_divisor.
  pose proof (Z.div_mod nchunks 10 ltac:(lia)) as Hdm.
  pose proof (Z.mod_pos_bound nchunks 10 ltac:(lia)) as Hm.
  destruct (Z.le_gt_cases 10 nchunks) as [Hbig|Hsmall].
  - assert (1 <= nchunks / 10) by (apply Z.div_le_lower_bound; lia). lia.
  - rewrite Z.div_small by lia. lia.
Qed.

(** Among [0, ..., n-1] there are [ceil(n / d)] multiples of [d]. *)
Lemma count_multiples (d : Z) (n : nat) :
  0 < d ->
  Z.of_nat (List.length (filter (fun i => i mod d =? 0)
                                (map Z.of_nat (seq 0 n))))
  = ceil_div (Z.of_nat n) d.
Proof.
  intros Hd. induction n as [|n IH].
  - cbn. unfold ceil_div. symmetry. apply Z.div_small. lia.
  - rewrite seq_S, map_app, filter_app, length_app, Nat2Z.inj_add, IH.
    cbn [Nat.add map filter].
    pose proof (Z.div_mod (Z.of_nat n) d ltac:(lia)) as Hdm.
    pose proof (Z.mod_pos_bound (Z.of_nat n) d Hd) as Hm.
    set (q := Z.of_nat n / d) in *. set (m := Z.of_nat n mod d) in *.
    unfold ceil_div.
    replace (Z.of_nat (S n) + d - 1) with (m + (q + 1) * d) by lia.
    rewrite Z.div_add, (Z.div_small m) by lia.
    destruct (m =? 0) eqn:E.
    + apply Z.eqb_eq in E.
      replace (Z.of_nat n + d - 1) with (d - 1 + q * d) by lia.
      rewrite Z.div_add, Z.div_small by lia. cbn. lia.
    + apply Z.eqb_neq in E.
      replace (Z.of_nat n + d - 1) with (m - 1 + (q + 1) * d) by lia.
      rewrite Z.div_add, Z.div_small by lia. cbn. lia.
Qed.

Lemma count_equal (c : Z) (n : nat) :
  (List.length (filter (fun i => (i =? c)%Z) (map Z.of_nat (seq 0 n))) <= 1)%nat
  /\ (c < 0 \/ Z.of_nat n <= c ->
      List.length (filter (fun i => i =? c) (map Z.of_nat (seq 0 n))) = 0%nat).
Proof.
  induction n as [|n (IH1 & IH2)].
  - cbn. split; [lia | reflexivity].
  - rewrite seq_S, map_app, filter_app, length_app.
    cbn [Nat.add map filter].
    destruct (Z.of_nat n =? c) eqn:E.
    + apply Z.eqb_eq in E. rewrite IH2 by lia. cbn. split; lia.
    + apply Z.eqb_neq in E. cbn. split; [lia|].
      intros H. rewrite IH2 by lia. reflexivity.
Qed.

Lemma length_filter_or {A : Type} (p q : A -> bool) (l : list A) :
  (List.length (filter (fun a => p a || q a) l)
   <= List.length (filter p l) + List.length (filter q l))%nat.
Proof.
  induction l as [|a l IH]; cbn; [lia|].
  destruct (p a), (q a); cbn; lia.
Qed.

End Progress.

(** X15.  The condition of the progress line holds for the first and for
    the last chunk index, its divisor is never zero, and with fewer than
    twenty chunks it holds for every index, so for each of the script's
    ten chunks; however many chunks there are, it holds for at most twenty
    of their indices. *)
Theorem progress_lines_bounded (nchunks : Z) :
  0 < nchunks ->
  0 < progress_divisor nchunks
  /\ reports_progress nchunks 0 = true
  /\ reports_progress nchunks (nchunks - 1) = true
  /\ (nchunks < 20 -> forall i, reports_progress nchunks i = true)
  /\ Z.of_nat (List.length (progress_lines nchunks)) <= 20.
Proof.
  intros Hn.
  pose proof (progress_divisor_pos nchunks) as Hd.
  split; [exact Hd|].
  split.
  { unfold reports_progress. rewrite Z.mod_0_l by lia. reflexivity. }
  split.
  { unfold reports_progress. rewrite Z.eqb_refl. apply orb_true_r. }
  split.
  { intros Hsmall i. unfold reports_progress, progress_divisor.
    assert (Hq : nchunks / 10 <= 1)
      by (apply Z.lt_succ_r; apply Z.div_lt_upper_bound; lia).
    replace (Z.max 1 (nchunks / 10)) with 1 by lia.
    rewrite Z.mod_1_r. reflexivity. }
  unfold progress_lines, reports_progress.
  pose proof (length_filter_or (fun i => i mod progress_divisor nchunks =? 0)
                (fun i => i =? nchunks - 1)
                (map Z.of_nat (seq 0 (Z.to_nat nchunks)))) as Hor.
  pose proof (count_multiples (progress_divisor nchunks) (Z.to_nat nchunks) Hd)
    as Hmul.
  destruct (count_equal (nchunks - 1) (Z.to_nat nchunks)) as (Hone & _).
  rewrite Z2Nat.id in Hmul by lia.
  assert (Hceil : ceil_div nchunks (progress_divisor nchunks) <= 19).
  { unfold ceil_div. apply Z.lt_succ_r. apply Z.div_lt_upper_bound; [exact Hd|].
    pose proof (progress_divisor_le nchunks Hn). lia. }
  lia.
Qed.

Lemma progress_lines_bounded_witness :
  0 < progress_divisor 10
  /\ reports_progress 10 0 = true
  /\ reports_progress 10 (10 - 1) = true
  /\ (10 < 20 -> forall i, reports_progress 10 i = true)
  /\ Z.of_nat (List.length (progress_lines 10)) <= 20.
Proof.
  apply (progress_lines_bounded 10). lia.
Defined.

(* ================================================================== *)
(** ** A faulty chunk *)
(* ================================================================== *)

(** X16.  When the worker of chunk [j] returns the marker [None] and the
    workers of the chunks in front of it return their buffers, a run
    that is not interrupted writes exactly the chunks [0, ..., j-1], in
    order, whatever became of the later chunks; it logs the one fatal
    error "Chunk generation failed", never raises the shared flag,
    returns [False], removes the temporary file and leaves the output
    path as it was. *)
Theorem chunk_fault_stops_after_prefix (cfg : config) (env : run_env)
    (disk : filesystem) (j : nat) :
  0 < TOTAL_ENTRIES cfg -> 0 < CHUNK_SIZE cfg -> ENTRY_LENGTH cfg = 9 ->
  Permutation (finished env) (seq 0 (chunk_count cfg)) ->
  file_size cfg <= free_bytes disk ->
  (forall i, interrupted env i = false) ->
  (j < chunk_count cfg)%nat ->
  (forall i, (i < j)%nat -> chunk_result cfg env i <> None) ->
  chunk_result cfg env j = None ->
  let st := fst (generate_full_8digit_combinations cfg env disk) in
  snd (generate_full_8digit_combinations cfg env disk) = Returned false
  /\ mmap_writes (trace st)
     = writes_from cfg 0 (map (chunk_data cfg) (seq 0 j))
  /\ filter is_report (trace st)
     = [LogFatal RuntimeError_chunk_generation_failed]
  /\ count_events is_set_flag (trace st) = 0%nat
  /\ temp_file (fs st) = None
  /\ output_file (fs st) = output_file disk.
Proof.
  intros HN HC HW Hfin Hroom Hint Hj Hbefore Hat st.
  pose proof (run_has_shape cfg env disk) as Hshape. fold st in Hshape.
  pose proof (make_chunks_eq cfg HN HC) as Hmk. fold (all_chunks cfg) in Hmk.
  pose proof (file_size_pos cfg HN HW) as Hpos.
  destruct Hshape as [Hfree|Hfree Hneg|e Hfree Hcase|cs datas mm' e Hsz Hch Hd Hap Hex
                      |cs datas mm' Hsz Hch Hd Hap];
    try lia.
  - destruct Hcase as [(Hz & _)|(_ & Hnone & _)]; [lia | congruence].
  - rewrite Hmk in Hch. inversion Hch; subst cs.
    destruct (written_prefix cfg env HN HC Hfin datas Hd) as (_ & Hdat & Hres).
    destruct e; cbn in Hex; try contradiction.
    + exfalso. destruct Hex as (_ & Hi). rewrite Hint in Hi. discriminate.
    + destruct Hex as (Hnth & _).
      rewrite chunk_results_in_order in Hnth by assumption.
      rewrite nth_error_map_seq in Hnth.
      destruct (List.length datas <? chunk_count cfg)%nat eqn:E; [|discriminate].
      inversion Hnth as [Hr].
      assert (Hdone : List.length datas = j).
      { destruct (Nat.lt_trichotomy (List.length datas) j) as [Hl|[He|Hg]].
        - exfalso. exact (Hbefore _ Hl Hr).
        - exact He.
        - rewrite (Hres j Hg) in Hat. discriminate. }
      rewrite Hdone in Hdat.
      cbn [fs trace temp_file output_file set_temp with_directory].
      split; [reflexivity|].
      split.
      { rewrite !mmap_writes_app, mmap_writes_mkdir, mmap_writes_events.
        cbn. rewrite app_nil_r, Hdat at 1. reflexivity. }
      split.
      { rewrite !filter_app, report_mkdir, report_writes. reflexivity. }
      split; [|split; reflexivity].
      unfold setup_events, teardown_events. count_trace. reflexivity.
    + exfalso.
      apply (no_index_error cfg env HN HC HW Hfin datas mm' Hd Hap). exact Hex.
  - exfalso. rewrite Hmk in Hch. inversion Hch; subst cs.
    assert (Hd' : map Some datas
                  = firstn (List.length datas) (chunk_results env (all_chunks cfg))).
    { rewrite <- Hd. symmetry. apply firstn_all2. rewrite length_map. lia. }
    destruct (written_prefix cfg env HN HC Hfin datas Hd') as (_ & _ & Hres).
    assert (Hlen : List.length datas = chunk_count cfg).
    { apply (f_equal (@List.length _)) in Hd.
      rewrite length_map, chunk_results_in_order, length_map, length_seq in Hd
        by assumption.
      exact Hd. }
    rewrite Hres in Hat by lia. discriminate.
Qed.

Lemma chunk_fault_stops_after_prefix_witness :
  let st := fst (generate_full_8digit_combinations small (faulty_chunk 2) roomy) in
  snd (generate_full_8digit_combinations small (faulty_chunk 2) roomy)
  = Returned false
  /\ mmap_writes (trace st)
     = writes_from small 0 (map (chunk_data small) (seq 0 2))
  /\ filter is_report (trace st)
     = [LogFatal RuntimeError_chunk_generation_failed]
  /\ count_events is_set_flag (trace st) = 0%nat
  /\ temp_file (fs st) = None
  /\ output_file (fs st) = output_file roomy.
Proof.
  apply (chunk_fault_stops_after_prefix small (faulty_chunk 2) roomy 2);
    try reflexivity; try (cbn; lia).
  intros i Hi. destruct i as [|[|i]]; [discriminate | discriminate | lia].
Defined.

(* ================================================================== *)
(** ** A record width above nine *)
(* ================================================================== *)

Section WideWidth.

(** Slice assignments that fit the mapping and start at or behind
    position [p] all succeed and leave the first [p] bytes alone. *)
Lemma apply_writes_behind (p : nat) : forall (ws : list write) (mm : list byte),
  Forall (fun w : write =>
            Z.of_nat p <= snd (fst w)
            /\ snd (fst w) + Py.len (snd w) <= Py.len mm) ws ->
  exists mm', apply_writes mm ws = Some mm'
              /\ firstn p mm' = firstn p mm.
Proof.
  induction ws as [|[[i pos] data] ws IH]; intros mm Hall.
  - exists mm. split; reflexivity.
  - inversion Hall as [|w ws' Hw Hrest]; subst. cbn [fst snd] in Hw.
    cbn [apply_writes].
    pose proof (setslice_inside mm data pos ltac:(lia) ltac:(lia)) as Hset.
    rewrite Hset.
    pose proof (setslice_length _ _ _ _ _ Hset) as Hlen.
    destruct (IH (firstn (Z.to_nat pos) mm ++ data
                  ++ skipn (Z.to_nat (pos + Py.len data)) mm))
      as (mm' & Hap & Hfront).
    { eapply Forall_impl; [|exact Hrest].
      intros w' (H1 & H2). split; [exact H1|]. rewrite Hlen. exact H2. }
    exists mm'. split; [exact Hap|].
    rewrite Hfront, firstn_app, firstn_firstn.
    assert (Hl : (p <= List.length (firstn (Z.to_nat pos) mm))%nat).
    { rewrite length_firstn. unfold Py.len in *. lia. }
    replace (p - List.length (firstn (Z.to_nat pos) mm))%nat with 0%nat by lia.
    rewrite firstn_O, app_nil_r. f_equal. lia.
Qed.

Variable cfg : config.
Variable env : run_env.
Hypothesis HN : 0 < TOTAL_ENTRIES cfg.
Hypothesis HC : 0 < CHUNK_SIZE cfg.
Hypothesis HW : 9 <= ENTRY_LENGTH cfg.

Lemma length_chunk_data_proper (k : nat) :
  (k < chunk_count cfg)%nat ->
  Py.len (chunk_data cfg k)
  = 9 * (Z.min ((Z.of_nat k + 1) * CHUNK_SIZE cfg) (TOTAL_ENTRIES cfg)
         - Z.of_nat k * CHUNK_SIZE cfg)
  /\ 9 <= Py.len (chunk_data cfg k).
Proof.
  clear HW. intros Hk. pose proof (chunk_bounds cfg HN HC k Hk) as Hs.
  unfold chunk_data, chunk_at, Py.len. cbn [fst snd].
  rewrite length_encode_records, length_arange. nia.
Qed.

(** With [W >= 9] the write of every chunk fits the mapping. *)
Lemma write_fits (k : nat) (mm : list byte) :
  (k < chunk_count cfg)%nat -> Py.len mm = file_size cfg ->
  0 <= Z.of_nat k * CHUNK_SIZE cfg * ENTRY_LENGTH cfg
  /\ Z.of_nat k * CHUNK_SIZE cfg * ENTRY_LENGTH cfg + Py.len (chunk_data cfg k)
     <= Py.len mm.
Proof.
  intros Hk Hlen. pose proof (chunk_bounds cfg HN HC k Hk) as Hs.
  destruct (length_chunk_data_proper k Hk) as (Hd & _).
  rewrite Hd, Hlen. unfold file_size.
  set (s := Z.of_nat k * CHUNK_SIZE cfg) in *.
  set (e := Z.min ((Z.of_nat k + 1) * CHUNK_SIZE cfg) (TOTAL_ENTRIES cfg)).
  assert (He : s < e <= TOTAL_ENTRIES cfg) by (unfold e, s; nia).
  split; [nia|].
  assert (9 * (e - s) <= ENTRY_LENGTH cfg * (e - s)) by nia.
  nia.
Qed.

(** The chunks [k, ..., k+m-1], written in order into a mapping of the
    file's size, all fit. *)
Lemma writes_fit (p k m : nat) (mm : list byte) :
  (k + m <= chunk_count cfg)%nat -> Py.len mm = file_size cfg ->
  Z.of_nat p <= Z.of_nat k * CHUNK_SIZE cfg * ENTRY_LENGTH cfg ->
  Forall (fun w : write =>
            Z.of_nat p <= snd (fst w)
            /\ snd (fst w) + Py.len (snd w) <= Py.len mm)
         (map (fun j => write_of cfg j (chunk_data cfg j)) (seq k m)).
Proof.
  intros Hk Hlen Hp. apply Forall_forall. intros w Hw.
  apply in_map_iff in Hw. destruct Hw as (j & <- & Hj).
  apply in_seq in Hj. unfold write_of. cbn [fst snd].
  destruct (write_fits j mm ltac:(lia) Hlen) as (H0 & H1).
  split; [|exact H1].
  assert (Hkj : Z.of_nat k * CHUNK_SIZE cfg <= Z.of_nat j * CHUNK_SIZE cfg)
    by (apply Z.mul_le_mono_nonneg_r; lia).
  assert (Z.of_nat k * CHUNK_SIZE cfg * ENTRY_LENGTH cfg
          <= Z.of_nat j * CHUNK_SIZE cfg * ENTRY_LENGTH cfg)
    by (apply Z.mul_le_mono_nonneg_r; lia).
  lia.
Qed.

End WideWidth.

Section ExpectedFront.

Lemma zeros_snoc (k : nat) : (Np.zeros k ++ "0")%string = Np.zeros (S k).
Proof. induction k as [|k IH]; cbn; [reflexivity | now rewrite IH]. Qed.

Lemma zeros_app (a b : nat) :
  Np.zeros (a + b) = (Np.zeros a ++ Np.zeros b)%string.
Proof. induction a as [|a IH]; cbn; [reflexivity | now rewrite IH]. Qed.

(** With more than eight digits asked for, the record of zero starts
    with nine zero digits. *)
Lemma expected_front (cfg : config) :
  0 < TOTAL_ENTRIES cfg -> 9 < ENTRY_LENGTH cfg ->
  firstn 9 (expected_output cfg) = Py.encode_ascii "000000000".
Proof.
  intros HN HW. unfold expected_output.
  replace (Z.to_nat (TOTAL_ENTRIES cfg))
    with (S (Z.to_nat (TOTAL_ENTRIES cfg) - 1)) by lia.
  cbn [seq map List.concat]. unfold padded_record, Np.zfill.
  change (Np.str_uint32 (Z.of_nat 0)) with "0".
  cbn [String.length].
  replace (Z.to_nat (ENTRY_LENGTH cfg - 1) - 1)%nat
    with (8 + (Z.to_nat (ENTRY_LENGTH cfg) - 10))%nat by lia.
  rewrite zeros_app.
  assert (Hs : forall s t : string,
            (((Np.zeros 8 ++ s) ++ "0") ++ t)%string
            = (Np.zeros 8 ++ (s ++ "0" ++ t))%string).
  { intros s t. now rewrite !append_assoc'. }
  rewrite Hs, encode_app, firstn_app.
  change (List.length (Py.encode_ascii (Np.zeros 8))) with 8%nat.
  change (firstn 9 (Py.encode_ascii (Np.zeros 8)))
    with (Py.encode_ascii (Np.zeros 8)).
  change (9 - 8)%nat with 1%nat.
  destruct (Z.to_nat (ENTRY_LENGTH cfg) - 10)%nat; reflexivity.
Qed.

End ExpectedFront.

(** X17.  A record width [W] above nine is not refused either: in
    undisturbed surroundings the run returns [True] and publishes a
    file of [N * W] bytes, but the file is not the one the format asks
    for: its ninth byte is the newline of the nine-byte record of zero,
    where the format has a digit. *)
Theorem wide_width_publishes_misplaced_records (cfg : config) (env : run_env)
    (disk : filesystem) :
  0 < TOTAL_ENTRIES cfg -> 0 < CHUNK_SIZE cfg -> 9 < ENTRY_LENGTH cfg ->
  Permutation (finished env) (seq 0 (chunk_count cfg)) ->
  file_size cfg <= free_bytes disk ->
  (forall i, interrupted env i = false) ->
  (forall i s, flag (worker env i) s = false) ->
  (forall i k, raises (worker env i) k = false) ->
  snd (generate_full_8digit_combinations cfg env disk) = Returned true
  /\ exists content,
       output_file (fs (fst (generate_full_8digit_combinations cfg env disk)))
       = Some content
       /\ Py.len content = TOTAL_ENTRIES cfg * ENTRY_LENGTH cfg
       /\ firstn 9 content = Py.encode_ascii (format_record 0)
       /\ content <> expected_output cfg.
Proof.
  intros HN HC HW Hfin Hroom Hint Hflag Hraise.
  pose proof (run_has_shape cfg env disk) as Hshape.
  pose proof (make_chunks_eq cfg HN HC) as Hmk. fold (all_chunks cfg) in Hmk.
  assert (Hpos : 0 < file_size cfg) by (unfold file_size; nia).
  destruct (ceil_div_bounds _ _ HN HC) as (Hcount & _ & _).
  assert (Hzeros : Py.len (repeat x00 (Z.to_nat (file_size cfg))) = file_size cfg)
    by (unfold Py.len; rewrite repeat_length; lia).
  destruct Hshape as [Hfree|Hfree Hneg|e Hfree Hcase|cs datas mm' e Hsz Hch Hd Hap Hex
                      |cs datas mm' Hsz Hch Hd Hap];
    try lia.
  - destruct Hcase as [(Hz & _)|(_ & Hnone & _)]; [lia | congruence].
  - exfalso. rewrite Hmk in Hch. inversion Hch; subst cs.
    destruct e; cbn in Hex; try contradiction.
    + destruct Hex as (_ & Hi). rewrite Hint in Hi. discriminate.
    + destruct Hex as (Hnth & _).
      rewrite chunk_results_in_order in Hnth by assumption.
      rewrite nth_error_map_seq in Hnth.
      destruct (List.length datas <? chunk_count cfg)%nat eqn:E; [|discriminate].
      apply Nat.ltb_lt in E. inversion Hnth as [Hr].
      unfold chunk_result in Hr.
      rewrite generate_chunk_quiet in Hr; auto; [discriminate|].
      pose proof (chunk_bounds cfg HN HC _ E).
      unfold chunk_at. cbn [fst snd]. nia.
    + destruct Hex as (data & Hnth & _ & Hw).
      rewrite chunk_results_in_order in Hnth by assumption.
      rewrite nth_error_map_seq in Hnth.
      destruct (List.length datas <? chunk_count cfg)%nat eqn:E; [|discriminate].
      apply Nat.ltb_lt in E. inversion Hnth as [Hr].
      apply (chunk_result_some cfg env HN HC) in Hr; [|exact E]. subst data.
      apply apply_writes_length in Hap. rewrite Hzeros in Hap.
      cbn [Nat.add] in Hw. unfold write_of in Hw. cbn [apply_writes] in Hw.
      destruct (write_fits cfg HN HC ltac:(lia) _ mm' E Hap) as (H0 & H1).
      rewrite setslice_inside in Hw by assumption. discriminate.
  - split; [reflexivity|].
    rewrite Hmk in Hch. inversion Hch; subst cs.
    assert (Hd' : map Some datas
                  = firstn (List.length datas) (chunk_results env (all_chunks cfg))).
    { rewrite <- Hd. symmetry. apply firstn_all2. rewrite length_map. lia. }
    destruct (written_prefix cfg env HN HC Hfin datas Hd') as (_ & Hdat & _).
    assert (Hlen : List.length datas = chunk_count cfg).
    { apply (f_equal (@List.length _)) in Hd.
      rewrite length_map, chunk_results_in_order, length_map, length_seq in Hd
        by assumption.
      exact Hd. }
    rewrite Hlen in Hdat.
    exists mm'. cbn [fs output_file].
    split; [reflexivity|].
    pose proof (apply_writes_length _ _ _ Hap) as Hsize. rewrite Hzeros in Hsize.
    split; [exact Hsize|].
    assert (Hfront : firstn 9 mm' = Py.encode_ascii (format_record 0)).
    { rewrite Hdat, writes_from_map_seq in Hap.
      assert (Hk : chunk_count cfg = S (chunk_count cfg - 1))
        by (unfold chunk_count; lia).
      rewrite Hk in Hap. cbn [seq map] in Hap.
      unfold write_of in Hap at 1. cbn [apply_writes] in Hap.
      destruct (write_fits cfg HN HC ltac:(lia) 0%nat
                  (repeat x00 (Z.to_nat (file_size cfg))) ltac:(lia) Hzeros)
        as (H0 & H1).
      pose proof (setslice_inside _ _ _ H0 H1) as Hset.
      cbn [Z.of_nat Z.mul] in Hset, Hap. rewrite Hset in Hap.
      pose proof (setslice_length _ _ _ _ _ Hset) as Hl1. rewrite Hzeros in Hl1.
      destruct (apply_writes_behind 9 _ _
                  (writes_fit cfg HN HC ltac:(lia) 9 1 (chunk_count cfg - 1) _
                     ltac:(lia) Hl1 ltac:(nia)))
        as (mm2 & Hap2 & Hkeep).
      rewrite Hap2 in Hap.
      assert (Hmm : mm2 = mm') by congruence. subst mm2.
      rewrite Hkeep. change (Z.to_nat 0) with 0%nat.
      rewrite firstn_O. cbn [app].
      destruct (length_chunk_data_proper cfg HN HC 0%nat ltac:(lia)) as (_ & H9).
      rewrite firstn_app.
      replace (9 - List.length (chunk_data cfg 0))%nat with 0%nat
        by (unfold Py.len in H9; lia).
      rewrite firstn_O, app_nil_r.
      unfold chunk_data, chunk_at. cbn [fst snd]. change (Z.of_nat 0) with 0.
      set (e := Z.min ((0 + 1) * CHUNK_SIZE cfg) (TOTAL_ENTRIES cfg)).
      assert (He : 1 <= e) by (unfold e; lia).
      replace (0 * CHUNK_SIZE cfg) with 0 by lia.
      rewrite <- (arange_app 0 1 e) by lia.
      rewrite encode_records_app, firstn_app.
      change (encode_records (Np.arange_uint32 0 1))
        with (Py.encode_ascii (format_record 0)).
      change (List.length (Py.encode_ascii (format_record 0))) with 9%nat.
      rewrite Nat.sub_diag, firstn_O, app_nil_r. reflexivity. }
    split; [exact Hfront|].
    intros Heq. rewrite Heq, expected_front in Hfront by assumption.
    discriminate.
Qed.

Lemma wide_width_publishes_misplaced_records_witness :
  snd (generate_full_8digit_combinations wide reversed roomy) = Returned true
  /\ exists content,
       output_file (fs (fst (generate_full_8digit_combinations wide reversed roomy)))
       = Some content
       /\ Py.len content = TOTAL_ENTRIES wide * ENTRY_LENGTH wide
       /\ firstn 9 content = Py.encode_ascii (format_record 0)
       /\ content <> expected_output wide.
Proof.
  apply (wide_width_publishes_misplaced_records wide reversed roomy);
    try reflexivity; try (cbn; lia).
  apply Permutation_sym. exact (Permutation_rev [0; 1; 2; 3]%nat).
Defined.

(* ================================================================== *)
(** * Part IV: how a run proceeds *)
(* ================================================================== *)

(* ================================================================== *)
(** ** The three ways a run over a proper partition can go *)
(* ================================================================== *)

Section Progress9.

Variable cfg : config.
Variable env : run_env.
Variable disk : filesystem.
Hypothesis HN : 0 < TOTAL_ENTRIES cfg.
Hypothesis HC : 0 < CHUNK_SIZE cfg.
Hypothesis HW : ENTRY_LENGTH cfg = 9.
Hypothesis Hfin : Permutation (finished env) (seq 0 (chunk_count cfg)).
Hypothesis Hroom : file_size cfg <= free_bytes disk.

(** With the record width 9 and room on the disk, the loop writes the
    results of the chunks [0, ..., m-1], none of them interrupted, and
    then either all chunks are written and the run returns [True], or
    the shutdown event is found set at result [m], or result [m] is the
    marker [None]. *)
Lemma run_progress :
  let st := fst (generate_full_8digit_combinations cfg env disk) in
  let out := snd (generate_full_8digit_combinations cfg env disk) in
  exists m mm',
    (m <= chunk_count cfg)%nat
    /\ mmap_writes (trace st)
       = writes_from cfg 0 (map (chunk_data cfg) (seq 0 m))
    /\ apply_writes (repeat x00 (Z.to_nat (file_size cfg)))
         (mmap_writes (trace st)) = Some mm'
    /\ (forall i, (i < m)%nat ->
          interrupted env i = false
          /\ chunk_result cfg env i = Some (chunk_data cfg i))
    /\ (m = chunk_count cfg /\ out = Returned true
        /\ output_file (fs st) = Some mm'
        \/ (m < chunk_count cfg)%nat /\ interrupted env m = true
           /\ out = Returned false
           /\ filter is_report (trace st) = [LogInterrupted]
        \/ (m < chunk_count cfg)%nat /\ interrupted env m = false
           /\ chunk_result cfg env m = None
           /\ out = Returned false
           /\ filter is_report (trace st)
              = [LogFatal RuntimeError_chunk_generation_failed]).
Proof.
  intros st out.
  pose proof (run_has_shape cfg env disk) as Hshape.
  pose proof (run_writes_uninterrupted cfg env disk) as Hu.
  fold st out in Hshape. fold st in Hu.
  pose proof (make_chunks_eq cfg HN HC) as Hmk. fold (all_chunks cfg) in Hmk.
  pose proof (file_size_pos cfg HN HW) as Hpos.
  assert (Hlw : forall datas, List.length (writes_from cfg 0 datas)
                              = List.length datas).
  { intros datas. unfold writes_from.
    rewrite length_map, length_combine, length_seq. lia. }
  destruct Hshape as [Hfree|Hfree Hneg|e Hfree Hcase|cs datas mm' e Hsz Hch Hd Hap Hex
                      |cs datas mm' Hsz Hch Hd Hap];
    try lia.
  - destruct Hcase as [(Hz & _)|(_ & Hnone & _)]; [lia | congruence].
  - rewrite Hmk in Hch. inversion Hch; subst cs.
    destruct (written_prefix cfg env HN HC Hfin datas Hd) as (Hlen & Hdat & Hres).
    assert (Hws : mmap_writes
                    (mkdir_events disk ++ setup_events cfg
                     ++ map write_event (writes_from cfg 0 datas)
                     ++ tail_events (Some e) ++ [log_of e] ++ teardown_events)
                  = writes_from cfg 0 datas).
    { rewrite !mmap_writes_app, mmap_writes_mkdir, mmap_writes_events.
      destruct e; cbn; now rewrite app_nil_r. }
    cbn [trace fs] in Hu |- *. rewrite Hws in Hu |- *. rewrite Hlw in Hu.
    exists (List.length datas), mm'.
    split; [exact Hlen|].
    split; [rewrite Hdat at 1; reflexivity|].
    split; [exact Hap|].
    split; [intros i Hi; split; [apply Hu; exact Hi | apply Hres; exact Hi]|].
    right.
    destruct e; cbn in Hex; try contradiction.
    + destruct Hex as (Hlt & Hi). left.
      rewrite chunk_results_in_order, length_map, length_seq in Hlt by assumption.
      repeat split; auto.
      rewrite !filter_app, report_mkdir, report_writes. reflexivity.
    + destruct Hex as (Hnth & Hi). right.
      rewrite chunk_results_in_order in Hnth by assumption.
      rewrite nth_error_map_seq in Hnth.
      destruct (List.length datas <? chunk_count cfg)%nat eqn:E; [|discriminate].
      apply Nat.ltb_lt in E. inversion Hnth as [Hr].
      repeat split; auto.
      rewrite !filter_app, report_mkdir, report_writes. reflexivity.
    + exfalso.
      apply (no_index_error cfg env HN HC HW Hfin datas mm' Hd Hap). exact Hex.
  - rewrite Hmk in Hch. inversion Hch; subst cs.
    assert (Hd' : map Some datas
                  = firstn (List.length datas) (chunk_results env (all_chunks cfg))).
    { rewrite <- Hd. symmetry. apply firstn_all2. rewrite length_map. lia. }
    destruct (written_prefix cfg env HN HC Hfin datas Hd') as (Hlen & Hdat & Hres).
    assert (Hall : List.length datas = chunk_count cfg).
    { apply (f_equal (@List.length _)) in Hd.
      rewrite length_map, chunk_results_in_order, length_map, length_seq in Hd
        by assumption.
      exact Hd. }
    assert (Hws : mmap_writes
                    (mkdir_events disk ++ setup_events cfg
                     ++ map write_event (writes_from cfg 0 datas)
                     ++ [Rename; PoolTerminate; ManagerShutdown; ListenerStop])
                  = writes_from cfg 0 datas).
    { rewrite !mmap_writes_app, mmap_writes_mkdir, mmap_writes_events.
      cbn. now rewrite app_nil_r. }
    cbn [trace fs output_file] in Hu |- *. rewrite Hws in Hu |- *.
    rewrite Hlw in Hu.
    exists (List.length datas), mm'.
    split; [exact Hlen|].
    split; [rewrite Hdat at 1; reflexivity|].
    split; [exact Hap|].
    split; [intros i Hi; split; [apply Hu; exact Hi | apply Hres; exact Hi]|].
    left. auto.
Qed.

(** The number of results written is the index of the first result at
    which the loop is stopped. *)
Lemma first_stop (j m : nat) :
  (forall i, (i < j)%nat ->
     interrupted env i = false /\ chunk_result cfg env i <> None) ->
  (forall i, (i < m)%nat ->
     interrupted env i = false
     /\ chunk_result cfg env i = Some (chunk_data cfg i)) ->
  interrupted env j = true \/ chunk_result cfg env j = None ->
  (j < chunk_count cfg)%nat ->
  m = chunk_count cfg
  \/ (m < chunk_count cfg)%nat
     /\ (interrupted env m = true \/ chunk_result cfg env m = None) ->
  m = j.
Proof.
  intros Hbefore Hwritten Hat Hj Hend.
  destruct (Nat.lt_trichotomy m j) as [Hl|[He|Hg]]; [|exact He|].
  - exfalso. destruct (Hbefore m Hl) as (Hi & Hr).
    destruct Hend as [Hm|(_ & [Hm|Hm])]; [lia | congruence | congruence].
  - exfalso. destruct (Hwritten j Hg) as (Hi & Hr).
    destruct Hat as [Hat|Hat]; congruence.
Qed.

End Progress9.

(* ================================================================== *)
(** ** The order of the slice assignments *)
(* ================================================================== *)



(* ================================================================== *)
(** ** What the launcher learns of an interruption and of a fault *)
(* ================================================================== *)

(** C8 (amended).  The launcher learns one bit: the exit status is 0 when
    the run returned [True] and 1 otherwise.  A run that passed the space
    check returns a boolean; when it returns [False], the log holds either
    the interruption message or one fatal-error message.  An interruption
    and a chunk fault both return [False] and give the exit status 1: when
    the shutdown event is found set at result [j], the log holds the
    interruption message and nothing else, and when result [j] is the
    marker [None], the log holds the one fatal error "Chunk generation
    failed", the same whichever chunk it was. *)
Theorem outcome_is_one_bit (cfg : config) (env : run_env) (disk : filesystem) :
  let st := fst (generate_full_8digit_combinations cfg env disk) in
  let out := snd (generate_full_8digit_combinations cfg env disk) in
  (main cfg env disk = 0 \/ main cfg env disk = 1)
  /\ (main cfg env disk = 0 <-> out = Returned true)
  /\ (file_size cfg <= free_bytes disk -> exists b, out = Returned b)
  /\ (out = Returned false ->
        filter is_report (trace st) = [LogInterrupted]
        \/ exists e, filter is_report (trace st) = [LogFatal e]
                     /\ (is_KeyboardInterrupt e = false))
  /\ (forall j,
        0 < TOTAL_ENTRIES cfg -> 0 < CHUNK_SIZE cfg -> ENTRY_LENGTH cfg = 9 ->
        Permutation (finished env) (seq 0 (chunk_count cfg)) ->
        file_size cfg <= free_bytes disk ->
        (j < chunk_count cfg)%nat ->
        (forall i, (i < j)%nat ->
           interrupted env i = false /\ chunk_result cfg env i <> None) ->
        (interrupted env j = true ->
           out = Returned false /\ main cfg env disk = 1
           /\ filter is_report (trace st) = [LogInterrupted])
        /\ (interrupted env j = false -> chunk_result cfg env j = None ->
              out = Returned false /\ main cfg env disk = 1
              /\ filter is_report (trace st)
                 = [LogFatal RuntimeError_chunk_generation_failed])).
Proof.
  intros st out.
  assert (Hmain : main cfg env disk
                  = match out with Returned true => 0 | _ => 1 end).
  { unfold main. fold out. destruct out as [[|]|]; reflexivity. }
  pose proof (run_has_shape cfg env disk) as Hshape.
  fold st out in Hshape.
  assert (Hmk : filter is_report (mkdir_events disk) = [])
    by apply report_mkdir.
  rewrite Hmain.
  assert (Hfour :
    ((match out with Returned true => 0 | _ => 1 end) = 0
     \/ (match out with Returned true => 0 | _ => 1 end) = 1)
    /\ ((match out with Returned true => 0 | _ => 1 end) = 0
        <-> out = Returned true)
    /\ (file_size cfg <= free_bytes disk -> exists b, out = Returned b)
    /\ (out = Returned false ->
          filter is_report (trace st) = [LogInterrupted]
          \/ exists e, filter is_report (trace st) = [LogFatal e]
                       /\ (is_KeyboardInterrupt e = false))).
  { destruct Hshape as [Hfree|Hfree Hneg|e Hfree Hcase|chunks datas mm' e Hsz Hch Hd Hap Hex
                        |chunks datas mm' Hsz Hch Hd Hap];
      cbn [trace].
    - repeat split; try (intros; discriminate); auto. intros; lia.
    - repeat split; try (intros; discriminate); auto; eauto.
      intros _. right. exists OSError_truncate.
      rewrite filter_app, Hmk. auto.
    - repeat split; try (intros; discriminate); auto; eauto.
      intros _. right. exists e.
      rewrite !filter_app, Hmk.
      destruct Hcase as [(_ & ->)|(_ & _ & ->)]; auto.
    - repeat split; try (intros; discriminate); auto; eauto.
      intros _. rewrite !filter_app, Hmk, report_writes. unfold log_of.
      destruct e; cbn in Hex; try contradiction; cbn; eauto.
    - repeat split; try (intros; discriminate); auto; eauto. }
  destruct Hfour as (H1 & H2 & H3 & H4).
  split; [exact H1|]. split; [exact H2|]. split; [exact H3|].
  split; [exact H4|].
  intros j HN HC HW Hfin Hroom Hj Hbefore.
  destruct (run_progress cfg env disk HN HC HW Hfin Hroom)
    as (m & mm' & Hm & _ & _ & Hwritten & Hend).
  fold st out in Hend.
  assert (Hstop : m = chunk_count cfg
                  \/ (m < chunk_count cfg)%nat
                     /\ (interrupted env m = true \/ chunk_result cfg env m = None)).
  { destruct Hend as [(Hk & _)|[(Hk & Hi & _)|(Hk & _ & Hr & _)]]; auto. }
  split.
  - intros Hat.
    pose proof (first_stop cfg env j m Hbefore Hwritten (or_introl Hat) Hj Hstop)
      as ->.
    destruct Hend as [(Hk & _)|[(_ & _ & Hout & Hrep)|(_ & Hi & _)]];
      [lia | | congruence].
    rewrite Hout. auto.
  - intros Hnot Hat.
    pose proof (first_stop cfg env j m Hbefore Hwritten (or_intror Hat) Hj Hstop)
      as ->.
    destruct Hend as [(Hk & _)|[(_ & Hi & _)|(_ & _ & _ & Hout & Hrep)]];
      [lia | congruence |].
    rewrite Hout. auto.
Qed.

(** An interruption at the third result, and a fault of the third
    chunk. *)
Lemma outcome_is_one_bit_witness :
  (snd (generate_full_8digit_combinations small (interrupted_at 2) roomy)
   = Returned false
   /\ main small (interrupted_at 2) roomy = 1
   /\ filter is_report
        (trace (fst (generate_full_8digit_combinations small (interrupted_at 2) roomy)))
      = [LogInterrupted])
  /\ (snd (generate_full_8digit_combinations small (faulty_chunk 2) roomy)
      = Returned false
      /\ main small (faulty_chunk 2) roomy = 1
      /\ filter is_report
           (trace (fst (generate_full_8digit_combinations small (faulty_chunk 2) roomy)))
         = [LogFatal RuntimeError_chunk_generation_failed]).
Proof.
  assert (HN : 0 < TOTAL_ENTRIES small) by (cbn; lia).
  assert (HC : 0 < CHUNK_SIZE small) by (cbn; lia).
  assert (HW : ENTRY_LENGTH small = 9) by reflexivity.
  assert (Hroom : file_size small <= free_bytes roomy) by (cbn; lia).
  assert (Hj : (2 < chunk_count small)%nat) by (cbn; lia).
  split.
  - assert (Hfin : Permutation (finished (interrupted_at 2))
                     (seq 0 (chunk_count small))) by apply Permutation_refl.
    assert (Hbefore : forall i, (i < 2)%nat ->
              interrupted (interrupted_at 2) i = false
              /\ chunk_result small (interrupted_at 2) i <> None).
    { intros i Hi. destruct i as [|[|i]]; [| | lia];
        (split; [reflexivity | discriminate]). }
    destruct (outcome_is_one_bit small (interrupted_at 2) roomy)
      as (_ & _ & _ & _ & H5).
    destruct (H5 2%nat HN HC HW Hfin Hroom Hj Hbefore) as (Hint & _).
    apply Hint. reflexivity.
  - assert (Hfin : Permutation (finished (faulty_chunk 2))
                     (seq 0 (chunk_count small))) by apply Permutation_refl.
    assert (Hbefore : forall i, (i < 2)%nat ->
              interrupted (faulty_chunk 2) i = false
              /\ chunk_result small (faulty_chunk 2) i <> None).
    { intros i Hi. destruct i as [|[|i]]; [| | lia];
        (split; [reflexivity | discriminate]). }
    destruct (outcome_is_one_bit small (faulty_chunk 2) roomy)
      as (_ & _ & _ & _ & H5).
    destruct (H5 2%nat HN HC HW Hfin Hroom Hj Hbefore) as (_ & Hfault).
    apply Hfault; reflexivity.
Defined.

(* ================================================================== *)
(** ** The failed space check *)
(* ================================================================== *)


(** X18.  What a run does when the free space is short of [N * W] bytes:
    it makes sure of the output directory, logs the one fatal error of
    the space check, which carries the required and the free amount, and
    nothing else; it creates no temporary file and starts neither manager
    nor pool; it leaves the temporary and the output path as they were;
    and it does not return: the [finally] clause raises
    [UnboundLocalError] for the unbound [temp_path], so the process exits
    with status 1. *)
Theorem failed_space_check_touches_nothing (cfg : config) (env : run_env)
    (disk : filesystem) :
  free_bytes disk < TOTAL_ENTRIES cfg * ENTRY_LENGTH cfg ->
  let st := fst (generate_full_8digit_combinations cfg env disk) in
  trace st
  = (if directory disk then [] else [Mkdir])
    ++ [LogFatal (IOError_insufficient_space
                    (TOTAL_ENTRIES cfg * ENTRY_LENGTH cfg) (free_bytes disk))]
  /\ snd (generate_full_8digit_combinations cfg env disk)
     = Propagated UnboundLocalError_temp_path
  /\ main cfg env disk = 1
  /\ temp_file (fs st) = temp_file disk
  /\ output_file (fs st) = output_file disk
  /\ directory (fs st) = true.
Proof.
  intros Hfree st.
  pose proof (run_has_shape cfg env disk) as Hshape. fold st in Hshape.
  unfold main.
  inversion Hshape as [Hf Hst Hout|Hf Hneg Hst Hout|e Hf Hcase Hst Hout
                       |cs datas mm' e Hsz Hch Hd Hap Hex Hst Hout
                       |cs datas mm' Hsz Hch Hd Hap Hst Hout];
    unfold file_size in *; try lia.
  cbn [trace fs temp_file output_file directory with_directory].
  repeat split; reflexivity.
Qed.

Lemma failed_space_check_touches_nothing_witness :
  let st := fst (generate_full_8digit_combinations small reversed bare) in
  trace st
  = (if directory bare then [] else [Mkdir])
    ++ [LogFatal (IOError_insufficient_space
                    (TOTAL_ENTRIES small * ENTRY_LENGTH small) (free_bytes bare))]
  /\ snd (generate_full_8digit_combinations small reversed bare)
     = Propagated UnboundLocalError_temp_path
  /\ main small reversed bare = 1
  /\ temp_file (fs st) = temp_file bare
  /\ output_file (fs st) = output_file bare
  /\ directory (fs st) = true.
Proof.
  apply (failed_space_check_touches_nothing small reversed bare). cbn. lia.
Defined.

(* ================================================================== *)
(** ** Cancellation of a chunk *)
(* ================================================================== *)

Section Cancellation.

Variable env : worker_env.

Lemma nth_full_steps (numbers : list Z) (bs : Z) : forall starts b,
  (b < List.length starts)%nat ->
  nth_error (full_steps numbers bs starts) (2 * b) = Some (ReadFlag false).
Proof.
  induction starts as [|i starts IH]; intros b Hb; cbn [List.length] in Hb.
  - lia.
  - destruct b as [|b]; [reflexivity|].
    replace (2 * S b)%nat with (S (S (2 * b))) by lia.
    cbn [full_steps flat_map app nth_error]. apply IH. lia.
Qed.

(** A loop whose reads all see the flag down and whose batches do not
    raise runs to its end. *)
Lemma batch_loop_reads_down (numbers : list Z) (bs : Z) :
  forall starts k t result,
    (forall b, (b < List.length starts)%nat ->
       flag env (t + 2 * b) = false /\ raises env (k + b) = false) ->
    exists tr r, batch_loop env numbers bs starts k t result = (tr, Some r).
Proof.
  induction starts as [|i starts IH]; intros k t result Hdown; simpl.
  - eauto.
  - destruct (Hdown 0%nat ltac:(cbn; lia)) as (Hf & Hr).
    rewrite Nat.mul_0_r, Nat.add_0_r in Hf. rewrite Nat.add_0_r in Hr.
    rewrite Hf, Hr.
    destruct (IH (S k) (S (S t))
                (result ++ Py.encode_ascii (Py.join (map format_record
                   (Py.slice numbers i (i + bs))))))
      as (tr & r & E).
    { intros b Hb. destruct (Hdown (S b) ltac:(cbn; lia)) as (Hf' & Hr').
      split; [rewrite <- Hf' | rewrite <- Hr']; f_equal; lia. }
    rewrite E. eauto.
Qed.

Variables start stop : Z.
Hypothesis Hrange : 0 <= start < stop.

(** The number of batches of the chunk. *)
Lemma batch_count (starts : list Z) :
  Py.range 0 (Py.len (Np.arange_uint32 start stop))
    (Z.min 100000 (stop - start)) = Some starts ->
  List.length starts = Z.to_nat (ceil_div (stop - start) 100000).
Proof.
  intros Hrg.
  assert (Hlen : 0 < Py.len (Np.arange_uint32 start stop))
    by (unfold Py.len; rewrite length_arange; lia).
  assert (Hbs : 0 < Z.min 100000 (stop - start)) by lia.
  rewrite (range_items _ _ Hlen Hbs) in Hrg.
  inversion Hrg; subst starts.
  rewrite length_map, length_seq.
  unfold Py.len. rewrite length_arange by exact Hrange.
  rewrite (Z2Nat.id (stop - start)) by lia.
  rewrite ceil_div_min by lia. reflexivity.
Qed.

(** A call that returns a buffer has seen the flag down at every one of
    its reads: before the start and in front of each batch. *)
Lemma completed_call_reads (buf : list byte) :
  generate_chunk env start stop = Some buf ->
  flag env 0 = false
  /\ forall b, (b < Z.to_nat (ceil_div (stop - start) 100000))%nat ->
       flag env (2 * b + 1) = false.
Proof.
  intros Hsome.
  destruct (chunk_steps_shape env start stop) as (_ & _ & Hread & _).
  revert Hsome Hread. unfold generate_chunk, generate_chunk_steps.
  destruct (flag env 0) eqn:Hf0; [discriminate|].
  destruct (batches_cover start stop Hrange) as (starts & Hrg & _).
  rewrite Hrg. pose proof (batch_count starts Hrg) as Hcount.
  destruct (batch_loop env (Np.arange_uint32 start stop)
              (Z.min 100000 (stop - start)) starts 0 1 []) as [tr r] eqn:E.
  cbn [fst snd]. intros -> Hread.
  apply batch_loop_some_steps in E. subst tr.
  split; [reflexivity|].
  intros b Hb. rewrite <- Hcount in Hb.
  symmetry. apply (Hread (2 * b + 1)%nat false).
  replace (2 * b + 1)%nat with (S (2 * b)) by lia.
  cbn [nth_error]. apply nth_full_steps. exact Hb.
Qed.

(** With the flag down at every read and no batch raising, the call
    returns the buffer of the chunk. *)
Lemma uncancelled_call_returns :
  flag env 0 = false ->
  (forall b, (b < Z.to_nat (ceil_div (stop - start) 100000))%nat ->
     flag env (2 * b + 1) = false /\ raises env b = false) ->
  generate_chunk env start stop
  = Some (encode_records (Np.arange_uint32 start stop)).
Proof.
  intros Hf0 Hdown. unfold generate_chunk, generate_chunk_steps. rewrite Hf0.
  destruct (batches_cover start stop Hrange) as (starts & Hrg & Hcat).
  rewrite Hrg. pose proof (batch_count starts Hrg) as Hcount.
  destruct (batch_loop_reads_down (Np.arange_uint32 start stop)
              (Z.min 100000 (stop - start)) starts 0 1 [])
    as (tr & r & E).
  { intros b Hb. rewrite Hcount in Hb. destruct (Hdown b Hb) as (H1 & H2).
    split; [rewrite <- H1; f_equal; lia | exact H2]. }
  rewrite E. cbn [snd]. f_equal.
  apply batch_loop_some in E. rewrite Hcat in E. exact E.
Qed.

End Cancellation.

(** The claimed marker is not always returned: when the flag comes up
    while the last batch of a chunk is formatted, no read is left to see
    it, and the call returns the complete buffer. *)
Lemma flag_raised_in_last_batch_is_missed :
  let env := {| flag := fun s => Nat.leb 2 s; raises := fun _ => false |} in
  flag env 0 = false /\ flag env 1 = false
  /\ (forall s, (2 <= s)%nat -> flag env s = true)
  /\ generate_chunk env 0 3 = Some (encode_records [0; 1; 2])
  /\ generate_chunk env 0 3 <> None.
Proof.
  intros env. split; [reflexivity|]. split; [reflexivity|].
  split.
  { intros s Hs. destruct s as [|[|s]]; [lia | lia | reflexivity]. }
  split; [reflexivity | discriminate].
Qed.

(** C9 (amended).  The chunk generator reads the shared flag once before
    it starts and then once in front of every inner batch; a batch has at
    most 100,000 records; every read sees the flag as it is at that step,
    and a read that sees the flag up makes the call return the
    cancellation marker [None].  So when the flag is up from some step
    [t0] on, at most one batch is still formatted from that step on,
    whatever the size of the chunk.  For a chunk [[start, stop)] with
    [0 <= start < stop], which has [ceil((stop - start) / 100000)]
    batches: the call returns the marker whenever the flag is up at the
    read before the start or at the read in front of one of the batches,
    so whenever it is up from a step on that is not behind the last read;
    there is no read behind the last batch, and a call all of whose reads
    see the flag down returns the buffer of the whole chunk unless a
    batch raises, also when the flag came up while the last batch was
    formatted. *)
Theorem cancellation_latency (env : worker_env) (start stop : Z) :
  let tr := fst (generate_chunk_steps env start stop) in
  let r := snd (generate_chunk_steps env start stop) in
  let batches := Z.to_nat (ceil_div (stop - start) 100000) in
  hd_error tr = Some (ReadFlag (flag env 0))
  /\ (forall p n, nth_error tr p = Some (Batch n) ->
        Z.of_nat n <= 100000
        /\ exists q, p = S q /\ nth_error tr q = Some (ReadFlag false)
                     /\ flag env q = false)
  /\ (forall p b, nth_error tr p = Some (ReadFlag b) -> b = flag env p)
  /\ (forall p, nth_error tr p = Some (ReadFlag true) -> r = None)
  /\ (forall t0, (forall s, (t0 <= s)%nat -> flag env s = true) ->
        (count_batches (skipn t0 tr) <= 1)%nat
        /\ (r = None \/ (List.length tr <= S t0)%nat))
  /\ (0 <= start < stop ->
        (flag env 0 = true -> r = None)
        /\ (forall b, (b < batches)%nat -> flag env (2 * b + 1) = true ->
              r = None)
        /\ (forall t0, (forall s, (t0 <= s)%nat -> flag env s = true) ->
              (t0 < 2 * batches)%nat -> r = None)
        /\ (flag env 0 = false ->
            (forall b, (b < batches)%nat ->
               flag env (2 * b + 1) = false /\ raises env b = false) ->
            r = Some (encode_records (Np.arange_uint32 start stop)))).
Proof.
  intros tr r batches.
  destruct (chunk_steps_shape env start stop) as (H1 & H2 & H3 & H4 & H5).
  fold tr r in H1, H2, H3, H4, H5.
  split; [exact H1|]. split; [exact H2|]. split; [exact H3|].
  split; [exact H4|]. split; [exact H5|].
  intros Hrange.
  assert (Hseen : forall s, flag env s = true ->
            s = 0%nat \/ (exists b, (b < batches)%nat /\ s = (2 * b + 1)%nat) ->
            r = None).
  { intros s Hup Hs. destruct r as [buf|] eqn:Er; [exfalso | reflexivity].
    destruct (completed_call_reads env start stop Hrange buf Er) as (Hf0 & Hfb).
    destruct Hs as [->|(b & Hb & ->)]; [congruence|].
    rewrite (Hfb b Hb) in Hup. discriminate. }
  split; [intros Hup; apply (Hseen 0%nat Hup); now left|].
  split.
  { intros b Hb Hup. apply (Hseen _ Hup). right. now exists b. }
  split.
  { intros t0 Hup Ht0.
    assert (Hb : (batches - 1 < batches)%nat) by lia.
    apply (Hseen (2 * (batches - 1) + 1)%nat).
    - apply Hup. lia.
    - right. now exists (batches - 1)%nat. }
  intros Hf0 Hdown.
  apply (uncancelled_call_returns env start stop Hrange Hf0 Hdown).
Qed.

(** The flag comes up while the first of three batches is formatted: the
    read in front of the second batch sees it, and the call returns the
    marker after that one batch. *)
Lemma cancellation_latency_witness :
  let env := {| flag := fun s => Nat.leb 2 s; raises := fun _ => false |} in
  snd (generate_chunk_steps env 0 250000) = None
  /\ (count_batches (skipn 2 (fst (generate_chunk_steps env 0 250000))) <= 1)%nat.
Proof.
  intros env.
  assert (Hup : forall s, (2 <= s)%nat -> flag env s = true).
  { intros s Hs. destruct s as [|[|s]]; [lia | lia | reflexivity]. }
  assert (Hrange : 0 <= 0 < 250000) by lia.
  assert (Hbatches : (2 < 2 * Z.to_nat (ceil_div (250000 - 0) 100000))%nat).
  { change (Z.to_nat (ceil_div (250000 - 0) 100000)) with 3%nat. lia. }
  destruct (cancellation_latency env 0 250000)
    as (_ & _ & _ & _ & H5 & H6).
  destruct (H6 Hrange) as (_ & _ & Hlate & _).
  split; [exact (Hlate 2%nat Hup Hbatches) | exact (proj1 (H5 2%nat Hup))].
Defined.
